(** * markdown-to-confluence: reference processing and the two-phase publish

    A shallow embedding of the JavaScript sources [src/reference-processor.js],
    [src/confluence-publisher.js] and the frontmatter helpers
    ([src/unnamed/part_000], imported as [./frontmatter-utils]).

    Conventions of the embedding:
    - JavaScript strings are Rocq [string]s (ASCII code units).
    - Plain JavaScript objects and [Map]s are association lists kept in
      insertion order; [assoc_set] updates a present key in place and appends
      a new one, as [obj[k] = v] and [Map.prototype.set] do.
    - A directory is the list of its entries in the order [readdirSync]
      returns them.
    - Code that may throw returns an [option] ([None] = an exception). *)

From Stdlib Require Import String Ascii List Bool ZArith Lia DecimalString.
Import ListNotations.
Open Scope string_scope.
#[local] Set Warnings "-register-all".

(* ------------------------------------------------------------------ *)
(** ** JavaScript string operations *)

Module Str.

Definition nl : ascii := "010".
Definition cr : ascii := "013".

Fixpoint starts_with (p s : string) : bool :=
  match p, s with
  | EmptyString, _ => true
  | String c p', String d s' => Ascii.eqb c d && starts_with p' s'
  | String _ _, EmptyString => false
  end.

Fixpoint strip_prefix (p s : string) : option string :=
  match p, s with
  | EmptyString, _ => Some s
  | String c p', String d s' => if Ascii.eqb c d then strip_prefix p' s' else None
  | String _ _, EmptyString => None
  end.

(** [s.endsWith(p)] *)
Definition ends_with (p s : string) : bool :=
  (String.length p <=? String.length s)%nat &&
  String.eqb (substring (String.length s - String.length p) (String.length p) s) p.

(** [s.indexOf(p)] *)
Fixpoint index_of (p s : string) : option nat :=
  if starts_with p s then Some 0
  else match s with
       | EmptyString => None
       | String _ s' => option_map S (index_of p s')
       end.

(** [s.includes(p)] *)
Definition includes (p s : string) : bool :=
  match index_of p s with Some _ => true | None => false end.

Fixpoint has_char (c : ascii) (s : string) : bool :=
  match s with
  | EmptyString => false
  | String d s' => Ascii.eqb c d || has_char c s'
  end.

Fixpoint rev_str (s : string) : string :=
  match s with
  | EmptyString => EmptyString
  | String c s' => rev_str s' ++ String c EmptyString
  end.

(** White space removed by [String.prototype.trim] (ASCII part). *)
Definition is_ws (c : ascii) : bool :=
  let n := nat_of_ascii c in ((9 <=? n)%nat && (n <=? 13)%nat) || (n =? 32)%nat.

Fixpoint trim_start (s : string) : string :=
  match s with
  | EmptyString => EmptyString
  | String c s' => if is_ws c then trim_start s' else s
  end.

Definition trim_end (s : string) : string := rev_str (trim_start (rev_str s)).

Definition trim (s : string) : string := trim_end (trim_start s).

Fixpoint last_char (s : string) : option ascii :=
  match s with
  | EmptyString => None
  | String c EmptyString => Some c
  | String _ s' => last_char s'
  end.

(** gray-matter's [newline(str)]:
    [str.slice(-1) !== '\n' ? str + '\n' : str] *)
Definition newline (s : string) : string :=
  match last_char s with
  | Some c => if Ascii.eqb c nl then s else s ++ String nl EmptyString
  | None => s ++ String nl EmptyString
  end.

(** [s.replace(c1, c2)] for every occurrence ([/c1/g]) *)
Fixpoint replace_char (c1 c2 : ascii) (s : string) : string :=
  match s with
  | EmptyString => EmptyString
  | String c s' => String (if Ascii.eqb c c1 then c2 else c) (replace_char c1 c2 s')
  end.

End Str.

(* ------------------------------------------------------------------ *)
(** ** Association lists with JavaScript object / Map semantics *)

Section Assoc.
Context {V : Type}.

Fixpoint assoc_get (o : list (string * V)) (k : string) : option V :=
  match o with
  | [] => None
  | (k', v) :: o' => if String.eqb k k' then Some v else assoc_get o' k
  end.

Fixpoint assoc_set (o : list (string * V)) (k : string) (v : V) : list (string * V) :=
  match o with
  | [] => [(k, v)]
  | (k', v') :: o' =>
      if String.eqb k k' then (k', v) :: o' else (k', v') :: assoc_set o' k v
  end.

Definition assoc_has (o : list (string * V)) (k : string) : bool :=
  match assoc_get o k with Some _ => true | None => false end.

(** [{ ...a, ...b }] *)
Definition spread (a b : list (string * V)) : list (string * V) :=
  fold_left (fun acc kv => assoc_set acc (fst kv) (snd kv)) b
    (fold_left (fun acc kv => assoc_set acc (fst kv) (snd kv)) a []).

End Assoc.

(* ------------------------------------------------------------------ *)
(** ** The configuration file [.markdown-confluence.json] *)

Inductive json :=
| JNull
| JBool (b : bool)
| JNum (z : Z)
| JStr (s : string)
| JArr (l : list json)
| JObj (l : list (string * json)).

Definition config := list (string * json).

(** [!v] for a JSON value read from a property ([None] = undefined). *)
Definition json_falsy (v : option json) : bool :=
  match v with
  | None | Some JNull | Some (JBool false) => true
  | Some (JNum z) => Z.eqb z 0
  | Some (JStr s) => String.eqb s ""
  | _ => false
  end.

(** [x === s] for a string [s]: only a string with the same contents. *)
Definition json_is_str (s : string) (v : json) : bool :=
  match v with JStr s' => String.eqb s s' | _ => false end.

(** [if (!ign.includes(e)) ign.push(e)]; on a string [includes] is the
    substring test and [push] does not exist; on any other non-array value
    [includes] does not exist (TypeError in both cases). *)
Definition ensure_entry (e : string) (ign : json) : option json :=
  match ign with
  | JArr l => if existsb (json_is_str e) l then Some (JArr l) else Some (JArr (l ++ [JStr e]))
  | JStr s => if Str.includes e s then Some (JStr s) else None
  | _ => None
  end.

(** Lines 90-100 of [publishToConfluence]. *)
Definition add_ignore_patterns (cfg : config) : option config :=
  let cfg := if json_falsy (assoc_get cfg "ignore") then assoc_set cfg "ignore" (JArr []) else cfg in
  match assoc_get cfg "ignore" with
  | None => None
  | Some ign =>
      match ensure_entry "images" ign with
      | None => None
      | Some ign1 =>
          match ensure_entry "assets/images" ign1 with
          | None => None
          | Some ign2 => Some (assoc_set cfg "ignore" ign2)
          end
      end
  end.

(** The ignore list as an array of entries, when it is one after the
    [if (!config.ignore) config.ignore = []] step. *)
Definition ignore_entries (cfg : config) : option (list json) :=
  if json_falsy (assoc_get cfg "ignore") then Some []
  else match assoc_get cfg "ignore" with Some (JArr l) => Some l | _ => None end.

Definition count_str (s : string) (l : list json) : nat :=
  List.length (filter (json_is_str s) l).

(** Entries that lines 95-100 append to an ignore array [l]. *)
Definition missing_ignores (l : list json) : list json :=
  (if existsb (json_is_str "images") l then [] else [JStr "images"]) ++
  (if existsb (json_is_str "assets/images") l then [] else [JStr "assets/images"]).

(* ------------------------------------------------------------------ *)
(** ** Frontmatter values and the YAML engine *)

(** Scalar values a YAML frontmatter block yields (js-yaml turns an
    unquoted ISO date into a [Date] object, kept here as [YDate]). *)
Inductive yval :=
| YStr (s : string)
| YNum (z : Z)
| YBool (b : bool)
| YNull
| YDate (iso : string).

Definition fm := list (string * yval).

(** JavaScript truthiness of a property read ([None] = undefined). *)
Definition truthy (v : option yval) : bool :=
  match v with
  | None | Some YNull => false
  | Some (YStr s) => negb (String.eqb s "")
  | Some (YNum z) => negb (Z.eqb z 0)
  | Some (YBool b) => b
  | Some (YDate _) => true
  end.

(** The engine gray-matter delegates to (js-yaml by default), an external
    library: [yaml_parse lang text] parses a frontmatter block written in
    language [lang] ([None] when the engine throws or is not registered),
    [yaml_dump] is [yaml.safeDump], the [stringify] of the ['yaml'] engine,
    and [lang_stringify lang] is [engine.stringify] of the engine registered
    for any other language ([None] when there is none, when it has no
    [stringify], as for ['javascript'], or when it throws). *)
Class YamlEngine := {
  yaml_parse : string -> string -> option fm;
  yaml_dump : fm -> string;
  lang_stringify : string -> fm -> option string
}.

(** [String.prototype.toLowerCase] (ASCII part). *)
Definition lower_ascii (c : ascii) : ascii :=
  let n := nat_of_ascii c in
  if ((65 <=? n)%nat && (n <=? 90)%nat) then ascii_of_nat (n + 32) else c.

Fixpoint lower_string (s : string) : string :=
  match s with
  | EmptyString => EmptyString
  | String c s' => String (lower_ascii c) (lower_string s')
  end.

(** gray-matter's [getEngine(name)]: [engines[name] || engines[aliase(name)]],
    where [aliase] maps ['yaml'] and ['yml'] in any case to ['yaml']. *)
Definition yaml_alias (lang : string) : bool :=
  let l := lower_string lang in String.eqb l "yaml" || String.eqb l "yml".

Section EngineStringify.
Context {YE : YamlEngine}.

(** [engine.stringify(data)] of [getEngine(language)]. *)
Definition engine_stringify (lang : string) (data : fm) : option string :=
  if yaml_alias lang then Some (yaml_dump data) else lang_stringify lang data.

End EngineStringify.

Fixpoint str_drop (n : nat) (s : string) : string :=
  match n, s with
  | O, _ => s
  | S _, EmptyString => EmptyString
  | S n', String _ s' => str_drop n' s'
  end.

Definition first_is (c : ascii) (s : string) : bool :=
  match s with String d _ => Ascii.eqb c d | EmptyString => false end.

(** [str.search(/\r?\n/)] *)
Fixpoint search_eol (s : string) : option nat :=
  match s with
  | EmptyString => None
  | String c s' =>
      if Ascii.eqb c Str.nl then Some 0
      else if Ascii.eqb c Str.cr && first_is Str.nl s' then Some 0
      else option_map S (search_eol s')
  end.

(** [language.raw] of gray-matter's [matter.language]:
    [str.slice(0, str.search(/\r?\n/))] (a search result of [-1] drops the
    last character). *)
Definition language_raw (s : string) : string :=
  match search_eol s with
  | Some i => substring 0 i s
  | None => substring 0 (String.length s - 1) s
  end.

Fixpoint span (p : ascii -> bool) (s : string) : string * string :=
  match s with
  | EmptyString => (EmptyString, EmptyString)
  | String c s' => if p c then let (a, b) := span p s' in (String c a, b) else (EmptyString, s)
  end.

(** One match of [/^\s*#[^\n]+/] at a line start: the rest of the input. *)
Definition comment_match (s : string) : option string :=
  let (_, r) := span Str.is_ws s in
  match r with
  | String c r' =>
      if Ascii.eqb c "#" then
        let (t, r'') := span (fun d => negb (Ascii.eqb d Str.nl)) r' in
        match t with EmptyString => None | _ => Some r'' end
      else None
  | EmptyString => None
  end.

(** [matter.replace(/^\s*#[^\n]+/gm, '')]; [bol] says whether the current
    position starts a line of the input. *)
Fixpoint strip_comments_fuel (n : nat) (bol : bool) (s : string) : string :=
  match n with
  | O => s
  | S n' =>
      match s with
      | EmptyString => EmptyString
      | String c s' =>
          match (if bol then comment_match s else None) with
          | Some rest => strip_comments_fuel n' false rest
          | None => String c (strip_comments_fuel n' (Ascii.eqb c Str.nl) s')
          end
      end
  end.

Definition strip_comments (s : string) : string :=
  strip_comments_fuel (String.length s) true s.

Definition gm_close : string := String Str.nl "---".

Section GrayMatter.
Context {YE : YamlEngine}.

(** gray-matter's [matter(input)] (with its [parseMatter]): the data and the
    raw content after the frontmatter block. *)
Definition gm_matter (input : string) : option (fm * string) :=
  if String.eqb input "" then Some ([], "") else
  if negb (Str.starts_with "---" input) then Some ([], input) else
  let str := str_drop 3 input in
  if first_is "-" str then Some ([], input) else
  let raw := language_raw str in
  let name := Str.trim raw in
  let lang := if String.eqb name "" then "yaml" else name in
  let str := if String.eqb name "" then str else str_drop (String.length raw) str in
  let len := String.length str in
  let close_index := match Str.index_of gm_close str with Some i => i | None => len end in
  let mtr := substring 0 close_index str in
  let data := if String.eqb (Str.trim (strip_comments mtr)) "" then Some []
              else yaml_parse lang mtr in
  match data with
  | None => None
  | Some d =>
      let content :=
        if Nat.eqb close_index len then ""
        else let c := str_drop (close_index + 4) str in
             let c := if first_is Str.cr c then str_drop 1 c else c in
             if first_is Str.nl c then str_drop 1 c else c in
      Some (d, content)
  end.

(** [file.language] after [matter(input)]: [parseMatter] first sets it to
    [opts.language] (['yaml']), then to the name written after the opening
    delimiter, if any; [matter('')] leaves it unset, and [stringify] falls
    back to ['yaml']. *)
Definition gm_language (input : string) : string :=
  if String.eqb input "" then "yaml" else
  if negb (Str.starts_with "---" input) then "yaml" else
  let str := str_drop 3 input in
  if first_is "-" str then "yaml" else
  let name := Str.trim (language_raw str) in
  if String.eqb name "" then "yaml" else name.

(** The end of gray-matter's [stringify(file, data)] once the engine has
    dumped the data to [out]: the block, unless the dump is an empty
    mapping, then [newline(file.content)]. *)
Definition gm_write (out content : string) : string :=
  let m := Str.trim out in
  let buf := if String.eqb m "{}" then ""
             else Str.newline "---" ++ Str.newline m ++ Str.newline "---" in
  buf ++ Str.newline content.

(** gray-matter's [matter.stringify(body, data)]: the string [body] is
    first parsed, [file = matter(body)]; the engine of [file.language]
    dumps [Object.assign({}, file.data, data)], and [file.content] follows
    the block.  (With no [excerpt] option, [file.excerpt] is [''] or a
    prefix of [file.content], so no excerpt is written.  [matter] caches its
    results by input; the cache gives back what a fresh parse gives, as
    long as parsing does not throw.) *)
Definition gm_stringify (body : string) (data : fm) : option string :=
  match gm_matter body with
  | None => None
  | Some (d0, content) =>
      option_map (fun out => gm_write out content)
        (engine_stringify (gm_language body) (spread (spread [] d0) data))
  end.

(** [parseFrontmatter] of [frontmatter-utils]. *)
Definition parse_frontmatter (content : string) : option (fm * string) :=
  match gm_matter content with
  | Some (d, c) => Some (d, Str.trim c)
  | None => None
  end.

(** [updateFrontmatter] of [frontmatter-utils]. *)
Definition update_frontmatter (content : string) (new_data : fm) : option string :=
  match gm_matter content with
  | Some (d, body) => gm_stringify body (spread d new_data)
  | None => None
  end.

End GrayMatter.

(** A small YAML engine used to run the development on concrete documents:
    flat mappings of plain scalars, one [key: value] per line, as js-yaml
    parses and dumps them. *)
Module MiniYaml.

Definition is_digit (c : ascii) : bool :=
  let n := nat_of_ascii c in (48 <=? n)%nat && (n <=? 57)%nat.

Fixpoint digits_value (s : string) (acc : Z) : Z :=
  match s with
  | EmptyString => acc
  | String c s' => digits_value s' (acc * 10 + Z.of_nat (nat_of_ascii c - 48))%Z
  end.

Definition all_digits (s : string) : bool :=
  match s with
  | EmptyString => false
  | _ => String.eqb (fst (span is_digit s)) s
  end.

Definition scalar (s : string) : yval :=
  if String.eqb s "true" then YBool true
  else if String.eqb s "false" then YBool false
  else if String.eqb s "null" || String.eqb s "" then YNull
  else if all_digits s then YNum (digits_value s 0)
  else YStr s.

Fixpoint lines (s : string) : list string :=
  match s with
  | EmptyString => [EmptyString]
  | String c s' =>
      if Ascii.eqb c Str.nl then EmptyString :: lines s'
      else match lines s' with
           | l :: ls => String c l :: ls
           | [] => [String c EmptyString]
           end
  end.

Fixpoint parse_lines (ls : list string) (acc : fm) : option fm :=
  match ls with
  | [] => Some acc
  | l :: ls' =>
      if String.eqb (Str.trim l) "" then parse_lines ls' acc
      else let (k, r) := span (fun c => negb (Ascii.eqb c ":")) l in
           match r with
           | String _ v => parse_lines ls' (assoc_set acc k (scalar (Str.trim v)))
           | EmptyString => None
           end
  end.

Definition render (v : yval) : string :=
  match v with
  | YStr s => s
  | YNum z => match z with Z0 => "0" | _ => NilEmpty.string_of_int (Z.to_int z) end
  | YBool true => "true"
  | YBool false => "false"
  | YNull => "null"
  | YDate iso => iso
  end.

Definition dump (d : fm) : string :=
  match d with
  | [] => "{}" ++ String Str.nl ""
  | _ => String.concat "" (map (fun kv => fst kv ++ ": " ++ render (snd kv) ++ String Str.nl "") d)
  end.

#[export] Instance engine : YamlEngine := {
  yaml_parse lang text := if String.eqb lang "yaml" then parse_lines (lines text) [] else None;
  yaml_dump := dump;
  lang_stringify _ _ := None
}.

End MiniYaml.

(* ------------------------------------------------------------------ *)
(** ** Paths *)

Definition slash : ascii := "/".
Definition backslash : ascii := "\".

(** [path.join(relativePath, entry.name)] where [relativePath] is [''] or
    was built by earlier joins and [entry.name] is a directory entry name
    (never empty, never ['.'] or ['..'], no ['/']). *)
Definition path_join (rel name : string) : string :=
  if String.eqb rel "" then name else rel ++ String slash name.

(** [p.replace(/\.md$/, '')] *)
Definition strip_md (p : string) : string :=
  if Str.ends_with ".md" p then substring 0 (String.length p - 3) p else p.

Fixpoint drop_slashes (s : string) : string :=
  match s with
  | EmptyString => EmptyString
  | String c s' => if Ascii.eqb c slash then drop_slashes s' else s
  end.

(** [normalizePath]:
    [p.replace(/\\/g, '/').replace(/^\/+|\/+$/g, '')] *)
Definition normalize_path (p : string) : string :=
  let q := Str.replace_char backslash slash p in
  Str.rev_str (drop_slashes (Str.rev_str (drop_slashes q))).

(** Node's [path.posix.dirname]. *)
Definition dirname (p : string) : string :=
  match p with
  | EmptyString => "."
  | String c0 rest =>
      let has_root := Ascii.eqb c0 slash in
      let fix go (r : list ascii) (matched : bool) (i : nat) : option nat :=
        match r with
        | [] => None
        | c :: r' =>
            if Ascii.eqb c slash then (if matched then go r' matched (i - 1) else Some i)
            else go r' false (i - 1)
        end in
      match go (rev (list_ascii_of_string rest)) true (String.length p - 1) with
      | None => if has_root then "/" else "."
      | Some e => if has_root && Nat.eqb e 1 then "//" else substring 0 e p
      end
  end.

Fixpoint split_on (c : ascii) (s : string) : list string :=
  match s with
  | EmptyString => [EmptyString]
  | String d s' =>
      if Ascii.eqb d c then EmptyString :: split_on c s'
      else match split_on c s' with
           | l :: ls => String d l :: ls
           | [] => [String d EmptyString]
           end
  end.

(** Node's [normalizeString] on ['/']-separated segments; the stack holds
    the kept segments, last one first. *)
Definition normalize_segments (allow_above_root : bool) (segs : list string) : list string :=
  fold_left (fun st seg =>
    if String.eqb seg "" || String.eqb seg "." then st
    else if String.eqb seg ".." then
      match st with
      | top :: st' =>
          if String.eqb top ".." then (if allow_above_root then ".." :: st else st) else st'
      | [] => if allow_above_root then [".."] else []
      end
    else seg :: st) segs [].

(** Node's [path.posix.normalize]. *)
Definition path_normalize (p : string) : string :=
  match p with
  | EmptyString => "."
  | String c0 _ =>
      let is_abs := Ascii.eqb c0 slash in
      let trailing := match Str.last_char p with Some c => Ascii.eqb c slash | None => false end in
      let r := String.concat "/" (rev (normalize_segments (negb is_abs) (split_on slash p))) in
      if String.eqb r "" then (if is_abs then "/" else if trailing then "./" else ".")
      else let r := if trailing then r ++ "/" else r in
           if is_abs then "/" ++ r else r
  end.

(** [path.join(a, b)] for two non-empty arguments. *)
Definition path_join2 (a b : string) : string := path_normalize (a ++ String slash b).

(** [s.replace(pat, rep)] with a string pattern: the first occurrence. *)
Fixpoint replace_first (pat rep s : string) : string :=
  if Str.starts_with pat s then rep ++ str_drop (String.length pat) s
  else match s with
       | EmptyString => EmptyString
       | String c s' => String c (replace_first pat rep s')
       end.

(** [path.basename(name, '.md')] for an entry name that ends in [.md]. *)
Definition basename_md (name : string) : string :=
  if String.eqb name ".md" then "" else strip_md name.

(* ------------------------------------------------------------------ *)
(** ** JavaScript [ToString] of the values that reach template strings *)

Definition z_to_string (z : Z) : string :=
  match z with
  | Z0 => "0"
  | _ => NilEmpty.string_of_int (Z.to_int z)
  end.

(** [String(v)] of a frontmatter value.  For a [Date] the engine-independent
    ISO text stands for [Date.prototype.toString], whose output depends on
    the time zone. *)
Definition yval_to_string (v : yval) : string :=
  match v with
  | YStr s => s
  | YNum z => z_to_string z
  | YBool b => if b then "true" else "false"
  | YNull => "null"
  | YDate iso => iso
  end.

(** [String(v)] of a configuration property ([None] = undefined). *)
Fixpoint json_to_string (v : json) : string :=
  match v with
  | JNull => "null"
  | JBool b => if b then "true" else "false"
  | JNum z => z_to_string z
  | JStr s => s
  | JArr l =>
      String.concat "," (map (fun x => match x with JNull => "" | _ => json_to_string x end) l)
  | JObj _ => "[object Object]"
  end.

Definition prop_to_string (v : option json) : string :=
  match v with None => "undefined" | Some x => json_to_string x end.

(* ------------------------------------------------------------------ *)
(** ** Inline links: [/\[([^\]]+)\]\(([^)]+)\)/g] *)

Definition not_char (c : ascii) (d : ascii) : bool := negb (Ascii.eqb d c).

(** One match of the link pattern at the start of [s]: the link text, the
    url and the rest of the input.  Both character classes are followed by
    the only character they exclude, so the greedy runs never backtrack. *)
Definition link_match (s : string) : option (string * string * string) :=
  match s with
  | String c s1 =>
      if Ascii.eqb c "[" then
        let (t, r1) := span (not_char "]") s1 in
        match t, r1 with
        | String _ _, String _ (String c2 r2) =>
            if Ascii.eqb c2 "(" then
              let (u, r3) := span (not_char ")") r2 in
              match u, r3 with
              | String _ _, String _ r4 => Some (t, u, r4)
              | _, _ => None
              end
            else None
        | _, _ => None
        end
      else None
  | EmptyString => None
  end.

Inductive token :=
| TChar (c : ascii)
| TLink (text url : string).

(** The global scan of [String.prototype.replace]: from each position,
    a match is taken and scanning resumes after it; otherwise the character
    is kept and scanning resumes at the next position. *)
Fixpoint scan_fuel (n : nat) (s : string) : list token :=
  match n with
  | O => map TChar (list_ascii_of_string s)
  | S n' =>
      match s with
      | EmptyString => []
      | String c s' =>
          match link_match s with
          | Some (t, u, r) => TLink t u :: scan_fuel n' r
          | None => TChar c :: scan_fuel n' s'
          end
      end
  end.

Definition scan_links (s : string) : list token := scan_fuel (String.length s) s.

Definition link_text (t u : string) : string := "[" ++ t ++ "](" ++ u ++ ")".

Fixpoint render (toks : list token) : string :=
  match toks with
  | [] => ""
  | TChar c :: r => String c (render r)
  | TLink t u :: r => link_text t u ++ render r
  end.

(** [s.replace(linkRegex, (match, text, url) => f text url)] *)
Definition replace_links (f : string -> string -> string) (s : string) : string :=
  String.concat "" (map (fun tk => match tk with
                                   | TChar c => String c ""
                                   | TLink t u => f t u
                                   end) (scan_links s)).

(* ------------------------------------------------------------------ *)
(** ** [fixReferences] *)

Definition page_map := list (string * yval).
Definition space_key_map := list (string * string).

(** The eight candidate keys of a link target, in the order tried. *)
Definition path_variations (base_dir url : string) : list string :=
  let bs := Str.replace_char backslash slash in
  let joined := path_join2 base_dir url in
  let dotless := replace_first "./" "" url in
  map normalize_path
    [ url; strip_md url;
      bs joined; bs (strip_md joined);
      dotless; strip_md dotless;
      bs (path_normalize joined); bs (strip_md (path_normalize joined)) ].

(** The loop [for (const p of pathVariations) if (pageMap.has(p)) ...]. *)
Fixpoint find_page (pm : page_map) (ps : list string) : option yval :=
  match ps with
  | [] => None
  | p :: ps' => if assoc_has pm p then assoc_get pm p else find_page pm ps'
  end.

(** [spaceKeyMap.get(pageId) || config.confluenceSpaceKey]; the map's keys
    are strings, so only a string identifier can hit. *)
Definition space_key_for (skm : space_key_map) (cfg : config) (pid : yval) : string :=
  let fallback := prop_to_string (assoc_get cfg "confluenceSpaceKey") in
  match (match pid with YStr s => assoc_get skm s | _ => None end) with
  | Some sk => if String.eqb sk "" then fallback else sk
  | None => fallback
  end.

Definition confluence_url (cfg : config) (space_key : string) (pid : yval) : string :=
  prop_to_string (assoc_get cfg "confluenceBaseUrl") ++ "/wiki/spaces/" ++ space_key
  ++ "/pages/" ++ yval_to_string pid.

Definition is_remote (url : string) : bool :=
  Str.includes "/wiki/spaces/" url || Str.starts_with "http" url.

(** The replace callback of [fixReferences]. *)
Definition fix_link (pm : page_map) (base_dir : string) (skm : space_key_map) (cfg : config)
    (text url : string) : string :=
  let m := link_text text url in
  if is_remote url then m
  else match find_page pm (path_variations base_dir url) with
       | Some pid =>
           if truthy (Some pid)
           then link_text text (confluence_url cfg (space_key_for skm cfg pid) pid)
           else m
       | None => m
       end.

Section References.
Context {YE : YamlEngine}.

Definition fix_references (content : string) (pm : page_map) (file_path : string)
    (skm : space_key_map) (cfg : config) : option string :=
  match parse_frontmatter content with
  | None => None
  | Some (f, clean) =>
      update_frontmatter (replace_links (fix_link pm (dirname file_path) skm cfg) clean) f
  end.

End References.

(* ------------------------------------------------------------------ *)
(** ** Document trees and [buildPageIdMap] *)

Inductive dirent :=
| DFile (name content : string)
| DDir (name : string) (entries : list dirent).

Definition is_md (name : string) : bool := Str.ends_with ".md" name.

(** The three [pageMap.set] calls of one document. *)
Definition register_doc (rel_path : string) (id : yval) (m : page_map) : page_map :=
  let np := normalize_path rel_path in
  let nb := normalize_path (strip_md rel_path) in
  let m := assoc_set m np id in
  let m := assoc_set m nb id in
  let parent := dirname np in
  if String.eqb parent "." then m else assoc_set m parent id.

Section BuildMap.
Context {YE : YamlEngine}.

(** [processDir] of [buildPageIdMap]: [rel] is the relative path of the
    directory holding the entry. *)
Fixpoint bpm_entry (rel : string) (e : dirent) (m : page_map) {struct e} : option page_map :=
  match e with
  | DDir name es =>
      let rel' := path_join rel name in
      (fix go (es : list dirent) (m : page_map) : option page_map :=
         match es with
         | [] => Some m
         | e' :: es' =>
             match bpm_entry rel' e' m with
             | Some m' => go es' m'
             | None => None
             end
         end) es m
  | DFile name content =>
      if is_md name then
        match parse_frontmatter content with
        | None => None
        | Some (f, _) =>
            match assoc_get f "connie-page-id" with
            | Some id => if truthy (Some id) then Some (register_doc (path_join rel name) id m) else Some m
            | None => Some m
            end
        end
      else Some m
  end.

(** [buildPageIdMap(dir)]; the root is walked with relative path [''],
    which is what [path_join "" ""] gives for the children. *)
Definition build_page_id_map (root : list dirent) : option page_map :=
  bpm_entry "" (DDir "" root) [].

End BuildMap.

(** The markdown documents of a tree in visiting order, with their
    relative paths. *)
Fixpoint md_docs (rel : string) (e : dirent) : list (string * string) :=
  match e with
  | DDir name es => flat_map (md_docs (path_join rel name)) es
  | DFile name content => if is_md name then [(path_join rel name, content)] else []
  end.

Definition doc_keys (rel_path : string) : list string :=
  let np := normalize_path rel_path in
  [np; normalize_path (strip_md rel_path)] ++
  (if String.eqb (dirname np) "." then [] else [dirname np]).

(** Induction over directory trees with a hypothesis for every entry of a
    directory. *)
Fixpoint dirent_ind' (P : dirent -> Prop)
    (Hf : forall name content, P (DFile name content))
    (Hd : forall name es, Forall P es -> P (DDir name es)) (e : dirent) : P e :=
  match e with
  | DFile name content => Hf name content
  | DDir name es =>
      Hd name es
        ((fix go (es : list dirent) : Forall P es :=
            match es with
            | [] => Forall_nil P
            | e' :: es' => Forall_cons e' (dirent_ind' P Hf Hd e') (go es')
            end) es)
  end.

(** A text made of the given lines. *)
Definition text (ls : list string) : string := String.concat (String Str.nl "") ls.

Definition set_pair {V} (m : list (string * V)) (kv : string * V) : list (string * V) :=
  assoc_set m (fst kv) (snd kv).

(** The value the last write to [k] in a sequence of writes leaves. *)
Definition last_write {V} (k : string) (l : list (string * V)) : option V :=
  fold_left (fun acc kv => if String.eqb k (fst kv) then Some (snd kv) else acc) l None.

Section Registrations.
Context {YE : YamlEngine}.

(** The keys a document registers, each with its page identifier. *)
Definition doc_registrations (d : string * string) : list (string * yval) :=
  match parse_frontmatter (snd d) with
  | Some (f, _) =>
      match assoc_get f "connie-page-id" with
      | Some id => if truthy (Some id) then map (fun k => (k, id)) (doc_keys (fst d)) else []
      | None => []
      end
  | None => []
  end.

(** All registrations of a tree, in the order the documents are visited. *)
Definition registrations (root : list dirent) : list (string * yval) :=
  flat_map doc_registrations (md_docs "" (DDir "" root)).

End Registrations.

(* ------------------------------------------------------------------ *)
(** ** Frontmatter blocks that read back *)

Definition yval_eq_dec (x y : yval) : {x = y} + {x <> y}.
Proof. decide equality; auto using string_dec, Z.eq_dec, bool_dec. Defined.

Definition fm_eq_dec (x y : fm) : {x = y} + {x <> y}.
Proof. decide equality. decide equality; auto using string_dec, yval_eq_dec. Defined.

Section ReadsBack.
Context {YE : YamlEngine}.

(** [m] is a non-empty mapping whose dumped block, written by
    [matter.stringify], is found again by [matter] (it holds no ["\n---"]
    and is not blank once comments are removed) and parsed back to [m]. *)
Definition reads_back (m : fm) : bool :=
  let y := Str.trim (yaml_dump m) in
  negb (String.eqb y "{}")
  && match Str.index_of gm_close (String Str.nl y) with None => true | Some _ => false end
  && negb (String.eqb (Str.trim (strip_comments (String Str.nl y))) "")
  && match yaml_parse "yaml" (String Str.nl y) with
     | Some m' => if fm_eq_dec m' m then true else false
     | None => false
     end.

End ReadsBack.

(* ------------------------------------------------------------------ *)
(** ** Publish results: the [SUCCESS] line pattern *)

(** The characters JavaScript's [.] does not match (ASCII part). *)
Definition is_line_terminator (c : ascii) : bool := Ascii.eqb c Str.nl || Ascii.eqb c Str.cr.

Definition is_digit (c : ascii) : bool :=
  let n := nat_of_ascii c in (48 <=? n)%nat && (n <=? 57)%nat.

Section Lazy.
Context {A : Type}.

(** [.+?] followed by the rest of the pattern [k]: [k] receives the text
    consumed so far and the remaining input, shortest first. *)
Fixpoint lazy_plus_go (k : string -> string -> option A) (acc s : string) : option A :=
  match s with
  | EmptyString => None
  | String c s' =>
      if is_line_terminator c then None
      else let acc' := acc ++ String c "" in
           match k acc' s' with
           | Some r => Some r
           | None => lazy_plus_go k acc' s'
           end
  end.

Definition lazy_plus (k : string -> string -> option A) (s : string) : option A :=
  lazy_plus_go k "" s.

End Lazy.

Definition coreljira_spaces : string := "Page URL: https://coreljira.atlassian.net/wiki/spaces/".

(** A match of
    [/SUCCESS: (.+?) Content: .+?Page URL: https:\/\/coreljira\.atlassian\.net\/wiki\/spaces\/([^\/]+)\/pages\/(\d+)/]
    at the start of [s]: the path, the space key, the page id and the rest
    of the input.  [[^\/]+] is followed by ['/'] and [\d+] ends the
    pattern, so both runs are taken greedily without backtracking. *)
Definition success_at (s : string) : option (string * string * string * string) :=
  match Str.strip_prefix "SUCCESS: " s with
  | None => None
  | Some s1 =>
      lazy_plus (fun path r1 =>
        match Str.strip_prefix " Content: " r1 with
        | None => None
        | Some r2 =>
            lazy_plus (fun _ r3 =>
              match Str.strip_prefix coreljira_spaces r3 with
              | None => None
              | Some r4 =>
                  let (sk, r5) := span (not_char slash) r4 in
                  match sk, Str.strip_prefix "/pages/" r5 with
                  | String _ _, Some r6 =>
                      let (id, r7) := span is_digit r6 in
                      match id with
                      | EmptyString => None
                      | _ => Some (path, sk, id, r7)
                      end
                  | _, _ => None
                  end
              end) r2
        end) s1
  end.

(** The [while ((match = urlRegex.exec(output)) !== null)] loop: every
    match, leftmost first, scanning on after the end of the previous one. *)
Fixpoint success_matches_fuel (n : nat) (s : string) : list (string * string * string) :=
  match n with
  | O => []
  | S n' =>
      match s with
      | EmptyString => []
      | String _ s' =>
          match success_at s with
          | Some (p, sk, id, rest) => (p, sk, id) :: success_matches_fuel n' rest
          | None => success_matches_fuel n' s'
          end
      end
  end.

Definition success_matches (s : string) : list (string * string * string) :=
  success_matches_fuel (String.length s) s.

(* ------------------------------------------------------------------ *)
(** ** [updateOriginalFiles] *)

(** [a || b] for a frontmatter property read. *)
Definition or_default (v : option yval) (dflt : yval) : yval :=
  match v with
  | Some x => if truthy (Some x) then x else dflt
  | None => dflt
  end.

(** The maps read from ['command_output.txt'] ([None]: the file does not
    exist, [ENOENT]): [pageIdMap] from the normalized path without [.md]
    to the page id, [spaceKeyMap] from the page id to the space key. *)
Definition uof_maps (command_output : option string) : list (string * string) * list (string * string) :=
  match command_output with
  | None => ([], [])
  | Some out =>
      fold_left (fun acc m =>
        let '(pim, skm) := acc in
        let '(p, sk, id) := m in
        (assoc_set pim (normalize_path (strip_md p)) id, assoc_set skm id sk))
        (success_matches out) ([], [])
  end.

(** [newFrontmatter] of a document at [rel_file] named [name] whose
    frontmatter is [ex]. *)
Definition uof_new_frontmatter (pim skm : list (string * string)) (rel_file name : string)
    (ex : fm) : fm :=
  let id_part :=
    match assoc_get pim (normalize_path (strip_md rel_file)) with
    | Some pid =>
        if String.eqb pid "" then []
        else [("connie-page-id", YStr pid);
              ("connie-publish",
                 match assoc_get ex "connie-publish" with Some v => v | None => YBool true end);
              ("connie-space-key",
                 match assoc_get skm pid with
                 | Some sk => if String.eqb sk "" then or_default (assoc_get ex "connie-space-key") YNull
                              else YStr sk
                 | None => or_default (assoc_get ex "connie-space-key") YNull
                 end)]
    | None => []
    end in
  let nf := fold_left set_pair
              (ex ++ id_part ++
               [("connie-title", or_default (assoc_get ex "connie-title") (YStr (basename_md name)));
                ("connie-dont-change-parent-page",
                   or_default (assoc_get ex "connie-dont-change-parent-page") (YBool false))]) [] in
  if truthy (assoc_get ex "connie-blog-post-date") then
    let nf := assoc_set nf "connie-blog-post-date"
                (match assoc_get ex "connie-blog-post-date" with Some v => v | None => YNull end) in
    assoc_set nf "connie-content-type" (YStr "blogpost")
  else assoc_set nf "connie-content-type" (or_default (assoc_get ex "connie-content-type") (YStr "page")).

Section UpdateOriginal.
Context {YE : YamlEngine}.

(** The content written back for one markdown file. *)
Definition uof_file (pim skm : list (string * string)) (rel_file name content : string) : option string :=
  match parse_frontmatter content with
  | None => None
  | Some (ex, _) => update_frontmatter content (uof_new_frontmatter pim skm rel_file name ex)
  end.

(** [processDir] of [updateOriginalFiles]: the entry with its markdown
    files rewritten. *)
Fixpoint uof_entry (pim skm : list (string * string)) (rel : string) (e : dirent) {struct e}
    : option dirent :=
  match e with
  | DDir name es =>
      let rel' := path_join rel name in
      option_map (DDir name)
        ((fix go (es : list dirent) : option (list dirent) :=
            match es with
            | [] => Some []
            | e' :: es' =>
                match uof_entry pim skm rel' e' with
                | Some e'' => option_map (cons e'') (go es')
                | None => None
                end
            end) es)
  | DFile name content =>
      if is_md name
      then option_map (DFile name) (uof_file pim skm (path_join rel name) name content)
      else Some e
  end.

(** [updateOriginalFiles(dir, dir)]: the rewritten tree and the two maps. *)
Definition update_original_files (command_output : option string) (root : list dirent)
    : option (list dirent * list (string * string) * list (string * string)) :=
  let '(pim, skm) := uof_maps command_output in
  match uof_entry pim skm "" (DDir "" root) with
  | Some (DDir _ es) => Some (es, pim, skm)
  | _ => None
  end.

End UpdateOriginal.

(** The markdown files of a tree in visiting order: relative path, entry
    name and content. *)
Fixpoint md_entries (rel : string) (e : dirent) : list (string * string * string) :=
  match e with
  | DDir name es => flat_map (md_entries (path_join rel name)) es
  | DFile name content => if is_md name then [(path_join rel name, name, content)] else []
  end.

(* ------------------------------------------------------------------ *)
(** ** [JSON.stringify(value, null, 2)] and [JSON.parse] *)

Definition dquote : ascii := "034".

Definition hex_digit (n : nat) : ascii :=
  ascii_of_nat (if (n <? 10)%nat then 48 + n else 87 + n)%nat.

(** The escape [JSON.stringify] writes for one character (ASCII part). *)
Definition json_escape_char (c : ascii) : string :=
  let n := nat_of_ascii c in
  if Ascii.eqb c dquote then String backslash (String dquote "")
  else if Ascii.eqb c backslash then String backslash (String backslash "")
  else if (n =? 8)%nat then String backslash "b"
  else if (n =? 12)%nat then String backslash "f"
  else if (n =? 10)%nat then String backslash "n"
  else if (n =? 13)%nat then String backslash "r"
  else if (n =? 9)%nat then String backslash "t"
  else if (n <? 32)%nat then
    String backslash ("u00" ++ String (hex_digit (n / 16)) (String (hex_digit (n mod 16)) ""))
  else String c "".

Fixpoint json_escape (s : string) : string :=
  match s with
  | EmptyString => ""
  | String c s' => json_escape_char c ++ json_escape s'
  end.

Definition json_quote (s : string) : string :=
  String dquote (json_escape s ++ String dquote "").

Definition nl_str : string := String Str.nl "".

(** [SerializeJSONProperty] with the gap ["  "]; [ind] is the current
    indentation. *)
Fixpoint json_str (ind : string) (v : json) : string :=
  match v with
  | JNull => "null"
  | JBool b => if b then "true" else "false"
  | JNum z => z_to_string z
  | JStr s => json_quote s
  | JArr l =>
      match l with
      | [] => "[]"
      | _ =>
          let ind' := ind ++ "  " in
          "[" ++ nl_str
          ++ String.concat ("," ++ nl_str) (map (fun x => ind' ++ json_str ind' x) l)
          ++ nl_str ++ ind ++ "]"
      end
  | JObj o =>
      match o with
      | [] => "{}"
      | _ =>
          let ind' := ind ++ "  " in
          "{" ++ nl_str
          ++ String.concat ("," ++ nl_str)
               (map (fun kv => ind' ++ json_quote (fst kv) ++ ": " ++ json_str ind' (snd kv)) o)
          ++ nl_str ++ ind ++ "}"
      end
  end.

(** [JSON.stringify(v, null, 2)] (object keys in insertion order; keys that
    look like array indices, which JavaScript lists first, are not used by
    the configuration). *)
Definition json_stringify (v : json) : string := json_str "" v.

(** [JSON.parse], a builtin of the runtime: [None] when it throws. *)
Class JsonParser := { json_parse : string -> option json }.

(** A JSON reader used to run the development on concrete files: objects,
    arrays, strings without escapes, integers, booleans and [null]; a
    repeated key keeps its first position and its last value, as in
    [JSON.parse]. *)
Module MiniJson.

Definition is_json_ws (c : ascii) : bool :=
  let n := nat_of_ascii c in (n =? 32)%nat || (n =? 9)%nat || (n =? 10)%nat || (n =? 13)%nat.

Fixpoint skip_ws (s : string) : string :=
  match s with
  | String c s' => if is_json_ws c then skip_ws s' else s
  | EmptyString => EmptyString
  end.

(** The characters of a string literal up to its closing quote. *)
Fixpoint parse_str (s : string) : option (string * string) :=
  match s with
  | EmptyString => None
  | String c s' =>
      if Ascii.eqb c dquote then Some ("", s')
      else if Ascii.eqb c backslash || (nat_of_ascii c <? 32)%nat then None
      else option_map (fun p => (String c (fst p), snd p)) (parse_str s')
  end.

Definition parse_int (s : string) : option (json * string) :=
  let neg := first_is "-" s in
  let s := if neg then str_drop 1 s else s in
  let (ds, r) := span is_digit s in
  match ds with
  | EmptyString => None
  | _ => let z := MiniYaml.digits_value ds 0 in Some (JNum (if neg then Z.opp z else z), r)
  end.

Fixpoint parse_value (n : nat) (s : string) {struct n} : option (json * string) :=
  match n with
  | O => None
  | S n' =>
      let s := skip_ws s in
      match s with
      | EmptyString => None
      | String c s1 =>
          if Ascii.eqb c "{" then
            if first_is "}" (skip_ws s1) then Some (JObj [], str_drop 1 (skip_ws s1))
            else option_map (fun p => (JObj (fst p), snd p)) (parse_members n' s1 [])
          else if Ascii.eqb c "[" then
            if first_is "]" (skip_ws s1) then Some (JArr [], str_drop 1 (skip_ws s1))
            else option_map (fun p => (JArr (fst p), snd p)) (parse_elements n' s1 [])
          else if Ascii.eqb c dquote then option_map (fun p => (JStr (fst p), snd p)) (parse_str s1)
          else if Str.starts_with "true" s then Some (JBool true, str_drop 4 s)
          else if Str.starts_with "false" s then Some (JBool false, str_drop 5 s)
          else if Str.starts_with "null" s then Some (JNull, str_drop 4 s)
          else parse_int s
      end
  end
with parse_members (n : nat) (s : string) (acc : list (string * json)) {struct n}
    : option (list (string * json) * string) :=
  match n with
  | O => None
  | S n' =>
      let s := skip_ws s in
      if negb (first_is dquote s) then None else
      match parse_str (str_drop 1 s) with
      | None => None
      | Some (k, r) =>
          let r := skip_ws r in
          if negb (first_is ":" r) then None else
          match parse_value n' (str_drop 1 r) with
          | None => None
          | Some (v, r) =>
              let acc := assoc_set acc k v in
              let r := skip_ws r in
              if first_is "," r then parse_members n' (str_drop 1 r) acc
              else if first_is "}" r then Some (acc, str_drop 1 r)
              else None
          end
      end
  end
with parse_elements (n : nat) (s : string) (acc : list json) {struct n}
    : option (list json * string) :=
  match n with
  | O => None
  | S n' =>
      match parse_value n' s with
      | None => None
      | Some (v, r) =>
          let acc := (acc ++ [v])%list in
          let r := skip_ws r in
          if first_is "," r then parse_elements n' (str_drop 1 r) acc
          else if first_is "]" r then Some (acc, str_drop 1 r)
          else None
      end
  end.

Definition parse (s : string) : option json :=
  match parse_value (S (String.length s)) s with
  | Some (v, r) => if String.eqb (skip_ws r) "" then Some v else None
  | None => None
  end.

#[export] Instance parser : JsonParser := { json_parse := parse }.

End MiniJson.

(* ------------------------------------------------------------------ *)
(** ** [updatePageIds] *)

(** [pageIdMap] of [updatePageIds]: raw relative path to [{pageId, spaceKey}]. *)
Definition page_info_map (output : string) : list (string * (string * string)) :=
  fold_left (fun m x => let '(p, sk, id) := x in assoc_set m p (id, sk))
    (success_matches output) [].

(** [!t || t.trim() === ''] for the title read from the frontmatter;
    [None]: [trim] is not a method of the value (TypeError). *)
Definition title_blank (v : option yval) : option bool :=
  if negb (truthy v) then Some true
  else match v with
       | Some (YStr s) => Some (String.eqb (Str.trim s) "")
       | _ => None
       end.

Section UpdatePageIds.
Context {YE : YamlEngine}.

(** [processFile]: whether page info was found, and the file's content
    afterwards; [None] when it throws. *)
Definition upi_file (pim : list (string * (string * string))) (rel_path name content : string)
    : option (bool * string) :=
  match parse_frontmatter content with
  | None => None
  | Some (ex, rest) =>
      match assoc_get pim rel_path with
      | None => Some (false, content)
      | Some (pid, sk) =>
          let nf := spread [] ex in
          let nf := assoc_set nf "connie-page-id" (YStr pid) in
          let nf := assoc_set nf "connie-publish" (YBool true) in
          let nf := assoc_set nf "connie-space-key" (YStr sk) in
          let nf := assoc_set nf "connie-dont-change-parent-page" (YBool false) in
          match title_blank (assoc_get nf "connie-title") with
          | None => None
          | Some blank =>
              let nf := if blank then assoc_set nf "connie-title" (YStr (basename_md name)) else nf in
              option_map (fun c => (true, c)) (update_frontmatter rest nf)
          end
      end
  end.

(** [processDir]: whether some file got page info, and the entry afterwards. *)
Fixpoint upi_entry (pim : list (string * (string * string))) (rel : string) (e : dirent)
    {struct e} : option (bool * dirent) :=
  match e with
  | DDir name es =>
      let rel' := path_join rel name in
      option_map (fun p => (fst p, DDir name (snd p)))
        ((fix go (es : list dirent) : option (bool * list dirent) :=
            match es with
            | [] => Some (false, [])
            | e' :: es' =>
                match upi_entry pim rel' e' with
                | Some (b, e'') => option_map (fun p => (b || fst p, e'' :: snd p)) (go es')
                | None => None
                end
            end) es)
  | DFile name content =>
      if is_md name
      then option_map (fun p => (fst p, DFile name (snd p))) (upi_file pim (path_join rel name) name content)
      else Some (false, e)
  end.

(** [updatePageIds(docsFolder, output)]: [hasNewIds] and the docs folder
    afterwards. *)
Definition update_page_ids (output : string) (root : list dirent) : option (bool * list dirent) :=
  match upi_entry (page_info_map output) "" (DDir "" root) with
  | Some (b, DDir _ es) => Some (b, es)
  | _ => None
  end.

End UpdatePageIds.

(** Whether [pageIdMap.get(relativePath)] finds an entry for a markdown
    file of [md_entries]. *)
Definition has_page_info (pim : list (string * (string * string))) (x : string * string * string) : bool :=
  let '(p, _, _) := x in assoc_has pim p.


(** The value [config] holds: what [JSON.parse] returned, with the
    properties the code added.  An array keeps its items and its named
    properties apart; a string, number or boolean is a primitive. *)
Inductive jsval :=
| VObj (o : config)
| VArr (items : list json) (props : config)
| VPrim (v : json)
| VNull.

Definition jsval_of_json (v : json) : jsval :=
  match v with
  | JObj o => VObj o
  | JArr l => VArr l []
  | JNull => VNull
  | _ => VPrim v
  end.

(** [c[k]] for a key that is not an array index nor ["length"] (the keys
    the code reads): [None] when it throws (on [null]), else the value,
    [None] inside for undefined. *)
Definition prop_get (c : jsval) (k : string) : option (option json) :=
  match c with
  | VObj o => Some (assoc_get o k)
  | VArr _ p => Some (assoc_get p k)
  | VPrim _ => Some None
  | VNull => None
  end.

(** The decimal writing of a number. *)
Fixpoint nat_digits (fuel n : nat) (acc : string) : string :=
  match fuel with
  | O => acc
  | S f =>
      let acc' := String (ascii_of_nat (48 + n mod 10)) acc in
      if (n <? 10)%nat then acc' else nat_digits f (n / 10) acc'
  end.

Definition nat_to_string (n : nat) : string := nat_digits (S n) n "".

(** The entries [{...l}] copies from the items of an array or the
    characters of a string: keys ["0"], ["1"], ... *)
Definition indexed {A} (l : list A) : list (string * A) :=
  combine (map nat_to_string (seq 0 (List.length l))) l.

(** The own enumerable properties [{...c}] copies, in order. *)
Definition own_props (c : jsval) : config :=
  match c with
  | VObj o => o
  | VArr l p => (indexed l ++ p)%list
  | VPrim (JStr s) => indexed (map (fun ch => JStr (String ch "")) (list_ascii_of_string s))
  | VPrim _ | VNull => []
  end.

(** [String(v)] (a template literal, or [join] on the arguments of a log
    line) throws for a value [JSON.parse] returned when it is an object
    with an own [toString] property (a JSON value, which is not callable,
    while [valueOf] gives back the object), or an array with such an item
    at any depth ([join] converts the items with [String], and writes
    [null] as empty text). *)
Fixpoint json_string_throws (v : json) : bool :=
  match v with
  | JObj o => existsb (fun kv => String.eqb (fst kv) "toString") o
  | JArr l =>
      (fix go (l : list json) : bool :=
         match l with [] => false | x :: l' => json_string_throws x || go l' end) l
  | _ => false
  end.

(** The same for a property read ([None]: undefined, written as empty text). *)
Definition json_opt_throws (v : option json) : bool :=
  match v with Some v => json_string_throws v | None => false end.

(* ------------------------------------------------------------------ *)
(** ** [publishToConfluence] *)

Definition FIXED_REFS_DIR : string := "docs-fixed-references".

(** The files the run touches: the text of [.markdown-confluence.json]
    ([None]: missing), the rest of the docs folder, and whether
    [cli-executor.js] is present next to the publisher. *)
Record fsys := mk_fsys {
  config_file : option string;
  docs : list dirent;
  script_present : bool
}.

Definition set_config (s : fsys) (t : string) : fsys :=
  mk_fsys (Some t) (docs s) (script_present s).

Definition set_docs (s : fsys) (d : list dirent) : fsys :=
  mk_fsys (config_file s) d (script_present s).

Definition dirent_name (e : dirent) : string :=
  match e with DFile n _ => n | DDir n _ => n end.

(** [fs.existsSync(fixedFolder)] *)
Definition mirror_exists (s : fsys) : bool :=
  existsb (fun e => String.eqb (dirent_name e) FIXED_REFS_DIR) (docs s).

(** [fs.rmSync(fixedFolder, { recursive: true, force: true })] when it succeeds. *)
Definition remove_mirror (s : fsys) : fsys :=
  set_docs s (filter (fun e => negb (String.eqb (dirent_name e) FIXED_REFS_DIR)) (docs s)).

(** What the run does outside this module: the [n]-th [execSync] of
    [cli-executor.js] (the files afterwards and its standard output,
    [None] when the process fails), [processReferences(docsFolder)] (the
    files afterwards and whether it completed), whether [fs.rmSync] of
    the mirror throws, and whether [process.env.DEBUG] is set (not empty),
    which makes [logger.debug] format its arguments. *)
Record env := mk_env {
  exec_publish : nat -> fsys -> fsys * option string;
  process_references : fsys -> fsys * bool;
  rm_fails : bool;
  debug_on : bool
}.

(** The external steps the run reaches, in order. *)
Inductive step :=
| SFirstPublish
| SUpdatePageIds
| SProcessReferences
| SSecondPublish.

Inductive outcome :=
| Done
| Failed.

Section Publish.
Context {YE : YamlEngine} {JP : JsonParser}.

(** Lines 79-101: read and parse the configuration, add the ignore
    patterns and log them; [None] when this throws (before the [try]).
    On [null] reading [config.ignore] throws; on a string, number or
    boolean [config.ignore = []] does not stick (or throws) and
    [config.ignore.includes] throws.  An array goes on: [config.ignore]
    becomes a named property of it.  With [DEBUG] set, [logger.debug]
    joins its arguments, which converts [config.ignore] to a string. *)
Definition prepare_config (debug : bool) (s : fsys) : option jsval :=
  match config_file s with
  | None => None
  | Some t =>
      let added :=
        match json_parse t with
        | Some (JObj cfg) => option_map VObj (add_ignore_patterns cfg)
        | Some (JArr l) => option_map (VArr l) (add_ignore_patterns [])
        | _ => None
        end in
      match added with
      | Some c =>
          if debug && match prop_get c "ignore" with Some v => json_opt_throws v | None => false end
          then None else Some c
      | None => None
      end
  end.

(** Lines 120-121: the configuration written for the run, with
    [contentRoot] set to the mirror; [JSON.stringify] writes the items of
    an array, not its named properties. *)
Definition run_config_text (docs_folder : string) (c : jsval) : string :=
  let root := JStr (path_join2 docs_folder FIXED_REFS_DIR) in
  match c with
  | VObj cfg => json_stringify (JObj (assoc_set cfg "contentRoot" root))
  | VArr l _ => json_stringify (JArr l)
  | VPrim v => json_stringify v
  | VNull => json_stringify JNull
  end.

(** The body of the [try] block (lines 115-192). *)
Definition publish_try (E : env) (docs_folder : string) (cfg : jsval) (s : fsys)
    : fsys * list step * outcome :=
  let s := set_config s (run_config_text docs_folder cfg) in
  if negb (mirror_exists s) then (s, [], Failed)
  else if negb (script_present s) then (s, [], Failed)
  else
    let '(s, out) := exec_publish E 0 s in
    match out with
    | None => (s, [SFirstPublish], Failed)
    | Some out =>
        match update_page_ids out (docs s) with
        | None => (s, [SFirstPublish; SUpdatePageIds], Failed)
        | Some (false, d) => (set_docs s d, [SFirstPublish; SUpdatePageIds], Done)
        | Some (true, d) =>
            let s := set_docs s d in
            if mirror_exists s && rm_fails E then (s, [SFirstPublish; SUpdatePageIds], Failed)
            else
              let s := if mirror_exists s then remove_mirror s else s in
              let '(s, ok) := process_references E s in
              if negb ok then (s, [SFirstPublish; SUpdatePageIds; SProcessReferences], Failed)
              else
                let '(s, out2) := exec_publish E 1 s in
                (s, [SFirstPublish; SUpdatePageIds; SProcessReferences; SSecondPublish],
                 match out2 with Some _ => Done | None => Failed end)
        end
    end.

(** The [finally] block (lines 196-210). *)
Definition publish_finally (E : env) (original : config) (s : fsys) : fsys :=
  let s := set_config s (json_stringify (JObj original)) in
  if mirror_exists s then (if rm_fails E then s else remove_mirror s) else s.

(** [publishToConfluence(docsFolder)]: the files afterwards, the external
    steps reached and whether the call resolves or rejects. *)
Definition publish_to_confluence (E : env) (docs_folder : string) (s : fsys)
    : fsys * list step * outcome :=
  match prepare_config (debug_on E) s with
  | None => (s, [], Failed)
  | Some cfg =>
      let original := spread [] (own_props cfg) in
      let '(s1, tr, r) := publish_try E docs_folder cfg s in
      (publish_finally E original s1, tr, r)
  end.

End Publish.

(* ------------------------------------------------------------------ *)
(** ** [copyDir] *)

(** The first entry of a directory listing named [n]. *)
Fixpoint find_entry (n : string) (es : list dirent) : option dirent :=
  match es with
  | [] => None
  | e :: es' => if String.eqb (dirent_name e) n then Some e else find_entry n es'
  end.

(** The listing with its first entry named [n] replaced by [e']. *)
Fixpoint replace_entry (n : string) (e' : dirent) (es : list dirent) : list dirent :=
  match es with
  | [] => []
  | e :: es' => if String.eqb (dirent_name e) n then e' :: es' else e :: replace_entry n e' es'
  end.

Section CopyDir.
(** [excludePath], relative to the copied root. *)
Variable exclude : string.

(** [copyDir(srcPath, destPath, excludePath)] for the source entry [e]
    (at [rel] under the copied root) into the destination listing [dest];
    [None] when the file system refuses (a file copied onto a directory, or
    a directory with something to copy onto a file).  An entry created in
    [dest] is listed after the existing ones. *)
Fixpoint copy_entry (rel : string) (e : dirent) (dest : list dirent) {struct e}
    : option (list dirent) :=
  match e with
  | DFile n c =>
      match find_entry n dest with
      | None => Some (dest ++ [DFile n c])%list
      | Some (DFile _ _) => Some (replace_entry n (DFile n c) dest)
      | Some (DDir _ _) => None
      end
  | DDir n es =>
      let rel' := path_join rel n in
      let copy_children :=
        fix go (es : list dirent) (d : list dirent) : option (list dirent) :=
          match es with
          | [] => Some d
          | e' :: es' =>
              if String.eqb (path_join rel' (dirent_name e')) exclude then go es' d
              else match copy_entry rel' e' d with
                   | Some d' => go es' d'
                   | None => None
                   end
          end in
      match find_entry n dest with
      | None => option_map (fun d => (dest ++ [DDir n d])%list) (copy_children es [])
      | Some (DDir _ d0) => option_map (fun d => replace_entry n (DDir n d) dest) (copy_children es d0)
      | Some (DFile _ _) =>
          if existsb (fun e' => negb (String.eqb (path_join rel' (dirent_name e')) exclude)) es
          then None else Some dest
      end
  end.

(** The loop of [copyDir] over a source listing [es] at [rel]. *)
Fixpoint copy_list (rel : string) (es : list dirent) (d : list dirent) : option (list dirent) :=
  match es with
  | [] => Some d
  | e :: es' =>
      if String.eqb (path_join rel (dirent_name e)) exclude then copy_list rel es' d
      else match copy_entry rel e d with
           | Some d' => copy_list rel es' d'
           | None => None
           end
  end.

End CopyDir.

(** [copyDir(folder, folder/docs-fixed-references, folder/docs-fixed-references)]
    on the listing of [folder]: the listing afterwards. The mirror is
    created first when missing, so the listing that is copied holds it. *)
Definition copy_dir (root : list dirent) : option (list dirent) :=
  let root1 := if existsb (fun e => String.eqb (dirent_name e) FIXED_REFS_DIR) root then root
               else (root ++ [DDir FIXED_REFS_DIR []])%list in
  match find_entry FIXED_REFS_DIR root1 with
  | Some (DDir _ m) =>
      option_map (fun m' => replace_entry FIXED_REFS_DIR (DDir FIXED_REFS_DIR m') root1)
        (copy_list FIXED_REFS_DIR "" root1 m)
  | Some (DFile _ _) =>
      if existsb (fun e => negb (String.eqb (path_join "" (dirent_name e)) FIXED_REFS_DIR)) root1
      then None else Some root1
  | None => None
  end.

(** The content of the file at the path [p] (names from the root). *)
Fixpoint lookup_file (es : list dirent) (p : list string) : option string :=
  match p with
  | [] => None
  | [n] => match find_entry n es with Some (DFile _ c) => Some c | _ => None end
  | n :: p' => match find_entry n es with Some (DDir _ es') => lookup_file es' p' | _ => None end
  end.

(** A directory tree as a file system lists it: every name is non-empty
    and unique in its directory. *)
Fixpoint wf_dirent (e : dirent) : Prop :=
  match e with
  | DFile n _ => n <> ""
  | DDir n es =>
      n <> "" /\ NoDup (map dirent_name es) /\
      (fix all (es : list dirent) : Prop :=
         match es with [] => True | e' :: es' => wf_dirent e' /\ all es' end) es
  end.

(** The entries of a listing other than the mirror. *)
Definition not_mirror (e : dirent) : bool := negb (String.eqb (dirent_name e) FIXED_REFS_DIR).

(** The mirror's listing ([[]] when it is missing or not a directory). *)
Definition mirror_of (root : list dirent) : list dirent :=
  match find_entry FIXED_REFS_DIR root with Some (DDir _ m) => m | _ => [] end.

(* ------------------------------------------------------------------ *)
(** ** [processReferences] *)

(** Lines 262-267: [pageMap] with the identifiers [updateOriginalFiles]
    found added for the paths it does not hold yet. *)
Definition merge_page_ids (pm : page_map) (pim : list (string * string)) : page_map :=
  fold_left (fun m pid => if assoc_has m (fst pid) then m else assoc_set m (fst pid) (YStr (snd pid)))
    pim pm.

Section ProcessReferences.
Context {YE : YamlEngine}.

(** [processMarkdownFiles(dir)] for the entry [e] at [rel] under the
    mirror: the entry with every markdown file rewritten by
    [fixReferences]; [None] when this throws. *)
Fixpoint pmf_entry (pm : page_map) (skm : space_key_map) (cfg : config) (rel : string) (e : dirent)
    {struct e} : option dirent :=
  match e with
  | DDir name es =>
      let rel' := path_join rel name in
      option_map (DDir name)
        ((fix go (es : list dirent) : option (list dirent) :=
            match es with
            | [] => Some []
            | e' :: es' =>
                match pmf_entry pm skm cfg rel' e' with
                | Some e'' => option_map (cons e'') (go es')
                | None => None
                end
            end) es)
  | DFile name content =>
      if is_md name
      then option_map (DFile name) (fix_references content pm (path_join rel name) skm cfg)
      else Some e
  end.

(** [processReferences(baseFolder)] on the listing [root] of the folder
    to publish, with [cfg] the configuration [getUserConfig] read and
    [command_output] the content of [command_output.txt] ([None] when it
    is missing): the listing afterwards, [None] when it throws. *)
Definition process_references_dir (cfg : config) (command_output : option string) (root : list dirent)
    : option (list dirent) :=
  match copy_dir root with
  | None => None
  | Some root1 =>
      match find_entry FIXED_REFS_DIR root1 with
      | Some (DDir _ m) =>
          match build_page_id_map m with
          | None => None
          | Some page_map0 =>
              match update_original_files command_output m with
              | None => None
              | Some (m1, pim, skm) =>
                  match pmf_entry (merge_page_ids page_map0 pim) skm cfg "" (DDir "" m1) with
                  | Some (DDir _ m2) => Some (replace_entry FIXED_REFS_DIR (DDir FIXED_REFS_DIR m2) root1)
                  | _ => None
                  end
              end
          end
      | _ => None
      end
  end.

End ProcessReferences.

(* ------------------------------------------------------------------ *)
(** ** The configuration of the CLI ([cli.js]) *)

(** [process.env]: variable names to their (string) values. *)
Definition env_t := list (string * string).

Definition REQUIRED_CONFIG_KEYS : list string :=
  ["confluenceBaseUrl"; "confluenceSpaceKey"; "confluenceParentId"; "atlassianUserName";
   "atlassianApiToken"].

(** [envMapping], in the order [Object.entries] lists it. *)
Definition envMapping : list (string * list string) :=
  [("confluenceBaseUrl", ["CONFLUENCE_BASE_URL"; "CONNIE_BASE_URL"]);
   ("atlassianUserName", ["ATLASSIAN_USER_NAME"; "CONNIE_USER"]);
   ("confluenceSpaceKey", ["CONFLUENCE_SPACE_KEY"; "CONNIE_SPACE"]);
   ("confluenceParentId", ["CONFLUENCE_PARENT_ID"; "CONNIE_PARENT"]);
   ("atlassianApiToken", ["CONFLUENCE_API_TOKEN"; "CONNIE_API_TOKEN"])].

(** [c[k] = v] in strict mode (an ES module): a TypeError on a primitive
    or on [null]. *)
Definition prop_set (c : jsval) (k : string) (v : json) : option jsval :=
  match c with
  | VObj o => Some (VObj (assoc_set o k v))
  | VArr l p => Some (VArr l (assoc_set p k v))
  | VPrim _ | VNull => None
  end.

(** [process.env[k]] is truthy: set and not empty. *)
Definition env_value (env : env_t) (k : string) : option string :=
  match assoc_get env k with
  | Some s => if String.eqb s "" then None else Some s
  | None => None
  end.

(** The inner loop of [loadConfig]: the first variable of [eks] that is set. *)
Fixpoint first_env (env : env_t) (eks : list string) : option string :=
  match eks with
  | [] => None
  | k :: eks' => match env_value env k with Some s => Some s | None => first_env env eks' end
  end.

(** [process.env.DEBUG] is set and not empty: [logger.debug] then joins
    its arguments into one line. *)
Definition debug_set (env : env_t) : bool :=
  match env_value env "DEBUG" with Some _ => true | None => false end.

(** One step of the outer loop of [loadConfig]; line 63 logs the current
    value of the key first. *)
Definition fill_from_env (env : env_t) (c : jsval) (m : string * list string) : option jsval :=
  let (k, eks) := m in
  match prop_get c k with
  | None => None
  | Some v =>
      if debug_set env && json_opt_throws v then None
      else if json_falsy v then
        match first_env env eks with
        | Some s => prop_set c k (JStr s)
        | None => Some c
        end
      else Some c
  end.

Section Cli.
Context {JP : JsonParser}.

(** [config] before the environment is read: [{}] when the file is
    missing, unreadable or not JSON. *)
Definition initial_config (file : option string) : jsval :=
  match file with
  | None => VObj []
  | Some txt => match json_parse txt with Some v => jsval_of_json v | None => VObj [] end
  end.

(** [loadConfig(configPath)]; [None] when it throws. *)
Definition load_config (file : option string) (env : env_t) : option jsval :=
  fold_left (fun acc m => match acc with Some c => fill_from_env env c m | None => None end)
    envMapping (Some (initial_config file)).

End Cli.

(** [v || d] for a property read. *)
Definition or_json (v : option json) (d : json) : json :=
  match v with
  | Some x => if json_falsy (Some x) then d else x
  | None => d
  end.

(** Lines 136-143 of [ensureConfig]: the defaults of the optional fields. *)
Definition config_defaults (nc : config) : config :=
  spread nc [("folderToPublish", or_json (assoc_get nc "folderToPublish") (JStr "."));
             ("mermaid", or_json (assoc_get nc "mermaid")
                           (JObj [("theme", JStr "default"); ("padding", JNum 5)]))].

Section Ensure.
Context {JP : JsonParser}.

(** [ensureConfig(configPath)]: the object it saves (when it saves one)
    and the configuration it returns; [None] when it throws.  [ask k] is
    the answer typed at the prompt for [k] and [confirm] the answer to the
    question whether to save. *)
Definition ensure_config (file : option string) (env : env_t) (ask : string -> string)
    (confirm : bool) : option (option config * config) :=
  match load_config file env with
  | None | Some VNull => None
  | Some ex =>
      let missing := filter (fun k => match prop_get ex k with Some v => json_falsy v | None => true end)
                       REQUIRED_CONFIG_KEYS in
      match missing with
      | [] => Some (None, config_defaults (spread [] (own_props ex)))
      | _ :: _ =>
          let answers := map (fun k => (k, JStr (ask k))) missing in
          let nc := spread (own_props ex) answers in
          Some (if confirm then Some nc else None, config_defaults nc)
      end
  end.

End Ensure.

(* ------------------------------------------------------------------ *)
(** ** The environment of the publisher ([cli-executor.js]) *)

(** [if (env.A) { env.B1 = env.A; ... }] *)
Definition copy_if_set (a : string) (bs : list string) (env : env_t) : env_t :=
  match env_value env a with
  | Some v => fold_left (fun e b => assoc_set e b v) bs env
  | None => env
  end.

(** Lines 21-44: the environment passed to [@markdown-confluence/cli]. *)
Definition executor_env (penv : env_t) : env_t :=
  let env := spread [] penv in
  let env := copy_if_set "CONFLUENCE_API_TOKEN"
               ["MARKDOWN_CONFLUENCE_TOKEN"; "CONFLUENCE_TOKEN"; "ATLASSIAN_API_TOKEN"] env in
  let env := copy_if_set "CONNIE_API_TOKEN"
               ["MARKDOWN_CONFLUENCE_TOKEN"; "CONFLUENCE_TOKEN"; "ATLASSIAN_API_TOKEN"] env in
  let env := copy_if_set "ATLASSIAN_USER_NAME"
               ["MARKDOWN_CONFLUENCE_USERNAME"; "CONFLUENCE_USERNAME"] env in
  copy_if_set "CONNIE_USER" ["MARKDOWN_CONFLUENCE_USERNAME"; "CONFLUENCE_USERNAME"] env.

(* ------------------------------------------------------------------ *)
(** ** The configuration check of the publisher ([src/unnamed/part_004]) *)

Definition REQUIRED_KEYS : list string :=
  ["confluenceBaseUrl"; "confluenceSpaceKey"; "confluenceParentId"; "atlassianUserName";
   "atlassianApiToken"].

(** [ENV_MAPPING], in the order [Object.entries] lists it. *)
Definition ENV_MAPPING : list (string * list string) :=
  [("confluenceBaseUrl", ["CONFLUENCE_BASE_URL"; "CONNIE_BASE_URL"]);
   ("atlassianUserName", ["ATLASSIAN_USER_NAME"; "CONNIE_USER"; "MARKDOWN_CONFLUENCE_USERNAME";
                          "CONFLUENCE_USERNAME"]);
   ("confluenceSpaceKey", ["CONFLUENCE_SPACE_KEY"; "CONNIE_SPACE"]);
   ("confluenceParentId", ["CONFLUENCE_PARENT_ID"; "CONNIE_PARENT"]);
   ("atlassianApiToken", ["CONFLUENCE_API_TOKEN"; "CONNIE_API_TOKEN"; "MARKDOWN_CONFLUENCE_TOKEN";
                          "CONFLUENCE_TOKEN"; "ATLASSIAN_API_TOKEN"])].

(** [ENV_MAPPING[key] || []] *)
Definition env_vars_of (key : string) : list string :=
  match assoc_get ENV_MAPPING key with Some l => l | None => [] end.

(** [envVars.find(envVar => process.env[envVar])] *)
Definition first_set (penv : env_t) (vars : list string) : option string :=
  find (fun v => match env_value penv v with Some _ => true | None => false end) vars.

(** [configStatus[key]] *)
Record config_status := mk_status {
  in_json : bool;
  json_value : option json;
  in_env : bool;
  env_var : option string;
  status_env_value : option string
}.

(** The body of the loop of [checkConfiguration] for [key]; [None] when
    it throws (reading a property of [null]). *)
Definition key_status (json_config : jsval) (penv : env_t) (key : string) : option config_status :=
  let env_vars := env_vars_of key in
  let ev := first_set penv env_vars in
  match prop_get json_config key with
  | None => None
  | Some jv =>
      Some (mk_status (negb (json_falsy jv)) jv
              (match ev with Some _ => true | None => false end)
              (match ev with Some _ => first_set penv env_vars | None => None end)
              (match ev with Some n => assoc_get penv n | None => None end))
  end.

(** The logging loop of [checkConfiguration] (lines 76-81) builds
    [`(${status.jsonValue})`] for every key present in the file, whatever
    [DEBUG] is: it goes through when none of these values throws. *)
Definition status_logs (status : list (string * config_status)) : bool :=
  forallb (fun ks => negb (in_json (snd ks) && json_opt_throws (json_value (snd ks)))) status.

(** [checkConfiguration()] on the parsed configuration: [configStatus],
    or [None] when it throws or calls [process.exit(1)]. *)
Definition check_configuration (json_config : jsval) (penv : env_t)
    : option (list (string * config_status)) :=
  let step acc key :=
    match acc with
    | None => None
    | Some (missing, status) =>
        match key_status json_config penv key with
        | None => None
        | Some s =>
            let ev := first_set penv (env_vars_of key) in
            let missing' :=
              if json_falsy (json_value s) && match ev with Some _ => false | None => true end
              then (missing ++ [key])%list else missing in
            Some (missing', assoc_set status key s)
        end
    end in
  match fold_left step REQUIRED_KEYS (Some ([], [])) with
  | Some (missing, status) =>
      if negb (status_logs status) then None
      else match missing with [] => Some status | _ => None end
  | None => None
  end.

(** [status.envValue || status.jsonValue] *)
Definition status_value (s : config_status) : option json :=
  let e := option_map JStr (status_env_value s) in
  if json_falsy e then json_value s else e.

(** One step of the loop that maps the values to the environment. *)
Definition map_status (env : list (string * json)) (ks : string * config_status) : list (string * json) :=
  let env_vars := env_vars_of (fst ks) in
  match status_value (snd ks) with
  | Some value =>
      if json_falsy (Some value) then env
      else fold_left (fun e v => assoc_set e v value) env_vars env
  | None => env
  end.

(** [env] after the loop over [Object.entries(configStatus)]. *)
Definition checked_env (penv : env_t) (status : list (string * config_status)) : list (string * json) :=
  fold_left map_status status (map (fun kv => (fst kv, JStr (snd kv))) (spread [] penv)).

Section CheckedRun.
Context {JP : JsonParser}.

(** The top level of the module up to the [spawn]: the environment it
    passes to the CLI, or [None] when the process stops before. *)
Definition checked_publisher_env (file : option string) (penv : env_t) : option (list (string * json)) :=
  match check_configuration (initial_config file) penv with
  | Some status => Some (checked_env penv status)
  | None => None
  end.

End CheckedRun.

(* ------------------------------------------------------------------ *)
(** ** Vocabulary of the properties *)

(** The text [replace_links f] writes for one token. *)
Definition piece (f : string -> string -> string) (tk : token) : string :=
  match tk with TChar c => String c "" | TLink t u => f t u end.

(** A string made of dashes only. *)
Definition all_dashes (p : string) : bool := forallb (Ascii.eqb "-") (list_ascii_of_string p).

(** The keys [updateOriginalFiles] always sets, and the keys it sets from
    the page-id map. *)
Definition uof_default_keys : list string :=
  ["connie-title"; "connie-dont-change-parent-page"; "connie-content-type"].

Definition uof_id_keys : list string := ["connie-page-id"; "connie-publish"; "connie-space-key"].

(** [s] holds no character [d]. *)
Fixpoint no_char (d : ascii) (s : string) : bool :=
  match s with
  | EmptyString => true
  | String c s' => not_char d c && no_char d s'
  end.

(** A link token the pattern can match: a non-empty text without [']']
    and a non-empty url without [')']. *)
Definition wf_token (tk : token) : bool :=
  match tk with
  | TChar _ => true
  | TLink t u => negb (String.eqb t "") && no_char "]" t && negb (String.eqb u "") && no_char ")" u
  end.

(** A link token with its url replaced by [g url]. *)
Definition retarget (g : string -> string) (tk : token) : token :=
  match tk with
  | TChar c => TChar c
  | TLink t u => TLink t (g u)
  end.

(** The url [fix_link] writes for a link to [url]. *)
Definition fix_url (pm : page_map) (base_dir : string) (skm : space_key_map) (cfg : config)
    (url : string) : string :=
  if is_remote url then url
  else match find_page pm (path_variations base_dir url) with
       | Some pid =>
           if truthy (Some pid) then confluence_url cfg (space_key_for skm cfg pid) pid else url
       | None => url
       end.

(** What one SUCCESS line yields: a path of one line, a space key with no
    slash and a page id of digits, none of them empty. *)
Definition success_shape (m : string * string * string) : Prop :=
  let '(p, sk, id) := m in
  p <> "" /\ forallb (fun c => negb (is_line_terminator c)) (list_ascii_of_string p) = true /\
  sk <> "" /\ forallb (not_char slash) (list_ascii_of_string sk) = true /\
  id <> "" /\ forallb is_digit (list_ascii_of_string id) = true.

(** A tree with its file contents blanked: its names and its shape. *)
Fixpoint dirent_shape (e : dirent) : dirent :=
  match e with
  | DFile n _ => DFile n ""
  | DDir n es => DDir n (map dirent_shape es)
  end.

(** The relative path the walks of the code build for the path [p] of
    names below [rel]. *)
Fixpoint rel_of (rel : string) (p : list string) : string :=
  match p with
  | [] => rel
  | n :: p' => rel_of (path_join rel n) p'
  end.

(** What [updatePageIds] keeps of one entry at [rel]: its shape, and
    every file it does not give page info to. *)
Definition upi_keeps (pim : list (string * (string * string))) (rel : string) (e e' : dirent) : Prop :=
  dirent_shape e' = dirent_shape e /\
  forall p c, lookup_file [e] p = Some c ->
    is_md (last p "") = false \/ assoc_get pim (rel_of rel p) = None ->
    lookup_file [e'] p = Some c.

(** The named properties of a value hold no key twice. *)
Definition props_nodup (c : jsval) : Prop :=
  match c with
  | VObj o => NoDup (map fst o)
  | VArr _ p => NoDup (map fst p)
  | _ => True
  end.

(** [e'] has the names and the shape of [e], and the same file at every
    path whose last name is not a markdown name. *)
Definition md_keeps (e e' : dirent) : Prop :=
  dirent_shape e' = dirent_shape e /\
  forall p, is_md (last p "") = false -> lookup_file [e'] p = lookup_file [e] p.

(** [a], else [b]. *)
Definition or_else {A} (a b : option A) : option A :=
  match a with Some x => Some x | None => b end.

(* ================================================================== *)
(** * Properties *)

Example add_ignore_empty :
  add_ignore_patterns [] = Some [("ignore", JArr [JStr "images"; JStr "assets/images"])].
Proof. reflexivity. Qed.

(** ** The ignore list of the configuration *)

Lemma count_str_app (s : string) (l1 l2 : list json) :
  count_str s (l1 ++ l2) = (count_str s l1 + count_str s l2)%nat.
Proof. unfold count_str. rewrite filter_app, length_app. reflexivity. Qed.

Lemma count_str_existsb (s : string) (l : list json) :
  existsb (json_is_str s) l = false <-> count_str s l = 0%nat.
Proof.
  unfold count_str. induction l as [|x l IH]; simpl; [tauto|].
  destruct (json_is_str s x); simpl; [split; discriminate|exact IH].
Qed.

Lemma count_str_one (s e : string) :
  count_str s [JStr e] = if String.eqb s e then 1%nat else 0%nat.
Proof. unfold count_str. simpl. destruct (String.eqb s e); reflexivity. Qed.

Lemma count_str_nil (s : string) : count_str s [] = 0%nat.
Proof. reflexivity. Qed.

Ltac count_tac :=
  rewrite ?app_nil_l, ?app_nil_r, ?count_str_app, ?count_str_nil, ?count_str_one;
  cbv [String.eqb Ascii.eqb Bool.eqb]; lia.

Lemma assoc_get_set_eq {V} (o : list (string * V)) k v :
  assoc_get (assoc_set o k v) k = Some v.
Proof.
  induction o as [|[k' v'] o IH]; simpl.
  - rewrite String.eqb_refl. reflexivity.
  - destruct (String.eqb k k') eqn:E; simpl; rewrite ?E; [reflexivity|exact IH].
Qed.

Lemma assoc_get_set_neq {V} (o : list (string * V)) k k' v :
  k' <> k -> assoc_get (assoc_set o k v) k' = assoc_get o k'.
Proof.
  intros Hne. induction o as [|[k0 v0] o IH]; simpl.
  - apply String.eqb_neq in Hne. rewrite Hne. reflexivity.
  - destruct (String.eqb k k0) eqn:E; simpl.
    + apply String.eqb_eq in E. subst k0.
      apply String.eqb_neq in Hne. rewrite Hne. reflexivity.
    + destruct (String.eqb k' k0); [reflexivity|exact IH].
Qed.

Lemma add_ignore_patterns_array (cfg : config) (l : list json) :
  ignore_entries cfg = Some l ->
  exists cfg', add_ignore_patterns cfg = Some cfg' /\
    assoc_get cfg' "ignore" = Some (JArr (l ++ missing_ignores l)) /\
    (forall k, k <> "ignore" -> assoc_get cfg' k = assoc_get cfg k).
Proof.
  unfold ignore_entries, add_ignore_patterns. intros H.
  set (cfg0 := if json_falsy (assoc_get cfg "ignore")
               then assoc_set cfg "ignore" (JArr []) else cfg).
  assert (H0 : assoc_get cfg0 "ignore" = Some (JArr l)
               /\ forall k, k <> "ignore" -> assoc_get cfg0 k = assoc_get cfg k).
  { unfold cfg0. destruct (json_falsy (assoc_get cfg "ignore")).
    - inversion H; subst. split; [apply assoc_get_set_eq|].
      intros k Hk. apply assoc_get_set_neq. exact Hk.
    - destruct (assoc_get cfg "ignore") as [[]|]; try discriminate.
      inversion H; subst. split; [reflexivity|tauto]. }
  destruct H0 as [H0 Hk]. rewrite H0. unfold missing_ignores. simpl.
  destruct (existsb (json_is_str "images") l) eqn:E1; simpl;
  [destruct (existsb (json_is_str "assets/images") l) eqn:E2
  |destruct (existsb (json_is_str "assets/images") (l ++ [JStr "images"])) eqn:E2];
  simpl; eexists; (split; [reflexivity|]); rewrite ?app_nil_r, ?app_assoc.
  all: try (rewrite existsb_app in E2; simpl in E2; rewrite orb_false_r in E2).
  all: rewrite ?E2; simpl; rewrite ?app_nil_r, <- ?app_assoc.
  all: split; [apply assoc_get_set_eq|].
  all: intros k Hne; rewrite assoc_get_set_neq by exact Hne; apply Hk; exact Hne.
Qed.

(** C5 (counterexample): starting from a configuration without an ignore
    list, the step appends ['images'] and ['assets/images'] but not the
    mirror directory name ['docs-fixed-references']. *)
Lemma C5_counterexample :
  match add_ignore_patterns [] with
  | Some cfg' =>
      match assoc_get cfg' "ignore" with
      | Some (JArr l) => count_str "docs-fixed-references" l = 0%nat
      | _ => False
      end
  | None => False
  end.
Proof. reflexivity. Qed.

(** C5 (amended): when the configuration's [ignore] value is absent, falsy
    or an array [l], the step leaves an array [l'] that extends [l]:
    ['images'] and ['assets/images'] each occur [max 1 n] times where [n] is
    their number of occurrences in [l] (appended only when absent), every
    other entry, ['docs-fixed-references'] included, occurs exactly as often
    as in [l], and all other configuration keys are unchanged. *)
Theorem C5_add_ignore_patterns_counts (cfg : config) (l : list json) :
  ignore_entries cfg = Some l ->
  exists cfg' l', add_ignore_patterns cfg = Some cfg' /\
    assoc_get cfg' "ignore" = Some (JArr l') /\
    count_str "images" l' = Nat.max 1 (count_str "images" l) /\
    count_str "assets/images" l' = Nat.max 1 (count_str "assets/images" l) /\
    (forall s, s <> "images" -> s <> "assets/images" -> count_str s l' = count_str s l) /\
    (forall k, k <> "ignore" -> assoc_get cfg' k = assoc_get cfg k).
Proof.
  intros H. destruct (add_ignore_patterns_array cfg l H) as [cfg' [H1 [H2 H3]]].
  exists cfg', (l ++ missing_ignores l)%list. split; [exact H1|]. split; [exact H2|].
  unfold missing_ignores. rewrite !count_str_app.
  split; [|split; [|split; [|exact H3]]].
  - destruct (existsb (json_is_str "images") l) eqn:E1.
    + assert (count_str "images" l <> 0%nat).
      { intro Hc. apply count_str_existsb in Hc. congruence. }
      destruct (existsb (json_is_str "assets/images") l); count_tac.
    + apply count_str_existsb in E1.
      destruct (existsb (json_is_str "assets/images") l); count_tac.
  - destruct (existsb (json_is_str "assets/images") l) eqn:E1.
    + assert (count_str "assets/images" l <> 0%nat).
      { intro Hc. apply count_str_existsb in Hc. congruence. }
      destruct (existsb (json_is_str "images") l); count_tac.
    + apply count_str_existsb in E1.
      destruct (existsb (json_is_str "images") l); count_tac.
  - intros s Hs1 Hs2.
    apply String.eqb_neq in Hs1. apply String.eqb_neq in Hs2.
    destruct (existsb (json_is_str "images") l), (existsb (json_is_str "assets/images") l);
    rewrite ?app_nil_l, ?app_nil_r, ?count_str_app, ?count_str_nil, ?count_str_one, ?Hs1, ?Hs2; lia.
Qed.

Lemma C5_add_ignore_patterns_counts_witness :
  ignore_entries [("ignore", JArr [JStr "images"; JStr "docs"])] = Some [JStr "images"; JStr "docs"] /\
  exists cfg' l', add_ignore_patterns [("ignore", JArr [JStr "images"; JStr "docs"])] = Some cfg' /\
    assoc_get cfg' "ignore" = Some (JArr l') /\
    count_str "images" l' = Nat.max 1 (count_str "images" [JStr "images"; JStr "docs"]) /\
    count_str "assets/images" l' = Nat.max 1 (count_str "assets/images" [JStr "images"; JStr "docs"]) /\
    (forall s, s <> "images" -> s <> "assets/images" ->
       count_str s l' = count_str s [JStr "images"; JStr "docs"]) /\
    (forall k, k <> "ignore" ->
       assoc_get cfg' k = assoc_get [("ignore", JArr [JStr "images"; JStr "docs"])] k).
Proof.
  split; [reflexivity|].
  apply (C5_add_ignore_patterns_counts [("ignore", JArr [JStr "images"; JStr "docs"])]).
  reflexivity.
Defined.

(** ** Page identifier map *)

Lemma last_write_from {V} (k : string) (l : list (string * V)) (acc : option V) :
  fold_left (fun acc kv => if String.eqb k (fst kv) then Some (snd kv) else acc) l acc =
  match last_write k l with Some v => Some v | None => acc end.
Proof.
  unfold last_write. revert acc.
  induction l as [|[k' v'] l IH]; intros acc; simpl; [destruct acc; reflexivity|].
  rewrite (IH (if String.eqb k k' then Some v' else acc)), (IH (if String.eqb k k' then Some v' else None)).
  destruct (fold_left _ l None); [reflexivity|].
  destruct (String.eqb k k'); reflexivity.
Qed.

Lemma last_write_cons {V} (k k' : string) (v' : V) (l : list (string * V)) :
  last_write k ((k', v') :: l) =
  match last_write k l with
  | Some v => Some v
  | None => if String.eqb k k' then Some v' else None
  end.
Proof. unfold last_write at 1. simpl. rewrite last_write_from. reflexivity. Qed.

Lemma assoc_get_fold_set {V} (l : list (string * V)) (m : list (string * V)) k :
  assoc_get (fold_left set_pair l m) k =
  match last_write k l with Some v => Some v | None => assoc_get m k end.
Proof.
  revert m. induction l as [|[k' v'] l IH]; intros m; [reflexivity|].
  simpl. rewrite IH, last_write_cons. unfold set_pair; simpl.
  destruct (last_write k l); [reflexivity|].
  destruct (String.eqb k k') eqn:E.
  - apply String.eqb_eq in E. subst k'. apply assoc_get_set_eq.
  - apply assoc_get_set_neq. intro H. subst. rewrite String.eqb_refl in E. discriminate.
Qed.

Lemma register_doc_fold (p : string) (id : yval) (m : page_map) :
  register_doc p id m = fold_left set_pair (map (fun k => (k, id)) (doc_keys p)) m.
Proof.
  unfold register_doc, doc_keys.
  destruct (String.eqb (dirname (normalize_path p)) "."); reflexivity.
Qed.

Lemma bpm_entry_fold `{YamlEngine} (e : dirent) :
  forall rel m m', bpm_entry rel e m = Some m' ->
  m' = fold_left set_pair (flat_map doc_registrations (md_docs rel e)) m.
Proof.
  induction e as [name content|name es IH] using dirent_ind'; intros rel m m' He.
  - cbn [bpm_entry md_docs] in He |- *. destruct (is_md name); [|injection He; auto].
    cbn [flat_map]. rewrite app_nil_r. unfold doc_registrations; cbn [fst snd].
    destruct (parse_frontmatter content) as [[f c]|]; [|discriminate].
    destruct (assoc_get f "connie-page-id") as [id|]; [|injection He; auto].
    destruct (truthy (Some id)); injection He as <-; [apply register_doc_fold|reflexivity].
  - simpl in He. simpl. revert m He. induction IH as [|e es He1 Hes IHes]; intros m He.
    + injection He; auto.
    + destruct (bpm_entry (path_join rel name) e m) as [m1|] eqn:E1; [|discriminate].
      apply He1 in E1. subst m1. simpl. rewrite flat_map_app, fold_left_app.
      apply IHes. exact He.
Qed.

(** C3 (counterexample): in a directory [d] holding [a.md] (page 1) and
    [b.md] (page 2), visited in that order, both documents register the
    parent key ["d"]; the map holds the identifier of [b.md], the later
    one. *)
Lemma C3_counterexample :
  option_map (fun m => assoc_get m "d")
    (@build_page_id_map MiniYaml.engine
       [DDir "d" [DFile "a.md" (text ["---"; "connie-page-id: 1"; "---"; "A"]);
                  DFile "b.md" (text ["---"; "connie-page-id: 2"; "---"; "B"])]])
  = Some (Some (YNum 2)).
Proof. reflexivity. Qed.

(** C3 (amended): when [buildPageIdMap] scans a tree without failing, every
    key of the resulting map holds the identifier of the LAST visited
    document that registered it (its path, its path without [.md] and its
    parent directory other than ['.'], all normalized): a later document
    overwrites the keys of earlier ones (last-write-wins), and keys nobody
    registered are absent. *)
Theorem C3_build_page_id_map_last_write_wins `{YamlEngine} (root : list dirent) (m : page_map) :
  build_page_id_map root = Some m ->
  forall k, assoc_get m k = last_write k (registrations root).
Proof.
  intros Hb k. unfold build_page_id_map in Hb. apply bpm_entry_fold in Hb. subst m.
  rewrite assoc_get_fold_set. unfold registrations.
  destruct (last_write k _); reflexivity.
Qed.

Lemma C3_build_page_id_map_last_write_wins_witness :
  exists m,
    @build_page_id_map MiniYaml.engine
      [DDir "d" [DFile "a.md" (text ["---"; "connie-page-id: 1"; "---"; "A"]);
                 DFile "b.md" (text ["---"; "connie-page-id: 2"; "---"; "B"])]] = Some m /\
    assoc_get m "d" =
      last_write "d" (@registrations MiniYaml.engine
        [DDir "d" [DFile "a.md" (text ["---"; "connie-page-id: 1"; "---"; "A"]);
                   DFile "b.md" (text ["---"; "connie-page-id: 2"; "---"; "B"])]]).
Proof.
  eexists. split; [vm_compute; reflexivity|].
  apply (@C3_build_page_id_map_last_write_wins MiniYaml.engine). vm_compute. reflexivity.
Defined.

(** ** Strings *)

Lemma str_app_assoc (a b c : string) : (a ++ b) ++ c = a ++ (b ++ c).
Proof. induction a as [|x a IH]; simpl; [reflexivity|rewrite IH; reflexivity]. Qed.

Lemma str_app_nil_r (a : string) : a ++ "" = a.
Proof. induction a as [|x a IH]; simpl; [reflexivity|rewrite IH; reflexivity]. Qed.

Lemma last_char_snoc (s : string) (c : ascii) : Str.last_char (s ++ String c "") = Some c.
Proof.
  induction s as [|x s IH]; [reflexivity|].
  simpl. rewrite IH. destruct (s ++ String c ""); [discriminate|reflexivity].
Qed.

Lemma trim_start_head (s : string) :
  Str.trim_start s = "" \/ exists c r, Str.trim_start s = String c r /\ Str.is_ws c = false.
Proof.
  induction s as [|c s IH]; simpl; [left; reflexivity|].
  destruct (Str.is_ws c) eqn:E; [exact IH|right; eauto].
Qed.

Lemma trim_last_char (s : string) :
  Str.trim s = "" \/ exists c, Str.last_char (Str.trim s) = Some c /\ Str.is_ws c = false.
Proof.
  unfold Str.trim, Str.trim_end.
  destruct (trim_start_head (Str.rev_str (Str.trim_start s))) as [H|[c [r [H Hc]]]];
    rewrite H; simpl; [left; reflexivity|].
  right. exists c. split; [apply last_char_snoc|exact Hc].
Qed.

Lemma newline_trim (s : string) :
  Str.trim s <> "" -> Str.newline (Str.trim s) = Str.trim s ++ String Str.nl "".
Proof.
  intros Hne. unfold Str.newline.
  destruct (trim_last_char s) as [H|[c [H Hc]]]; [contradiction|].
  rewrite H. destruct (Ascii.eqb c Str.nl) eqn:E; [|reflexivity].
  apply Ascii.eqb_eq in E. subst c. discriminate.
Qed.

Lemma newline_idem (s : string) : Str.newline (Str.newline s) = Str.newline s.
Proof.
  unfold Str.newline. destruct (Str.last_char s) as [c|] eqn:E.
  - destruct (Ascii.eqb c Str.nl) eqn:Ec.
    + rewrite E, Ec. reflexivity.
    + rewrite last_char_snoc. reflexivity.
  - rewrite last_char_snoc. reflexivity.
Qed.

Lemma dashes_app (a z : string) :
  Str.starts_with "---" (a ++ String Str.nl z) = true -> Str.starts_with "---" a = true.
Proof.
  assert (Hd : Ascii.eqb "-" Str.nl = false) by reflexivity.
  destruct a as [|c1 [|c2 [|c3 a]]]; cbn [String.append Str.starts_with];
    rewrite ?Hd, ?andb_false_l, ?andb_false_r; intros H; try discriminate H.
  rewrite ?andb_true_r in *. exact H.
Qed.

Lemma index_of_cons (p : string) (c : ascii) (s : string) :
  Str.index_of p (String c s) =
  if Str.starts_with p (String c s) then Some 0 else option_map S (Str.index_of p s).
Proof. reflexivity. Qed.

Lemma index_close_app (a r : string) :
  Str.index_of gm_close a = None ->
  Str.index_of gm_close (a ++ String Str.nl ("---" ++ r)) = Some (String.length a).
Proof.
  induction a as [|c a IH]; intros H; [reflexivity|].
  rewrite index_of_cons in H. change (String c a ++ ?x) with (String c (a ++ x)).
  rewrite index_of_cons.
  destruct (Str.starts_with gm_close (String c a)) eqn:E1; [discriminate|].
  destruct (Str.index_of gm_close a) eqn:E2; [discriminate|].
  rewrite (IH eq_refl).
  destruct (Str.starts_with gm_close (String c (a ++ String Str.nl ("---" ++ r)))) eqn:E3;
    [|reflexivity].
  exfalso. unfold gm_close in E1, E3.
  assert (Hs : forall c0 p0 d0 s0, Str.starts_with (String c0 p0) (String d0 s0)
                 = Ascii.eqb c0 d0 && Str.starts_with p0 s0) by reflexivity.
  rewrite Hs in E1, E3.
  destruct (Ascii.eqb Str.nl c); [|discriminate]. cbn [andb] in E1, E3.
  rewrite (dashes_app a _ E3) in E1. discriminate.
Qed.

Lemma substring_app (a b : string) : substring 0 (String.length a) (a ++ b) = a.
Proof.
  induction a as [|c a IH]; simpl; [destruct b; reflexivity|rewrite IH; reflexivity].
Qed.

Lemma str_drop_app (a b : string) : str_drop (String.length a) (a ++ b) = b.
Proof. induction a as [|c a IH]; simpl; [destruct b; reflexivity|exact IH]. Qed.

Lemma str_drop_add (a b : string) (k : nat) : str_drop (String.length a + k) (a ++ b) = str_drop k b.
Proof. induction a as [|c a IH]; simpl; [reflexivity|exact IH]. Qed.

Lemma length_app_str (a b : string) : String.length (a ++ b) = (String.length a + String.length b)%nat.
Proof. induction a as [|c a IH]; simpl; [reflexivity|rewrite IH; reflexivity]. Qed.

(** ** Reading back what [matter.stringify] writes *)

Lemma stringify_shape (out body : string) :
  let y := Str.trim out in
  y <> "{}" -> y <> "" ->
  gm_write out body = "---" ++ String Str.nl (y ++ String Str.nl ("---" ++ String Str.nl (Str.newline body))).
Proof.
  intros y Hy Hy0. unfold gm_write. cbv zeta.
  change (Str.trim out) with y.
  assert (Hn : Str.newline y = y ++ String Str.nl "") by (apply newline_trim; exact Hy0).
  apply String.eqb_neq in Hy. rewrite Hy, Hn.
  change (Str.newline "---") with ("---" ++ String Str.nl "").
  rewrite !str_app_assoc. reflexivity.
Qed.

Lemma gm_matter_stringify `{YamlEngine} (out body : string) :
  let y := Str.trim out in
  y <> "{}" ->
  Str.index_of gm_close (String Str.nl y) = None ->
  Str.trim (strip_comments (String Str.nl y)) <> "" ->
  gm_matter (gm_write out body) =
  option_map (fun d => (d, Str.newline body)) (yaml_parse "yaml" (String Str.nl y)).
Proof.
  intros y Hy Hi Hc.
  assert (Hy0 : y <> "").
  { intro E. apply Hc. rewrite E. reflexivity. }
  rewrite (stringify_shape out body Hy Hy0). fold y.
  set (nb := Str.newline body).
  set (a := String Str.nl y).
  set (rest := String Str.nl ("---" ++ String Str.nl nb)).
  change (String Str.nl (y ++ rest)) with (a ++ rest).
  unfold gm_matter.
  change (String.eqb ("---" ++ a ++ rest) "") with false. cbv iota beta.
  change (Str.starts_with "---" ("---" ++ a ++ rest)) with (Str.starts_with "" (a ++ rest)).
  cbn [Str.starts_with negb]. cbv iota beta.
  change (str_drop 3 ("---" ++ a ++ rest)) with (a ++ rest).
  change (first_is "-" (a ++ rest)) with false. cbv iota beta.
  change (language_raw (a ++ rest)) with "". 
  change (Str.trim "") with "". cbn [String.eqb]. cbv iota beta.
  unfold rest. rewrite (index_close_app a (String Str.nl nb) Hi).
  assert (Hlen : Nat.eqb (String.length a) (String.length (a ++ String Str.nl ("---" ++ String Str.nl nb))) = false).
  { rewrite length_app_str. apply Nat.eqb_neq. simpl. lia. }
  rewrite Hlen, substring_app.
  assert (Hc' : String.eqb (Str.trim (strip_comments a)) "" = false)
    by (apply String.eqb_neq; exact Hc).
  rewrite Hc', str_drop_add.
  destruct (yaml_parse "yaml" a); reflexivity.
Qed.

(** ** Keys of association lists *)

Lemma keys_set {V} (o : list (string * V)) k v :
  map fst (assoc_set o k v) =
  if existsb (String.eqb k) (map fst o) then map fst o else (map fst o ++ [k])%list.
Proof.
  induction o as [|[k' v'] o IH]; simpl; [reflexivity|].
  destruct (String.eqb k k') eqn:E; simpl; [reflexivity|].
  rewrite IH. destruct (existsb (String.eqb k) (map fst o)); reflexivity.
Qed.

Lemma existsb_eqb_in (k : string) (l : list string) :
  existsb (String.eqb k) l = true <-> In k l.
Proof.
  rewrite existsb_exists. split.
  - intros [x [Hx E]]. apply String.eqb_eq in E. subst. exact Hx.
  - intros Hk. exists k. split; [exact Hk|apply String.eqb_refl].
Qed.

Lemma in_keys_set {V} (o : list (string * V)) k v k' :
  In k' (map fst o) \/ k' = k -> In k' (map fst (assoc_set o k v)).
Proof.
  rewrite keys_set. destruct (existsb (String.eqb k) (map fst o)) eqn:E.
  - apply existsb_eqb_in in E. intros [H|H]; [exact H|subst; exact E].
  - intros [H|H]; apply in_or_app; [left; exact H|right; left; symmetry; exact H].
Qed.

Lemma nodup_set {V} (o : list (string * V)) k v :
  NoDup (map fst o) -> NoDup (map fst (assoc_set o k v)).
Proof.
  intros Hn. rewrite keys_set. destruct (existsb (String.eqb k) (map fst o)) eqn:E; [exact Hn|].
  apply NoDup_app; [exact Hn|constructor; [intros []|constructor]|].
  intros x Hx [Hy|[]]. subst x.
  apply existsb_eqb_in in Hx. congruence.
Qed.

Lemma nodup_fold {V} (l acc : list (string * V)) :
  NoDup (map fst acc) -> NoDup (map fst (fold_left set_pair l acc)).
Proof.
  revert acc. induction l as [|kv l IH]; intros acc Hn; simpl; [exact Hn|].
  apply IH. apply nodup_set. exact Hn.
Qed.

Lemma in_keys_fold {V} (l acc : list (string * V)) k :
  In k (map fst acc) \/ In k (map fst l) -> In k (map fst (fold_left set_pair l acc)).
Proof.
  revert acc. induction l as [|kv l IH]; intros acc H; simpl in *.
  - destruct H as [H|[]]; exact H.
  - apply IH. destruct H as [H|[H|H]].
    + left. apply in_keys_set. left. exact H.
    + left. apply in_keys_set. right. symmetry. exact H.
    + right. exact H.
Qed.

Lemma keys_fold_present {V} (l acc : list (string * V)) :
  (forall k, In k (map fst l) -> In k (map fst acc)) ->
  map fst (fold_left set_pair l acc) = map fst acc.
Proof.
  revert acc. induction l as [|[k v] l IH]; intros acc H; simpl; [reflexivity|].
  assert (Hk : In k (map fst acc)) by (apply H; left; reflexivity).
  assert (Hs : map fst (set_pair acc (k, v)) = map fst acc).
  { unfold set_pair. simpl. rewrite keys_set.
    apply existsb_eqb_in in Hk. rewrite Hk. reflexivity. }
  rewrite IH; [exact Hs|].
  intros k' Hk'. rewrite Hs. apply H. right. exact Hk'.
Qed.

Lemma assoc_get_notin {V} (o : list (string * V)) k :
  ~ In k (map fst o) -> assoc_get o k = None.
Proof.
  induction o as [|[k' v'] o IH]; intros H; simpl; [reflexivity|].
  simpl in H. destruct (String.eqb k k') eqn:E.
  - apply String.eqb_eq in E. subst. exfalso. apply H. left. reflexivity.
  - apply IH. intro Hi. apply H. right. exact Hi.
Qed.

Lemma assoc_ext {V} (a b : list (string * V)) :
  NoDup (map fst a) -> map fst a = map fst b ->
  (forall k, assoc_get a k = assoc_get b k) -> a = b.
Proof.
  revert b. induction a as [|[ka va] a IH]; intros b Hn Hk Hg.
  - destruct b; [reflexivity|discriminate].
  - destruct b as [|[kb vb] b]; [discriminate|].
    simpl in Hk. injection Hk as <- Hk.
    inversion Hn as [|x y Hnin Hn']; subst.
    pose proof (Hg ka) as Hka. simpl in Hka. rewrite String.eqb_refl in Hka.
    injection Hka as <-. f_equal. apply IH; [exact Hn'|exact Hk|].
    intros k. pose proof (Hg k) as Hk'. simpl in Hk'.
    destruct (String.eqb k ka) eqn:E; [|exact Hk'].
    apply String.eqb_eq in E. subst k.
    rewrite !assoc_get_notin; [reflexivity| |exact Hnin].
    rewrite <- Hk. exact Hnin.
Qed.

Lemma fold_set_idem {V} (d x : list (string * V)) :
  NoDup (map fst x) ->
  fold_left set_pair d (fold_left set_pair d x) = fold_left set_pair d x.
Proof.
  intros Hn. apply assoc_ext.
  - apply nodup_fold, nodup_fold. exact Hn.
  - apply keys_fold_present. intros k Hk. apply in_keys_fold. right. exact Hk.
  - intros k. rewrite !assoc_get_fold_set. destruct (last_write k d); reflexivity.
Qed.

Lemma assoc_set_notin {V} (o : list (string * V)) k v :
  ~ In k (map fst o) -> assoc_set o k v = (o ++ [(k, v)])%list.
Proof.
  induction o as [|[k' v'] o IH]; intros H; simpl; [reflexivity|].
  simpl in H. destruct (String.eqb k k') eqn:E.
  - apply String.eqb_eq in E. subst. exfalso. apply H. left. reflexivity.
  - rewrite IH; [reflexivity|]. intro Hi. apply H. right. exact Hi.
Qed.

Lemma fold_set_nodup {V} (m : list (string * V)) :
  NoDup (map fst m) -> fold_left set_pair m [] = m.
Proof.
  assert (Hg : forall acc, NoDup (map fst (acc ++ m)) -> fold_left set_pair m acc = (acc ++ m)%list).
  { induction m as [|[k v] m IH]; intros acc Hn; simpl; [rewrite app_nil_r; reflexivity|].
    unfold set_pair at 2. simpl.
    assert (Hnin : ~ In k (map fst acc)).
    { rewrite map_app in Hn. simpl in Hn. apply NoDup_remove_2 in Hn.
      intro Hi. apply Hn. apply in_or_app. left. exact Hi. }
    rewrite assoc_set_notin by exact Hnin.
    rewrite IH; [rewrite <- app_assoc; reflexivity|].
    rewrite <- app_assoc. exact Hn. }
  intros Hn. apply (Hg []). exact Hn.
Qed.

Lemma spread_nil_nodup {V} (m : list (string * V)) :
  NoDup (map fst m) -> spread [] m = m.
Proof. intros Hn. exact (fold_set_nodup m Hn). Qed.

Lemma spread_fold {V} (a b : list (string * V)) :
  spread a b = fold_left set_pair b (fold_left set_pair a []).
Proof. reflexivity. Qed.

Lemma nodup_spread {V} (a b : list (string * V)) : NoDup (map fst (spread a b)).
Proof. rewrite spread_fold. apply nodup_fold, nodup_fold. constructor. Qed.

Lemma reads_back_spec `{YamlEngine} (m : fm) :
  reads_back m = true ->
  Str.trim (yaml_dump m) <> "{}" /\
  Str.index_of gm_close (String Str.nl (Str.trim (yaml_dump m))) = None /\
  Str.trim (strip_comments (String Str.nl (Str.trim (yaml_dump m)))) <> "" /\
  yaml_parse "yaml" (String Str.nl (Str.trim (yaml_dump m))) = Some m.
Proof.
  unfold reads_back. intros Hr.
  destruct (String.eqb (Str.trim (yaml_dump m)) "{}") eqn:E1; [discriminate|].
  destruct (Str.index_of gm_close (String Str.nl (Str.trim (yaml_dump m)))) eqn:E2; [discriminate|].
  destruct (String.eqb (Str.trim (strip_comments (String Str.nl (Str.trim (yaml_dump m))))) "") eqn:E3;
    [discriminate|].
  destruct (yaml_parse "yaml" (String Str.nl (Str.trim (yaml_dump m)))) as [m'|] eqn:E4;
    [|discriminate].
  destruct (fm_eq_dec m' m) as [->|]; [|discriminate].
  apply String.eqb_neq in E1, E3. auto.
Qed.

(** What [matter.stringify] writes for a mapping that reads back is parsed
    by [matter] into that mapping and the content followed by a newline. *)
Lemma gm_matter_stringify_reads_back `{YamlEngine} (body : string) (m : fm) :
  reads_back m = true ->
  gm_matter (gm_write (yaml_dump m) body) = Some (m, Str.newline body).
Proof.
  intros Hr. destruct (reads_back_spec m Hr) as [H1 [H2 [H3 H4]]].
  rewrite gm_matter_stringify; try assumption.
  rewrite H4. reflexivity.
Qed.

Lemma gm_write_newline (out body : string) :
  gm_write out (Str.newline body) = gm_write out body.
Proof. unfold gm_write. rewrite newline_idem. reflexivity. Qed.

Lemma newline_dashes (s : string) :
  Str.starts_with "---" s = false -> Str.starts_with "---" (Str.newline s) = false.
Proof.
  intros Hs. unfold Str.newline.
  destruct (Str.last_char s) as [c|]; [destruct (Ascii.eqb c Str.nl); [exact Hs|]|];
  (destruct (Str.starts_with "---" (s ++ String Str.nl "")) eqn:E; [|reflexivity]);
  rewrite (dashes_app s "" E) in Hs; discriminate.
Qed.

(** [matter] of a text that does not start with ['---']: no data, the
    text itself, the language ['yaml']. *)
Lemma gm_matter_plain `{YamlEngine} (s : string) :
  Str.starts_with "---" s = false -> gm_matter s = Some ([], s).
Proof.
  intros Hs. unfold gm_matter. destruct (String.eqb s "") eqn:E.
  - apply String.eqb_eq in E. subst s. reflexivity.
  - rewrite Hs. reflexivity.
Qed.

Lemma gm_language_plain (s : string) :
  Str.starts_with "---" s = false -> gm_language s = "yaml".
Proof.
  intros Hs. unfold gm_language. destruct (String.eqb s ""); [reflexivity|]. rewrite Hs. reflexivity.
Qed.

Lemma gm_stringify_plain `{YamlEngine} (body : string) (m : fm) :
  Str.starts_with "---" body = false ->
  gm_stringify body m = Some (gm_write (yaml_dump (spread [] m)) body).
Proof.
  intros Hs. unfold gm_stringify. rewrite (gm_matter_plain body Hs), (gm_language_plain body Hs).
  reflexivity.
Qed.

(** [matter.stringify(body, data)] splits into the parse of [body], the
    engine's dump of [Object.assign({}, file.data, data)] and the text
    written from it. *)
Lemma gm_stringify_inv `{YamlEngine} (body : string) (m : fm) (c : string) :
  gm_stringify body m = Some c ->
  exists d0 content out,
    gm_matter body = Some (d0, content) /\
    engine_stringify (gm_language body) (spread (spread [] d0) m) = Some out /\
    c = gm_write out content.
Proof.
  unfold gm_stringify. intros E.
  destruct (gm_matter body) as [[d0 content]|] eqn:E1; [|discriminate].
  destruct (engine_stringify (gm_language body) (spread (spread [] d0) m)) as [out|] eqn:E2;
    [|discriminate].
  injection E as <-. exists d0, content, out. split; [reflexivity|]. split; [exact E2|reflexivity].
Qed.

(** ** Idempotence of [updateFrontmatter] *)

Lemma last_write_app {V} (k : string) (l1 l2 : list (string * V)) :
  last_write k (l1 ++ l2) = match last_write k l2 with Some v => Some v | None => last_write k l1 end.
Proof.
  unfold last_write at 1. rewrite fold_left_app, last_write_from. reflexivity.
Qed.

Lemma last_write_nodup {V} (k : string) (l : list (string * V)) :
  NoDup (map fst l) -> last_write k l = assoc_get l k.
Proof.
  intros Hn. rewrite <- (fold_set_nodup l Hn) at 2. rewrite assoc_get_fold_set.
  destruct (last_write k l); reflexivity.
Qed.

Lemma last_write_notin {V} (k : string) (l : list (string * V)) :
  ~ In k (map fst l) -> last_write k l = None.
Proof.
  intros H. unfold last_write.
  assert (Hg : forall acc, ~ In k (map fst l) ->
    fold_left (fun acc kv => if String.eqb k (fst kv) then Some (snd kv) else acc) l acc = acc).
  { clear H. induction l as [|[k' v'] l IH]; intros acc H; [reflexivity|].
    simpl in H |- *. destruct (String.eqb k k') eqn:E.
    - apply String.eqb_eq in E. subst. exfalso. apply H. left. reflexivity.
    - apply IH. intro Hi. apply H. right. exact Hi. }
  apply Hg. exact H.
Qed.

Lemma fold_set_absorb {V} (d y z : list (string * V)) :
  NoDup (map fst y) -> NoDup (map fst z) ->
  fold_left set_pair d (fold_left set_pair (fold_left set_pair d z) y) =
  fold_left set_pair (fold_left set_pair d z) y.
Proof.
  intros Hy Hz. apply assoc_ext.
  - apply nodup_fold, nodup_fold. exact Hy.
  - apply keys_fold_present. intros k Hk. apply in_keys_fold. right. apply in_keys_fold. right. exact Hk.
  - intros k. rewrite !assoc_get_fold_set.
    destruct (last_write k d) as [v|] eqn:E; [|reflexivity].
    rewrite last_write_nodup by (apply nodup_fold; exact Hz).
    rewrite assoc_get_fold_set, E. reflexivity.
Qed.

(** C8 (counterexample): a body that itself starts with ['---'] blocks is
    re-parsed by [matter.stringify], which takes one block off on every
    update: ["---\na: 1\n---\n---\n---\n---\n---\nhello"] becomes
    ["---\na: 1\n---\n---\n---\nhello\n"] and then
    ["---\na: 1\n---\nhello\n"]. *)
Lemma C8_counterexample :
  @update_frontmatter MiniYaml.engine (text ["---"; "a: 1"; "---"; "---"; "---"; "---"; "---"; "hello"]) []
    = Some (text ["---"; "a: 1"; "---"; "---"; "---"; "hello"; ""]) /\
  @update_frontmatter MiniYaml.engine (text ["---"; "a: 1"; "---"; "---"; "---"; "hello"; ""]) []
    = Some (text ["---"; "a: 1"; "---"; "hello"; ""]).
Proof. split; vm_compute; reflexivity. Qed.

(** C8 (amended): let [data] and [body] be what [matter] reads from
    [text], and [d1] and [c1] what [matter.stringify] reads again from
    [body].  [updateFrontmatter] is idempotent in its data argument when
    [c1] does not start with ["---"], the language of [body] is YAML, and
    the mapping written, [Object.assign({}, d1, {...data, ...d})], reads
    back: it is non-empty, its dump holds no ["\n---"], is not blank once
    comments are removed, and the engine parses it back to the same
    mapping.  Then [updateFrontmatter(updateFrontmatter(text, d), d)]
    equals [updateFrontmatter(text, d)]. *)
Theorem C8_update_frontmatter_idempotent `{YamlEngine} (txt : string) (d d0 d1 : fm) (body c1 t' : string) :
  gm_matter txt = Some (d0, body) ->
  gm_matter body = Some (d1, c1) ->
  yaml_alias (gm_language body) = true ->
  Str.starts_with "---" c1 = false ->
  reads_back (spread (spread [] d1) (spread d0 d)) = true ->
  update_frontmatter txt d = Some t' ->
  update_frontmatter t' d = Some t'.
Proof.
  intros Hg Hb Hl Hc Hr Hu. unfold update_frontmatter in Hu |- *. rewrite Hg in Hu.
  unfold gm_stringify in Hu. rewrite Hb in Hu. unfold engine_stringify in Hu. rewrite Hl in Hu.
  injection Hu as <-.
  set (M := spread (spread [] d1) (spread d0 d)) in *.
  rewrite gm_matter_stringify_reads_back by exact Hr.
  rewrite gm_stringify_plain by (apply newline_dashes; exact Hc).
  rewrite gm_write_newline.
  assert (HM : spread M d = M).
  { rewrite spread_fold, fold_set_nodup by apply nodup_spread.
    unfold M. rewrite (spread_fold (spread [] d1)), (spread_fold d0 d).
    apply fold_set_absorb; apply nodup_fold; constructor. }
  rewrite HM, spread_nil_nodup by apply nodup_spread. reflexivity.
Qed.

Lemma C8_update_frontmatter_idempotent_witness :
  @gm_matter MiniYaml.engine (text ["---"; "a: 1"; "---"; "body"])
    = Some ([("a", YNum 1)], "body") /\
  @gm_matter MiniYaml.engine "body" = Some ([], "body") /\
  @reads_back MiniYaml.engine (spread (spread [] []) (spread [("a", YNum 1)] [("b", YNum 2)])) = true /\
  @update_frontmatter MiniYaml.engine (text ["---"; "a: 1"; "---"; "body"]) [("b", YNum 2)]
    = Some (text ["---"; "a: 1"; "b: 2"; "---"; "body"; ""]) /\
  @update_frontmatter MiniYaml.engine (text ["---"; "a: 1"; "b: 2"; "---"; "body"; ""]) [("b", YNum 2)]
    = Some (text ["---"; "a: 1"; "b: 2"; "---"; "body"; ""]).
Proof.
  split; [vm_compute; reflexivity|]. split; [vm_compute; reflexivity|].
  split; [vm_compute; reflexivity|]. split; [vm_compute; reflexivity|].
  apply (@C8_update_frontmatter_idempotent MiniYaml.engine
           (text ["---"; "a: 1"; "---"; "body"]) [("b", YNum 2)] [("a", YNum 1)] [] "body" "body");
    vm_compute; reflexivity.
Defined.

(** ** Link rewriting *)

Lemma concat_empty_cons (x : string) (l : list string) :
  String.concat "" (x :: l) = x ++ String.concat "" l.
Proof. destruct l; simpl; [rewrite str_app_nil_r|]; reflexivity. Qed.

Lemma replace_links_scan (f : string -> string -> string) (s : string) :
  replace_links f s = String.concat "" (map (piece f) (scan_links s)).
Proof. reflexivity. Qed.

Lemma link_match_open (s t u r : string) :
  link_match s = Some (t, u, r) -> exists s', s = String "[" s'.
Proof.
  destruct s as [|c s']; simpl; [discriminate|].
  destruct (Ascii.eqb c "[") eqn:E; [|discriminate].
  apply Ascii.eqb_eq in E. subst. eauto.
Qed.

Lemma scan_dashes (f : string -> string -> string) :
  (forall t u, exists r, f t u = String "[" r) ->
  forall s n p, (String.length s <= n)%nat -> all_dashes p = true ->
  Str.starts_with p (String.concat "" (map (piece f) (scan_fuel n s))) = true ->
  Str.starts_with p s = true.
Proof.
  intros Hf. induction s as [|c s IH]; intros n p Hn Hp Hs.
  - destruct n; simpl in Hs; exact Hs.
  - destruct n as [|n]; [simpl in Hn; lia|].
    destruct p as [|d p]; [reflexivity|].
    cbn [scan_fuel] in Hs.
    destruct (link_match (String c s)) as [[[t u] r]|] eqn:E.
    + exfalso. rewrite map_cons, concat_empty_cons in Hs. cbn [piece] in Hs.
      destruct (Hf t u) as [r' Hr]. rewrite Hr in Hs. cbn [String.append Str.starts_with] in Hs.
      unfold all_dashes in Hp. cbn [list_ascii_of_string forallb] in Hp.
      apply andb_prop in Hp. destruct Hp as [Hd _]. apply Ascii.eqb_eq in Hd. subst d.
      discriminate Hs.
    + rewrite map_cons, concat_empty_cons in Hs. cbn [piece String.append Str.starts_with] in Hs |- *.
      apply andb_prop in Hs. destruct Hs as [H1 H2]. rewrite H1. cbn [andb].
      unfold all_dashes in Hp. cbn [list_ascii_of_string forallb] in Hp.
      apply andb_prop in Hp. destruct Hp as [_ Hp].
      apply (IH n p); [simpl in Hn; lia|exact Hp|exact H2].
Qed.

Lemma fix_link_shape (pm : page_map) (base : string) (skm : space_key_map) (cfg : config) (t u : string) :
  exists u', fix_link pm base skm cfg t u = link_text t u'.
Proof.
  unfold fix_link. destruct (is_remote u); [eauto|].
  destruct (find_page pm (path_variations base u)) as [pid|]; [|eauto].
  destruct (truthy (Some pid)); eauto.
Qed.

Lemma fix_link_open (pm : page_map) (base : string) (skm : space_key_map) (cfg : config) :
  forall t u, exists r, fix_link pm base skm cfg t u = String "[" r.
Proof.
  intros t u. destruct (fix_link_shape pm base skm cfg t u) as [u' ->]. eexists. reflexivity.
Qed.

Lemma replace_links_dashes (pm : page_map) (base : string) (skm : space_key_map) (cfg : config) (s : string) :
  Str.starts_with "---" s = false ->
  Str.starts_with "---" (replace_links (fix_link pm base skm cfg) s) = false.
Proof.
  intros Hs. destruct (Str.starts_with "---" (replace_links (fix_link pm base skm cfg) s)) eqn:E;
    [|reflexivity].
  rewrite <- Hs. symmetry. exact (scan_dashes _ (fix_link_open pm base skm cfg) s _ "---" (le_n _) eq_refl E).
Qed.


(** ** The frontmatter through [fixReferences] *)

(** C7 (counterexample): a document with no frontmatter whose body, after
    a leading blank line, holds a ["---"] block: [parseFrontmatter] trims the
    body, and [updateFrontmatter] re-parses it, so the output's frontmatter
    is [{x: 1}] instead of the input's empty mapping. *)
Lemma C7_counterexample :
  @parse_frontmatter MiniYaml.engine (text [""; "---"; "x: 1"; "---"; "hi"])
    = Some ([], text ["---"; "x: 1"; "---"; "hi"]) /\
  option_map (@parse_frontmatter MiniYaml.engine)
    (@fix_references MiniYaml.engine (text [""; "---"; "x: 1"; "---"; "hi"]) [] "a.md" [] [])
    = Some (Some ([("x", YNum 1)], "hi")).
Proof. split; vm_compute; reflexivity. Qed.

(** C7 (amended): let [f] be the frontmatter mapping of the input and [b]
    its trimmed body.  If [b] does not start with ["---"], [f] has no
    duplicate keys, and [f] either reads back (non-empty, its dumped block
    is found by [matter] and parsed back to [f]) or is empty with the engine
    dumping an empty mapping as ["{}"], then parsing the frontmatter of the
    output of [fixReferences] yields exactly [f]. *)
Theorem C7_fix_references_keeps_frontmatter `{YamlEngine} (content : string) (pm : page_map)
    (file_path : string) (skm : space_key_map) (cfg : config) (f : fm) (clean out : string) :
  parse_frontmatter content = Some (f, clean) ->
  Str.starts_with "---" clean = false ->
  NoDup (map fst f) ->
  reads_back f = true \/ (f = [] /\ Str.trim (yaml_dump []) = "{}") ->
  fix_references content pm file_path skm cfg = Some out ->
  exists body, parse_frontmatter out = Some (f, body).
Proof.
  intros Hp Hc Hn Hf Hfix. unfold fix_references in Hfix. rewrite Hp in Hfix.
  set (x := replace_links (fix_link pm (dirname file_path) skm cfg) clean) in Hfix.
  assert (Hx : Str.starts_with "---" x = false) by (apply replace_links_dashes; exact Hc).
  unfold update_frontmatter in Hfix.
  rewrite (gm_matter_plain x Hx), gm_stringify_plain in Hfix by exact Hx.
  injection Hfix as <-. rewrite (spread_nil_nodup f Hn), (spread_nil_nodup f Hn).
  destruct Hf as [Hr|[-> Hd]].
  - unfold parse_frontmatter. rewrite gm_matter_stringify_reads_back by assumption. eauto.
  - unfold gm_write. cbn [spread fold_left]. rewrite Hd. cbn [String.eqb Ascii.eqb Bool.eqb andb].
    cbv zeta. cbn [String.append].
    unfold parse_frontmatter. rewrite (gm_matter_plain (Str.newline x) (newline_dashes x Hx)). eauto.
Qed.

Lemma C7_fix_references_keeps_frontmatter_witness :
  exists out,
    @parse_frontmatter MiniYaml.engine (text ["---"; "a: 1"; "---"; "see [x](b.md)"])
      = Some ([("a", YNum 1)], "see [x](b.md)") /\
    @fix_references MiniYaml.engine (text ["---"; "a: 1"; "---"; "see [x](b.md)"])
      [("b", YStr "7")] "a.md" []
      [("confluenceBaseUrl", JStr "https://w"); ("confluenceSpaceKey", JStr "S")] = Some out /\
    exists body, @parse_frontmatter MiniYaml.engine out = Some ([("a", YNum 1)], body).
Proof.
  eexists. split; [vm_compute; reflexivity|]. split; [vm_compute; reflexivity|].
  apply (@C7_fix_references_keeps_frontmatter MiniYaml.engine
           (text ["---"; "a: 1"; "---"; "see [x](b.md)"]) [("b", YStr "7")] "a.md" []
           [("confluenceBaseUrl", JStr "https://w"); ("confluenceSpaceKey", JStr "S")]
           [("a", YNum 1)] "see [x](b.md)").
  - vm_compute. reflexivity.
  - vm_compute. reflexivity.
  - repeat constructor. intros [].
  - left. vm_compute. reflexivity.
  - vm_compute. reflexivity.
Defined.

(** ** [updateOriginalFiles] *)

Lemma spread_get {V} (a b : list (string * V)) (k : string) :
  NoDup (map fst b) ->
  assoc_get (spread a b) k = match assoc_get b k with Some v => Some v | None => last_write k a end.
Proof.
  intros Hn. rewrite spread_fold, assoc_get_fold_set, last_write_nodup by exact Hn.
  rewrite assoc_get_fold_set. destruct (assoc_get b k); [reflexivity|].
  destruct (last_write k a); reflexivity.
Qed.

Lemma assoc_get_spread_nil {V} (ex : list (string * V)) (k : string) :
  assoc_get (spread [] ex) k = last_write k ex.
Proof.
  rewrite spread_fold, assoc_get_fold_set. destruct (last_write k ex); reflexivity.
Qed.

(** [Object.assign({}, a, m)]: [m]'s values, else the last of [a]. *)
Lemma assign_get {V} (a m : list (string * V)) (k : string) :
  NoDup (map fst m) ->
  assoc_get (spread (spread [] a) m) k = or_else (assoc_get m k) (last_write k a).
Proof.
  intros Hn. rewrite spread_get by exact Hn.
  rewrite last_write_nodup by apply nodup_spread. rewrite assoc_get_spread_nil.
  destruct (assoc_get m k); reflexivity.
Qed.

Lemma uof_nf_nodup (pim skm : list (string * string)) (p n : string) (d : fm) :
  NoDup (map fst (uof_new_frontmatter pim skm p n d)).
Proof.
  unfold uof_new_frontmatter.
  destruct (truthy (assoc_get d "connie-blog-post-date")); repeat apply nodup_set;
    apply nodup_fold; constructor.
Qed.

Lemma uof_file_spec `{YamlEngine} (pim skm : list (string * string)) (p n c c' : string) (d : fm) (body : string) :
  gm_matter c = Some (d, body) -> uof_file pim skm p n c = Some c' ->
  gm_stringify body (spread d (uof_new_frontmatter pim skm p n d)) = Some c'.
Proof.
  intros Hg Hu. unfold uof_file, parse_frontmatter, update_frontmatter in Hu.
  rewrite Hg in Hu. exact Hu.
Qed.

Lemma uof_content_type_get (pim skm : list (string * string)) (p n : string) (d : fm) :
  assoc_get (uof_new_frontmatter pim skm p n d) "connie-content-type" =
  Some (if truthy (assoc_get d "connie-blog-post-date") then YStr "blogpost"
        else or_default (assoc_get d "connie-content-type") (YStr "page")).
Proof.
  unfold uof_new_frontmatter.
  destruct (truthy (assoc_get d "connie-blog-post-date")); apply assoc_get_set_eq.
Qed.

(** Reads of the keys [newFrontmatter] neither sets after the spread nor
    sets through the identifier part. *)
Lemma uof_base_get (pim skm : list (string * string)) (p n : string) (d : fm) (k : string) :
  k <> "connie-content-type" -> k <> "connie-blog-post-date" ->
  assoc_get (uof_new_frontmatter pim skm p n d) k =
  assoc_get (fold_left set_pair
    (d ++ (match assoc_get pim (normalize_path (strip_md p)) with
           | Some pid =>
               if String.eqb pid "" then []
               else [("connie-page-id", YStr pid);
                     ("connie-publish",
                        match assoc_get d "connie-publish" with Some v => v | None => YBool true end);
                     ("connie-space-key",
                        match assoc_get skm pid with
                        | Some sk => if String.eqb sk "" then or_default (assoc_get d "connie-space-key") YNull
                                     else YStr sk
                        | None => or_default (assoc_get d "connie-space-key") YNull
                        end)]
           | None => []
           end) ++
     [("connie-title", or_default (assoc_get d "connie-title") (YStr (basename_md n)));
      ("connie-dont-change-parent-page",
         or_default (assoc_get d "connie-dont-change-parent-page") (YBool false))]) []) k.
Proof.
  intros H1 H2. unfold uof_new_frontmatter.
  destruct (truthy (assoc_get d "connie-blog-post-date"));
    rewrite ?assoc_get_set_neq by congruence; reflexivity.
Qed.

Lemma uof_title_get (pim skm : list (string * string)) (p n : string) (d : fm) :
  assoc_get (uof_new_frontmatter pim skm p n d) "connie-title" =
  Some (or_default (assoc_get d "connie-title") (YStr (basename_md n))).
Proof.
  rewrite uof_base_get by discriminate. rewrite assoc_get_fold_set, !last_write_app. reflexivity.
Qed.

Lemma uof_dont_change_parent_get (pim skm : list (string * string)) (p n : string) (d : fm) :
  assoc_get (uof_new_frontmatter pim skm p n d) "connie-dont-change-parent-page" =
  Some (or_default (assoc_get d "connie-dont-change-parent-page") (YBool false)).
Proof.
  rewrite uof_base_get by discriminate. rewrite assoc_get_fold_set, !last_write_app. reflexivity.
Qed.

Lemma uof_other_get (pim skm : list (string * string)) (p n : string) (d : fm) (k : string) :
  NoDup (map fst d) ->
  ~ In k uof_default_keys ->
  (In k uof_id_keys -> assoc_get pim (normalize_path (strip_md p)) = None) ->
  assoc_get (uof_new_frontmatter pim skm p n d) k = assoc_get d k.
Proof.
  intros Hn Hk Hid.
  assert (Hct : k <> "connie-content-type") by (intro E; apply Hk; subst; right; right; left; reflexivity).
  assert (Hbase : k <> "connie-blog-post-date" ->
    assoc_get (uof_new_frontmatter pim skm p n d) k = assoc_get d k).
  { intros Hd. rewrite uof_base_get by assumption. rewrite assoc_get_fold_set, !last_write_app.
    assert (Ht : last_write k
      [("connie-title", or_default (assoc_get d "connie-title") (YStr (basename_md n)));
       ("connie-dont-change-parent-page",
          or_default (assoc_get d "connie-dont-change-parent-page") (YBool false))] = None).
    { apply last_write_notin. simpl. intros [E|[E|[]]]; apply Hk; subst;
        [left|right; left]; reflexivity. }
    rewrite Ht.
    destruct (assoc_get pim (normalize_path (strip_md p))) as [pid|] eqn:Ep;
      [destruct (String.eqb pid "")|].
    all: try (rewrite last_write_notin with (l := []) by (intros []); rewrite last_write_nodup by exact Hn;
              destruct (assoc_get d k); reflexivity).
    rewrite last_write_notin.
    - rewrite last_write_nodup by exact Hn. destruct (assoc_get d k); reflexivity.
    - intros Hi. simpl in Hi. discriminate (Hid Hi). }
  destruct (String.eqb k "connie-blog-post-date") eqn:Ed; [|apply Hbase; apply String.eqb_neq; exact Ed].
  apply String.eqb_eq in Ed. subst k.
  unfold uof_new_frontmatter. destruct (truthy (assoc_get d "connie-blog-post-date")) eqn:Et.
  - rewrite assoc_get_set_neq by discriminate. rewrite assoc_get_set_eq.
    destruct (assoc_get d "connie-blog-post-date"); [reflexivity|discriminate].
  - rewrite assoc_get_set_neq by discriminate. rewrite assoc_get_fold_set, !last_write_app.
    rewrite (last_write_notin "connie-blog-post-date" [_; _]) by (simpl; intros [E|[E|[]]]; discriminate).
    destruct (assoc_get pim (normalize_path (strip_md p))) as [pid|];
      [destruct (String.eqb pid "")|].
    all: try rewrite (last_write_notin "connie-blog-post-date" [_; _; _]) by (simpl; intros [E|[E|[E|[]]]]; discriminate).
    all: try rewrite (last_write_notin "connie-blog-post-date" []) by (intros []).
    all: rewrite last_write_nodup by exact Hn; destruct (assoc_get d "connie-blog-post-date"); reflexivity.
Qed.

(** The merged mapping [{...existing, ...newFrontmatter}] reads a key of
    [newFrontmatter] first. *)
Lemma uof_merged_get (pim skm : list (string * string)) (p n : string) (d : fm) (k : string) (v : yval) :
  assoc_get (uof_new_frontmatter pim skm p n d) k = Some v ->
  assoc_get (spread d (uof_new_frontmatter pim skm p n d)) k = Some v.
Proof. intros H. rewrite spread_get by apply uof_nf_nodup. rewrite H. reflexivity. Qed.

Lemma uof_merged_other (pim skm : list (string * string)) (p n : string) (d : fm) (k : string) :
  NoDup (map fst d) ->
  ~ In k uof_default_keys ->
  (In k uof_id_keys -> assoc_get pim (normalize_path (strip_md p)) = None) ->
  assoc_get (spread d (uof_new_frontmatter pim skm p n d)) k = assoc_get d k.
Proof.
  intros Hn Hk Hid. rewrite spread_get by apply uof_nf_nodup.
  rewrite uof_other_get by assumption. rewrite last_write_nodup by exact Hn.
  destruct (assoc_get d k); reflexivity.
Qed.

Lemma uof_entry_files `{YamlEngine} (pim skm : list (string * string)) (e : dirent) :
  forall rel e', uof_entry pim skm rel e = Some e' ->
  Forall2 (fun x y : string * string * string =>
             let '(p, n, c) := x in let '(p', n', c') := y in
             p' = p /\ n' = n /\ uof_file pim skm p n c = Some c')
          (md_entries rel e) (md_entries rel e').
Proof.
  induction e as [name content|name es IH] using dirent_ind'; intros rel e' He.
  - cbn [uof_entry] in He. cbn [md_entries].
    destruct (is_md name) eqn:Em.
    + destruct (uof_file pim skm (path_join rel name) name content) as [c'|] eqn:Eu; [|discriminate].
      injection He as <-. cbn [md_entries]. rewrite Em. constructor; [auto|constructor].
    + injection He as <-. cbn [md_entries]. rewrite Em. constructor.
  - cbn [uof_entry] in He.
    destruct ((fix go (es : list dirent) : option (list dirent) :=
            match es with
            | [] => Some []
            | e' :: es' =>
                match uof_entry pim skm (path_join rel name) e' with
                | Some e'' => option_map (cons e'') (go es')
                | None => None
                end
            end) es) as [es'|] eqn:Ego; [|discriminate].
    injection He as <-. cbn [md_entries].
    revert es' Ego. induction IH as [|e es He1 Hes IHes]; intros es' Ego.
    + injection Ego as <-. constructor.
    + destruct (uof_entry pim skm (path_join rel name) e) as [e''|] eqn:E1; [|discriminate].
      destruct ((fix go (es : list dirent) : option (list dirent) :=
            match es with
            | [] => Some []
            | e' :: es' =>
                match uof_entry pim skm (path_join rel name) e' with
                | Some e'' => option_map (cons e'') (go es')
                | None => None
                end
            end) es) as [es1|] eqn:E2; [|discriminate].
      injection Ego as <-. cbn [flat_map]. apply Forall2_app; [apply He1; exact E1|].
      apply IHes. reflexivity.
Qed.

(** C6 (counterexample): a page whose frontmatter already says
    [connie-content-type: blogpost] but has no [connie-blog-post-date]
    keeps the content type ["blogpost"]. *)
Lemma C6_counterexample :
  option_map (fun c => option_map (fun r => (assoc_get (fst r) "connie-blog-post-date",
                                             assoc_get (fst r) "connie-content-type"))
                                  (@parse_frontmatter MiniYaml.engine c))
    (@uof_file MiniYaml.engine [] [] "post.md" "post.md"
       (text ["---"; "connie-content-type: blogpost"; "---"; "x"]))
  = Some (Some (None, Some (YStr "blogpost"))).
Proof. vm_compute. reflexivity. Qed.

(** C6 (amended): for every markdown document rewritten by the walk of
    [updateOriginalFiles], the written file is [matter.stringify(body,
    merged)] with [merged = {...existing, ...newFrontmatter}].  That call
    re-parses [body] and dumps [Object.assign({}, d1, merged)], [d1] being
    the data of a block the body itself starts with (none for most
    bodies).  In the mapping dumped, [connie-content-type] is ["blogpost"]
    when [connie-blog-post-date] is truthy, and otherwise the existing
    [connie-content-type] when that is truthy, else ["page"]: a truthy date
    forces ["blogpost"], but without one an existing ["blogpost"] is kept. *)
Theorem C6_content_type `{YamlEngine} (pim skm : list (string * string)) (p n c c' : string)
    (d : fm) (body : string) :
  gm_matter c = Some (d, body) ->
  uof_file pim skm p n c = Some c' ->
  gm_stringify body (spread d (uof_new_frontmatter pim skm p n d)) = Some c' /\
  exists d1 c1, gm_matter body = Some (d1, c1) /\
  assoc_get (spread (spread [] d1) (spread d (uof_new_frontmatter pim skm p n d))) "connie-content-type" =
  Some (if truthy (assoc_get d "connie-blog-post-date") then YStr "blogpost"
        else or_default (assoc_get d "connie-content-type") (YStr "page")).
Proof.
  intros Hg Hu. pose proof (uof_file_spec pim skm p n c c' d body Hg Hu) as Hs.
  split; [exact Hs|].
  destruct (gm_stringify_inv _ _ _ Hs) as (d1 & c1 & out & Hb & _ & _).
  exists d1, c1. split; [exact Hb|].
  rewrite assign_get by apply nodup_spread.
  rewrite (uof_merged_get _ _ _ _ _ _ _ (uof_content_type_get pim skm p n d)). reflexivity.
Qed.

Lemma C6_content_type_witness :
  @gm_matter MiniYaml.engine (text ["---"; "connie-blog-post-date: 2024-01-02"; "---"; "x"])
    = Some ([("connie-blog-post-date", YStr "2024-01-02")], "x") /\
  @uof_file MiniYaml.engine [] [] "post.md" "post.md"
    (text ["---"; "connie-blog-post-date: 2024-01-02"; "---"; "x"])
    = Some (text ["---"; "connie-blog-post-date: 2024-01-02"; "connie-title: post";
                  "connie-dont-change-parent-page: false"; "connie-content-type: blogpost"; "---"; "x"; ""]) /\
  (@gm_stringify MiniYaml.engine "x"
     (spread [("connie-blog-post-date", YStr "2024-01-02")]
        (uof_new_frontmatter [] [] "post.md" "post.md" [("connie-blog-post-date", YStr "2024-01-02")]))
   = Some (text ["---"; "connie-blog-post-date: 2024-01-02"; "connie-title: post";
                 "connie-dont-change-parent-page: false"; "connie-content-type: blogpost"; "---"; "x"; ""]) /\
   exists d1 c1, @gm_matter MiniYaml.engine "x" = Some (d1, c1) /\
   assoc_get (spread (spread [] d1)
                (spread [("connie-blog-post-date", YStr "2024-01-02")]
                   (uof_new_frontmatter [] [] "post.md" "post.md" [("connie-blog-post-date", YStr "2024-01-02")])))
     "connie-content-type" =
   Some (if truthy (assoc_get [("connie-blog-post-date", YStr "2024-01-02")] "connie-blog-post-date")
         then YStr "blogpost"
         else or_default (assoc_get [("connie-blog-post-date", YStr "2024-01-02")] "connie-content-type")
                (YStr "page"))).
Proof.
  split; [vm_compute; reflexivity|]. split; [vm_compute; reflexivity|].
  apply (@C6_content_type MiniYaml.engine [] [] "post.md" "post.md"
           (text ["---"; "connie-blog-post-date: 2024-01-02"; "---"; "x"]));
    vm_compute; reflexivity.
Defined.

(** C10 (counterexample): a file with a [connie-blog-post-date] and no
    [connie-content-type], matching no extracted identifier, is written
    back with content type ["blogpost"], not the default ["page"]. *)
Lemma C10_counterexample :
  match @update_original_files MiniYaml.engine None
          [DFile "post.md" (text ["---"; "connie-blog-post-date: 2024-01-02"; "---"; "x"])] with
  | Some ([DFile _ c'], _, _) =>
      option_map (fun r => assoc_get (fst r) "connie-content-type") (@parse_frontmatter MiniYaml.engine c')
      = Some (Some (YStr "blogpost"))
  | _ => False
  end.
Proof. vm_compute. reflexivity. Qed.

(** C10 (amended): [updateOriginalFiles] rewrites every markdown file of
    the tree it walks, in visiting order, whether or not its path matches
    an extracted identifier.  Each file [c] with frontmatter [existing] and
    body [body] becomes [matter.stringify(body, merged)] with [merged =
    {...existing, ...newFrontmatter}]; that call re-parses [body] into data
    [d1] and content [c1] (no data and [body] itself unless [body] starts
    with ['---']) and writes [Object.assign({}, d1, merged)] above [c1].
    In the mapping written, [connie-title] is the existing title when
    truthy, else the file name without [.md];
    [connie-dont-change-parent-page] is the existing value when truthy,
    else [false]; [connie-content-type] is ["blogpost"] when
    [connie-blog-post-date] is truthy, else the existing value when truthy,
    else ["page"]; and every other key (for a frontmatter without duplicate
    keys) has its existing value, or when there is none the one [d1] gives
    it, the three identifier keys included when the file's path matches no
    extracted identifier. *)
Theorem C10_update_original_files `{YamlEngine} (output : option string) (root root' : list dirent)
    (pim skm : list (string * string)) :
  update_original_files output root = Some (root', pim, skm) ->
  Forall2 (fun x y : string * string * string =>
    let '(p, n, c) := x in let '(p', n', c') := y in
    p' = p /\ n' = n /\
    exists d body d1 c1, gm_matter c = Some (d, body) /\
    gm_stringify body (spread d (uof_new_frontmatter pim skm p n d)) = Some c' /\
    gm_matter body = Some (d1, c1) /\
    let w := spread (spread [] d1) (spread d (uof_new_frontmatter pim skm p n d)) in
    assoc_get w "connie-title" =
      Some (or_default (assoc_get d "connie-title") (YStr (basename_md n))) /\
    assoc_get w "connie-dont-change-parent-page" =
      Some (or_default (assoc_get d "connie-dont-change-parent-page") (YBool false)) /\
    assoc_get w "connie-content-type" =
      Some (if truthy (assoc_get d "connie-blog-post-date") then YStr "blogpost"
            else or_default (assoc_get d "connie-content-type") (YStr "page")) /\
    (NoDup (map fst d) -> forall k, ~ In k uof_default_keys ->
       (In k uof_id_keys -> assoc_get pim (normalize_path (strip_md p)) = None) ->
       assoc_get w k = or_else (assoc_get d k) (last_write k d1)))
  (md_entries "" (DDir "" root)) (md_entries "" (DDir "" root')).
Proof.
  unfold update_original_files. destruct (uof_maps output) as [pim0 skm0].
  destruct (uof_entry pim0 skm0 "" (DDir "" root)) as [[name c|name es]|] eqn:E;
    try discriminate.
  intros Hu. injection Hu as -> -> ->.
  assert (Hname : name = "").
  { cbn [uof_entry] in E. unfold option_map in E.
    destruct (_ : option (list dirent)); [|discriminate]. injection E as <- _. reflexivity. }
  subst name.
  pose proof (uof_entry_files pim skm (DDir "" root) "" _ E) as HF.
  revert HF. apply Forall2_impl.
  intros [[p n] c] [[p' n'] c'] [-> [-> Hf]]. split; [reflexivity|]. split; [reflexivity|].
  destruct (gm_matter c) as [[d body]|] eqn:Hg;
    [|unfold uof_file, parse_frontmatter in Hf; rewrite Hg in Hf; discriminate].
  pose proof (uof_file_spec pim skm p n c c' d body Hg Hf) as Hs.
  destruct (gm_stringify_inv _ _ _ Hs) as (d1 & c1 & out & Hb & _ & _).
  exists d, body, d1, c1. split; [reflexivity|]. split; [exact Hs|]. split; [exact Hb|].
  cbv zeta. rewrite !assign_get by apply nodup_spread.
  split; [rewrite (uof_merged_get _ _ _ _ _ _ _ (uof_title_get pim skm p n d)); reflexivity|].
  split; [rewrite (uof_merged_get _ _ _ _ _ _ _ (uof_dont_change_parent_get pim skm p n d)); reflexivity|].
  split; [rewrite (uof_merged_get _ _ _ _ _ _ _ (uof_content_type_get pim skm p n d)); reflexivity|].
  intros Hn k Hk Hid. rewrite assign_get by apply nodup_spread.
  rewrite uof_merged_other by assumption. reflexivity.
Qed.

Lemma C10_update_original_files_witness :
  exists root',
    @update_original_files MiniYaml.engine None
      [DFile "post.md" (text ["---"; "a: 1"; "---"; "x"]); DFile "notes.txt" "n"]
      = Some (root', [], []) /\
    Forall2 (fun x y : string * string * string =>
      let '(p, n, c) := x in let '(p', n', c') := y in
      p' = p /\ n' = n /\
      exists d body d1 c1, @gm_matter MiniYaml.engine c = Some (d, body) /\
      @gm_stringify MiniYaml.engine body (spread d (uof_new_frontmatter [] [] p n d)) = Some c' /\
      @gm_matter MiniYaml.engine body = Some (d1, c1) /\
      let w := spread (spread [] d1) (spread d (uof_new_frontmatter [] [] p n d)) in
      assoc_get w "connie-title" =
        Some (or_default (assoc_get d "connie-title") (YStr (basename_md n))) /\
      assoc_get w "connie-dont-change-parent-page" =
        Some (or_default (assoc_get d "connie-dont-change-parent-page") (YBool false)) /\
      assoc_get w "connie-content-type" =
        Some (if truthy (assoc_get d "connie-blog-post-date") then YStr "blogpost"
              else or_default (assoc_get d "connie-content-type") (YStr "page")) /\
      (NoDup (map fst d) -> forall k, ~ In k uof_default_keys ->
         (In k uof_id_keys -> assoc_get (V := string) [] (normalize_path (strip_md p)) = None) ->
         assoc_get w k = or_else (assoc_get d k) (last_write k d1)))
    (md_entries "" (DDir "" [DFile "post.md" (text ["---"; "a: 1"; "---"; "x"]); DFile "notes.txt" "n"]))
    (md_entries "" (DDir "" root')).
Proof.
  eexists. split; [vm_compute; reflexivity|].
  apply (@C10_update_original_files MiniYaml.engine None). vm_compute. reflexivity.
Defined.

(* ------------------------------------------------------------------ *)
(** ** Restoring the configuration *)

Lemma mirror_exists_remove (s : fsys) : mirror_exists (remove_mirror s) = false.
Proof.
  unfold mirror_exists, remove_mirror, set_docs. cbn [docs].
  induction (docs s) as [|e l IH]; [reflexivity|].
  cbn [filter]. destruct (String.eqb (dirent_name e) FIXED_REFS_DIR) eqn:He; cbn [negb].
  - exact IH.
  - cbn [existsb]. rewrite He. exact IH.
Qed.

Lemma publish_finally_config (E : env) (o : config) (s : fsys) :
  config_file (publish_finally E o s) = Some (json_stringify (JObj o)).
Proof.
  unfold publish_finally.
  destruct (mirror_exists _), (rm_fails E); reflexivity.
Qed.

Lemma publish_finally_mirror (E : env) (o : config) (s : fsys) :
  rm_fails E = false -> mirror_exists (publish_finally E o s) = false.
Proof.
  intros Hr. unfold publish_finally. rewrite Hr.
  set (t := set_config s _).
  destruct (mirror_exists t) eqn:Hm; [apply mirror_exists_remove|exact Hm].
Qed.

(** C1 (counterexample): with the configuration ["{}"] and a first
    publish that fails, the call rejects and the mirror is removed, but the
    configuration file now holds the pretty-printed configuration with the
    two ignore patterns, not ["{}"].  With the configuration ["[]"] (an
    array) the run goes on in the same way and the file ends up holding
    an object: the ignore list became a named property of the array, which
    [{...config}] copies. *)
Lemma C1_counterexample :
  let E := mk_env (fun _ s => (s, None)) (fun s => (s, true)) false false in
  let s := mk_fsys (Some "{}") [DDir FIXED_REFS_DIR []] true in
  let sa := mk_fsys (Some "[]") [DDir FIXED_REFS_DIR []] true in
  (let '(s', tr, r) := @publish_to_confluence MiniYaml.engine MiniJson.parser E "." s in
   tr = [SFirstPublish] /\ r = Failed /\ mirror_exists s' = false /\
   config_file s' = Some (json_stringify (JObj [("ignore", JArr [JStr "images"; JStr "assets/images"])])) /\
   config_file s' <> config_file s) /\
  (let '(s', tr, r) := @publish_to_confluence MiniYaml.engine MiniJson.parser E "." sa in
   tr = [SFirstPublish] /\ r = Failed /\ mirror_exists s' = false /\
   config_file s' = Some (json_stringify (JObj [("ignore", JArr [JStr "images"; JStr "assets/images"])])) /\
   config_file s' <> config_file sa).
Proof. vm_compute. repeat split; discriminate. Qed.

(** C1 (amended): [publishToConfluence] rejects before its [try] block,
    with every file as it was, when reading or parsing the configuration
    throws, when it parses to [null], a string, a number or a boolean, when
    adding the ignore patterns throws, or when, with [DEBUG] set, logging
    the ignore list throws.  Past that point (an object, or an array), the
    [finally] block runs whatever the outcome: the configuration file holds
    [JSON.stringify({...config}, null, 2)] of the configuration with the
    ignore patterns added (not the original text; for an array, an object
    with its items under ["0"], ["1"], ... and the ignore list), and the
    mirror is gone unless removing it throws; when the first publish
    fails, the call rejects with the first publish as its last step. *)
Theorem C1_publish_restores_config `{YamlEngine} `{JsonParser} (E : env) (docs_folder : string) (s : fsys) :
  let '(s', tr, r) := publish_to_confluence E docs_folder s in
  match prepare_config (debug_on E) s with
  | None => s' = s /\ tr = [] /\ r = Failed
  | Some cfg =>
      config_file s' = Some (json_stringify (JObj (spread [] (own_props cfg)))) /\
      (rm_fails E = false -> mirror_exists s' = false) /\
      ((forall s0, snd (exec_publish E 0 s0) = None) ->
       r = Failed /\ (tr = [] \/ tr = [SFirstPublish]))
  end.
Proof.
  unfold publish_to_confluence.
  destruct (prepare_config (debug_on E) s) as [cfg|] eqn:Hp; [|repeat split].
  destruct (publish_try E docs_folder cfg s) as [[s1 tr] r] eqn:Ht.
  split; [apply publish_finally_config|].
  split; [apply publish_finally_mirror|].
  intros Hf. unfold publish_try in Ht.
  destruct (negb (mirror_exists _)); [injection Ht as _ <- <-; auto|].
  destruct (negb (script_present _)); [injection Ht as _ <- <-; auto|].
  match type of Ht with context [exec_publish E 0 ?x] =>
    specialize (Hf x); destruct (exec_publish E 0 x) as [s2 out] end.
  cbn [snd] in Hf. subst out. injection Ht as _ <- <-. auto.
Qed.

(** Which of the configuration files below [prepare_config] lets through:
    an object and an array go on, [null] and a number stop the call, and
    with [DEBUG] set so does an ignore list holding an object with a
    [toString] property. *)
Lemma prepare_config_cases :
  let mk t := mk_fsys (Some t) [] true in
  @prepare_config MiniJson.parser false (mk "[]")
    = Some (VArr [] [("ignore", JArr [JStr "images"; JStr "assets/images"])]) /\
  @prepare_config MiniJson.parser false (mk "null") = None /\
  @prepare_config MiniJson.parser false (mk "5") = None /\
  @prepare_config MiniJson.parser true
     (mk ("{" ++ String dquote "ignore" ++ String dquote ": [{" ++ String dquote "toString" ++
          String dquote ": 1}]}")) = None /\
  @prepare_config MiniJson.parser false
     (mk ("{" ++ String dquote "ignore" ++ String dquote ": [{" ++ String dquote "toString" ++
          String dquote ": 1}]}")) <> None.
Proof. vm_compute. repeat split; discriminate. Qed.

Lemma C1_publish_restores_config_witness :
  let E := mk_env (fun _ s => (s, None)) (fun s => (s, true)) false false in
  let s := mk_fsys (Some "[]") [DDir FIXED_REFS_DIR []] true in
  let '(s', tr, r) := @publish_to_confluence MiniYaml.engine MiniJson.parser E "." s in
  match @prepare_config MiniJson.parser (debug_on E) s with
  | None => s' = s /\ tr = [] /\ r = Failed
  | Some cfg =>
      config_file s' = Some (json_stringify (JObj (spread [] (own_props cfg)))) /\
      (rm_fails E = false -> mirror_exists s' = false) /\
      ((forall s0, snd (exec_publish E 0 s0) = None) ->
       r = Failed /\ (tr = [] \/ tr = [SFirstPublish]))
  end.
Proof.
  intros E s. exact (@C1_publish_restores_config MiniYaml.engine MiniJson.parser E "." s).
Defined.

(* ------------------------------------------------------------------ *)
(** ** [hasNewIds] *)

Lemma upi_file_has `{YamlEngine} (pim : list (string * (string * string))) (p n c : string)
    (b : bool) (c' : string) :
  upi_file pim p n c = Some (b, c') -> b = assoc_has pim p.
Proof.
  unfold upi_file, assoc_has.
  destruct (parse_frontmatter c) as [[ex rest]|]; [|discriminate].
  destruct (assoc_get pim p) as [[pid sk]|].
  - destruct (title_blank _) as [blank|]; [|discriminate].
    destruct (update_frontmatter _ _); [|discriminate].
    cbn. intros Hs. injection Hs as <- _. reflexivity.
  - intros Hs. injection Hs as <- _. reflexivity.
Qed.

Lemma upi_entry_has `{YamlEngine} (pim : list (string * (string * string))) (e : dirent) :
  forall rel b e', upi_entry pim rel e = Some (b, e') ->
  b = existsb (has_page_info pim) (md_entries rel e).
Proof.
  induction e as [name content|name es IH] using dirent_ind'; intros rel b e' He.
  - cbn [upi_entry] in He. cbn [md_entries].
    destruct (is_md name).
    + destruct (upi_file pim (path_join rel name) name content) as [[b1 c1]|] eqn:Eu;
        [|discriminate].
      injection He as <- _. cbn. rewrite orb_false_r.
      exact (upi_file_has pim _ _ _ _ _ Eu).
    + injection He as <- _. reflexivity.
  - cbn [upi_entry] in He. cbn [md_entries].
    destruct ((fix go (es : list dirent) : option (bool * list dirent) :=
            match es with
            | [] => Some (false, [])
            | e' :: es' =>
                match upi_entry pim (path_join rel name) e' with
                | Some (b, e'') => option_map (fun p => (b || fst p, e'' :: snd p)) (go es')
                | None => None
                end
            end) es) as [[b1 es1]|] eqn:Ego; [|discriminate].
    injection He as <- _. cbn [fst].
    revert b1 es1 Ego. induction IH as [|e es He1 Hes IHes]; intros b1 es1 Ego.
    + injection Ego as <- _. reflexivity.
    + destruct (upi_entry pim (path_join rel name) e) as [[b2 e2]|] eqn:E1; [|discriminate].
      destruct ((fix go (es : list dirent) : option (bool * list dirent) :=
            match es with
            | [] => Some (false, [])
            | e' :: es' =>
                match upi_entry pim (path_join rel name) e' with
                | Some (b, e'') => option_map (fun p => (b || fst p, e'' :: snd p)) (go es')
                | None => None
                end
            end) es) as [[b3 es3]|] eqn:E2; [|discriminate].
      injection Ego as <- _. cbn [flat_map fst]. rewrite existsb_app.
      rewrite (He1 _ _ _ E1). f_equal. apply (IHes b3 es3). reflexivity.
Qed.

Lemma update_page_ids_has `{YamlEngine} (out : string) (root d : list dirent) (hn : bool) :
  update_page_ids out root = Some (hn, d) ->
  hn = existsb (has_page_info (page_info_map out)) (md_entries "" (DDir "" root)).
Proof.
  unfold update_page_ids.
  destruct (upi_entry (page_info_map out) "" (DDir "" root)) as [[b e]|] eqn:E; [|discriminate].
  destruct e; [discriminate|]. intros Hs. injection Hs as <- _.
  exact (upi_entry_has _ _ _ _ _ E).
Qed.

(** C2 (counterexample): [a.md] already carries [connie-page-id: 1]; the
    publisher reports it with the same identifier, [hasNewIds] is true and
    the reference pass and the second publish run. *)
Lemma C2_counterexample :
  let line := "SUCCESS: a.md Content: x Page URL: https://coreljira.atlassian.net/wiki/spaces/S/pages/1" in
  let E := mk_env (fun _ s => (s, Some line)) (fun s => (s, true)) false false in
  let doc := text ["---"; "connie-page-id: 1"; "---"; "x"] in
  let s := mk_fsys (Some "{}") [DDir FIXED_REFS_DIR []; DFile "a.md" doc] true in
  option_map (fun r => assoc_get (fst r) "connie-page-id") (@parse_frontmatter MiniYaml.engine doc)
    = Some (Some (YNum 1)) /\
  option_map fst (@update_page_ids MiniYaml.engine line [DFile "a.md" doc]) = Some true /\
  snd (@publish_to_confluence MiniYaml.engine MiniJson.parser E "." s) = Done /\
  snd (fst (@publish_to_confluence MiniYaml.engine MiniJson.parser E "." s))
    = [SFirstPublish; SUpdatePageIds; SProcessReferences; SSecondPublish].
Proof. vm_compute. repeat split. Qed.

(** C2 (amended): after a first publish that prints [out], [hasNewIds]
    is true exactly when some markdown file of the docs folder (the mirror
    included) has a relative path that a [SUCCESS] line of [out] names,
    whether or not the file already carried that page identifier.  When it
    is false the run ends after [updatePageIds], without the reference pass
    and the second publish.  When it is true the reference pass is reached,
    unless the mirror still exists and removing it throws: then the call
    rejects right after [updatePageIds]. *)
Theorem C2_has_new_ids `{YamlEngine} `{JsonParser} (E : env) (docs_folder : string)
    (s s2 : fsys) (cfg : jsval) (out : string) (hn : bool) (d : list dirent) :
  prepare_config (debug_on E) s = Some cfg ->
  mirror_exists s = true ->
  script_present s = true ->
  exec_publish E 0 (set_config s (run_config_text docs_folder cfg)) = (s2, Some out) ->
  update_page_ids out (docs s2) = Some (hn, d) ->
  hn = existsb (has_page_info (page_info_map out)) (md_entries "" (DDir "" (docs s2))) /\
  (hn = false ->
   snd (fst (publish_to_confluence E docs_folder s)) = [SFirstPublish; SUpdatePageIds] /\
   snd (publish_to_confluence E docs_folder s) = Done) /\
  (hn = true ->
   (rm_fails E = false \/ mirror_exists (set_docs s2 d) = false ->
    In SProcessReferences (snd (fst (publish_to_confluence E docs_folder s)))) /\
   (rm_fails E = true -> mirror_exists (set_docs s2 d) = true ->
    snd (fst (publish_to_confluence E docs_folder s)) = [SFirstPublish; SUpdatePageIds] /\
    snd (publish_to_confluence E docs_folder s) = Failed)).
Proof.
  intros Hp Hm Hs He Hu.
  split; [exact (update_page_ids_has _ _ _ _ Hu)|].
  unfold publish_to_confluence. rewrite Hp.
  unfold publish_try.
  replace (mirror_exists (set_config s (run_config_text docs_folder cfg))) with true
    by (rewrite <- Hm; reflexivity).
  replace (script_present (set_config s (run_config_text docs_folder cfg))) with true
    by (rewrite <- Hs; reflexivity).
  cbn [negb]. rewrite He, Hu.
  split.
  - intros ->. split; reflexivity.
  - intros ->. split.
    + intros Hr.
      replace (mirror_exists (set_docs s2 d) && rm_fails E) with false
        by (destruct Hr as [-> | ->]; [symmetry; apply andb_false_r|reflexivity]).
      destruct (process_references E _) as [s3 ok].
      destruct ok; cbn [negb].
      * destruct (exec_publish E 1 s3). cbn. auto.
      * cbn. auto.
    + intros Hr Hm2. rewrite Hr, Hm2. split; reflexivity.
Qed.

Lemma C2_has_new_ids_witness :
  let line := "SUCCESS: a.md Content: x Page URL: https://coreljira.atlassian.net/wiki/spaces/S/pages/1" in
  let E := mk_env (fun _ s => (s, Some line)) (fun s => (s, true)) false false in
  let doc := text ["---"; "connie-page-id: 1"; "---"; "x"] in
  let s := mk_fsys (Some "{}") [DDir FIXED_REFS_DIR []; DFile "a.md" doc] true in
  let cfg := VObj [("ignore", JArr [JStr "images"; JStr "assets/images"])] in
  let s2 := set_config s (run_config_text "." cfg) in
  let d := match @update_page_ids MiniYaml.engine line (docs s2) with Some p => snd p | None => [] end in
  (@prepare_config MiniJson.parser (debug_on E) s = Some cfg /\ mirror_exists s = true /\
   script_present s = true /\
   exec_publish E 0 (set_config s (run_config_text "." cfg)) = (s2, Some line) /\
   @update_page_ids MiniYaml.engine line (docs s2) = Some (true, d)) /\
  (true = existsb (has_page_info (page_info_map line)) (md_entries "" (DDir "" (docs s2))) /\
   (true = false ->
    snd (fst (@publish_to_confluence MiniYaml.engine MiniJson.parser E "." s)) = [SFirstPublish; SUpdatePageIds] /\
    snd (@publish_to_confluence MiniYaml.engine MiniJson.parser E "." s) = Done) /\
   (true = true ->
    (rm_fails E = false \/ mirror_exists (set_docs s2 d) = false ->
     In SProcessReferences (snd (fst (@publish_to_confluence MiniYaml.engine MiniJson.parser E "." s)))) /\
    (rm_fails E = true -> mirror_exists (set_docs s2 d) = true ->
     snd (fst (@publish_to_confluence MiniYaml.engine MiniJson.parser E "." s)) = [SFirstPublish; SUpdatePageIds] /\
     snd (@publish_to_confluence MiniYaml.engine MiniJson.parser E "." s) = Failed))).
Proof.
  intros line E doc s cfg s2 d.
  assert (H1 : @prepare_config MiniJson.parser (debug_on E) s = Some cfg) by (vm_compute; reflexivity).
  assert (H2 : mirror_exists s = true) by (vm_compute; reflexivity).
  assert (H3 : script_present s = true) by reflexivity.
  assert (H4 : exec_publish E 0 (set_config s (run_config_text "." cfg)) = (s2, Some line))
    by reflexivity.
  assert (H5 : @update_page_ids MiniYaml.engine line (docs s2) = Some (true, d))
    by (vm_compute; reflexivity).
  split; [auto|].
  exact (@C2_has_new_ids MiniYaml.engine MiniJson.parser E "." s s2 cfg line true d H1 H2 H3 H4 H5).
Defined.

(* ------------------------------------------------------------------ *)
(** ** The [SUCCESS] lines *)

(** C4 (counterexample): a [SUCCESS] line of an instance other than
    [coreljira.atlassian.net] registers nothing, in [updateOriginalFiles] as
    in [updatePageIds]; the same line on the hard-coded host registers
    ["a"] with page id ["1"] and space key ["S"]. *)
Lemma C4_counterexample :
  uof_maps (Some "SUCCESS: a.md Content: x Page URL: https://example.atlassian.net/wiki/spaces/S/pages/1")
    = ([], []) /\
  page_info_map "SUCCESS: a.md Content: x Page URL: https://example.atlassian.net/wiki/spaces/S/pages/1"
    = [] /\
  uof_maps (Some "SUCCESS: a.md Content: x Page URL: https://coreljira.atlassian.net/wiki/spaces/S/pages/1")
    = ([("a", "1")], [("1", "S")]).
Proof. vm_compute. repeat split. Qed.

(* ------------------------------------------------------------------ *)
(** ** Scanning links again *)

Lemma no_char_app (d : ascii) (a b : string) :
  no_char d (a ++ b) = no_char d a && no_char d b.
Proof. induction a as [|c a IH]; cbn; [reflexivity|]. rewrite IH, andb_assoc. reflexivity. Qed.

Lemma not_char_self (d : ascii) : not_char d d = false.
Proof. unfold not_char. rewrite Ascii.eqb_refl. reflexivity. Qed.

Lemma span_all (d : ascii) (a b : string) :
  no_char d a = true ->
  span (not_char d) (a ++ b) = (a ++ fst (span (not_char d) b), snd (span (not_char d) b)).
Proof.
  induction a as [|c a IH]; cbn [no_char String.append]; intros H.
  - destruct (span (not_char d) b); reflexivity.
  - apply andb_prop in H as [H1 H2]. cbn [span]. rewrite H1, (IH H2). reflexivity.
Qed.

Lemma span_stop (d : ascii) (r : string) :
  span (not_char d) (String d r) = (EmptyString, String d r).
Proof. cbn [span]. rewrite not_char_self. reflexivity. Qed.

Lemma span_upto (d : ascii) (a r : string) :
  no_char d a = true -> span (not_char d) (a ++ String d r) = (a, String d r).
Proof.
  intros H. rewrite (span_all d a _ H), span_stop. cbn. rewrite str_app_nil_r. reflexivity.
Qed.

Lemma span_spec (d : ascii) (s : string) :
  s = fst (span (not_char d) s) ++ snd (span (not_char d) s) /\
  no_char d (fst (span (not_char d) s)) = true.
Proof.
  induction s as [|c s [IH1 IH2]]; [split; reflexivity|].
  cbn [span]. destruct (not_char d c) eqn:E.
  - destruct (span (not_char d) s) as [a b]. cbn in *. rewrite E, IH2. split; [f_equal; exact IH1|reflexivity].
  - split; reflexivity.
Qed.

Lemma span_found (d : ascii) (s : string) :
  no_char d s = false -> snd (span (not_char d) s) <> EmptyString.
Proof.
  induction s as [|c s IH]; cbn [no_char]; [discriminate|].
  cbn [span]. destruct (not_char d c) eqn:E; cbn [andb].
  - intros H. specialize (IH H). destruct (span (not_char d) s). exact IH.
  - intros _. discriminate.
Qed.

Lemma span_first (d c : ascii) (s : string) :
  not_char d c = true -> fst (span (not_char d) (String c s)) <> EmptyString.
Proof. intros H. cbn [span]. rewrite H. destruct (span (not_char d) s). discriminate. Qed.

Lemma link_text_app (t u r : string) :
  link_text t u ++ r = String "[" (t ++ String "]" (String "(" (u ++ String ")" r))).
Proof.
  unfold link_text. rewrite !str_app_assoc. reflexivity.
Qed.

Lemma link_match_link (t u r : string) :
  wf_token (TLink t u) = true -> link_match (link_text t u ++ r) = Some (t, u, r).
Proof.
  cbn [wf_token]. intros H.
  apply andb_prop in H as [H Hu2]. apply andb_prop in H as [H Hu1].
  apply andb_prop in H as [Ht1 Ht2].
  rewrite link_text_app. cbn [link_match]. rewrite Ascii.eqb_refl.
  rewrite (span_upto "]" t _ Ht2).
  destruct t as [|ct t]; [discriminate|]. cbn [Ascii.eqb].
  change (Ascii.eqb "(" "(") with true. cbv iota.
  rewrite (span_upto ")" u _ Hu2).
  destruct u as [|cu u]; [discriminate|]. reflexivity.
Qed.

Lemma span_rest (d : ascii) (s : string) :
  match snd (span (not_char d) s) with EmptyString => True | String x _ => x = d end.
Proof.
  induction s as [|c s IH]; [exact I|]. cbn [span].
  destruct (not_char d c) eqn:E.
  - destruct (span (not_char d) s). exact IH.
  - cbn [snd]. unfold not_char in E. apply negb_false_iff, Ascii.eqb_eq in E. exact E.
Qed.

Lemma link_match_spec (s t u r : string) :
  link_match s = Some (t, u, r) -> s = link_text t u ++ r /\ wf_token (TLink t u) = true.
Proof.
  destruct s as [|c s1]; [discriminate|]. cbn [link_match].
  destruct (Ascii.eqb c "[") eqn:Ec; [|discriminate]. apply Ascii.eqb_eq in Ec. subst c.
  destruct (span_spec "]" s1) as [E1 N1]. pose proof (span_rest "]" s1) as R1.
  destruct (span (not_char "]") s1) as [t1 r1]. cbn [fst snd] in E1, N1, R1.
  destruct t1 as [|ct t1]; [discriminate|].
  destruct r1 as [|x [|c2 r2]]; try discriminate. subst x.
  destruct (Ascii.eqb c2 "(") eqn:E2; [|discriminate]. apply Ascii.eqb_eq in E2. subst c2.
  destruct (span_spec ")" r2) as [E3 N3]. pose proof (span_rest ")" r2) as R3.
  destruct (span (not_char ")") r2) as [u1 r3]. cbn [fst snd] in E3, N3, R3.
  destruct u1 as [|cu u1]; [discriminate|].
  destruct r3 as [|y r4]; [discriminate|]. subst y.
  intros H. injection H as <- <- <-. split.
  - rewrite link_text_app, E1, E3. reflexivity.
  - cbn [wf_token]. rewrite N1, N3. reflexivity.
Qed.

Lemma link_match_shorter (s t u r : string) :
  link_match s = Some (t, u, r) -> (String.length r < String.length s)%nat.
Proof.
  intros H. destruct (link_match_spec s t u r H) as [-> _].
  rewrite link_text_app. cbn [String.length]. rewrite length_app_str. cbn [String.length].
  rewrite length_app_str. cbn [String.length]. lia.
Qed.

Lemma scan_fuel_succ (n : nat) : forall s,
  (String.length s <= n)%nat -> scan_fuel (S n) s = scan_fuel n s.
Proof.
  induction n as [|n IH]; intros s Hl.
  - destruct s; [reflexivity|cbn in Hl; lia].
  - destruct s as [|c s']; [reflexivity|].
    change (scan_fuel (S (S n)) (String c s')) with
      (match link_match (String c s') with
       | Some (t, u, r) => TLink t u :: scan_fuel (S n) r
       | None => TChar c :: scan_fuel (S n) s'
       end).
    change (scan_fuel (S n) (String c s')) with
      (match link_match (String c s') with
       | Some (t, u, r) => TLink t u :: scan_fuel n r
       | None => TChar c :: scan_fuel n s'
       end).
    destruct (link_match (String c s')) as [[[t u] r]|] eqn:E.
    + apply link_match_shorter in E. rewrite IH; [reflexivity|cbn in *; lia].
    + rewrite IH; [reflexivity|cbn in *; lia].
Qed.

Lemma scan_fuel_enough (n : nat) (s : string) :
  (String.length s <= n)%nat -> scan_fuel n s = scan_links s.
Proof.
  intros Hl. unfold scan_links. induction Hl as [|n Hl IH]; [reflexivity|].
  rewrite scan_fuel_succ by exact Hl. exact IH.
Qed.

Lemma scan_links_nil : scan_links "" = [].
Proof. reflexivity. Qed.

Lemma scan_links_cons (c : ascii) (s : string) :
  scan_links (String c s) =
  match link_match (String c s) with
  | Some (t, u, r) => TLink t u :: scan_links r
  | None => TChar c :: scan_links s
  end.
Proof.
  unfold scan_links at 1. cbn [String.length scan_fuel].
  destruct (link_match (String c s)) as [[[t u] r]|] eqn:E.
  - apply link_match_shorter in E. rewrite scan_fuel_enough by (cbn in E; lia). reflexivity.
  - rewrite scan_fuel_enough by lia. reflexivity.
Qed.

Lemma scan_links_link (t u r : string) :
  wf_token (TLink t u) = true -> scan_links (link_text t u ++ r) = TLink t u :: scan_links r.
Proof.
  intros H. rewrite link_text_app, scan_links_cons, <- link_text_app, link_match_link by exact H.
  reflexivity.
Qed.

Lemma render_scan (s : string) : render (scan_links s) = s.
Proof.
  remember (String.length s) as n eqn:Hn. revert s Hn.
  induction n as [n IH] using lt_wf_ind. intros s Hn.
  destruct s as [|c s']; [reflexivity|].
  rewrite scan_links_cons.
  destruct (link_match (String c s')) as [[[t u] r]|] eqn:E.
  - pose proof (link_match_shorter _ _ _ _ E) as Hl.
    apply link_match_spec in E as [E _]. cbn [render]. rewrite E.
    f_equal. apply (IH (String.length r)); [lia|reflexivity].
  - cbn [render]. f_equal. apply (IH (String.length s')); [cbn in Hn; lia|reflexivity].
Qed.

Lemma scan_wf (s : string) : Forall (fun tk => wf_token tk = true) (scan_links s).
Proof.
  remember (String.length s) as n eqn:Hn. revert s Hn.
  induction n as [n IH] using lt_wf_ind. intros s Hn.
  destruct s as [|c s']; [constructor|].
  rewrite scan_links_cons.
  destruct (link_match (String c s')) as [[[t u] r]|] eqn:E.
  - pose proof (link_match_shorter _ _ _ _ E) as Hl.
    apply link_match_spec in E as [_ E]. constructor; [exact E|].
    apply (IH (String.length r)); [lia|reflexivity].
  - constructor; [reflexivity|]. apply (IH (String.length s')); [cbn in Hn; lia|reflexivity].
Qed.

Lemma no_char_link (t u r : string) : no_char ")" (link_text t u ++ r) = false.
Proof.
  rewrite link_text_app. cbn [no_char]. rewrite no_char_app. cbn [no_char].
  rewrite no_char_app. cbn [no_char]. rewrite not_char_self.
  repeat rewrite andb_false_r. reflexivity.
Qed.

Lemma url_run_stable (g : string -> string) (rest : list token) : forall (t pre : string),
  no_char ")" pre = true ->
  (let (u, r3) := span (not_char ")") (pre ++ render rest) in
   match u, r3 with String _ _, String _ r4 => Some (t, u, r4) | _, _ => None end) = None ->
  (let (u, r3) := span (not_char ")") (pre ++ render (map (retarget g) rest)) in
   match u, r3 with String _ _, String _ r4 => Some (t, u, r4) | _, _ => None end) = None.
Proof.
  induction rest as [|[d|t' u'] rest IH]; intros t pre Hp H.
  - exact H.
  - cbn [map retarget render] in *.
    destruct (Ascii.eqb d ")") eqn:Ed.
    + apply Ascii.eqb_eq in Ed. subst d.
      rewrite span_upto in H |- * by exact Hp.
      destruct pre; [reflexivity|discriminate].
    + replace (pre ++ String d (render rest)) with ((pre ++ String d "") ++ render rest) in H
        by (rewrite str_app_assoc; reflexivity).
      replace (pre ++ String d (render (map (retarget g) rest)))
        with ((pre ++ String d "") ++ render (map (retarget g) rest))
        by (rewrite str_app_assoc; reflexivity).
      apply IH; [|exact H].
      rewrite no_char_app, Hp. cbn. unfold not_char. rewrite Ed. reflexivity.
  - exfalso. cbn [render] in H.
    assert (Hf := span_found ")" (pre ++ (link_text t' u' ++ render rest))).
    rewrite no_char_app, no_char_link, andb_false_r in Hf. specialize (Hf eq_refl).
    assert (Hs : fst (span (not_char ")") (pre ++ (link_text t' u' ++ render rest))) <> EmptyString).
    { rewrite link_text_app. destruct pre as [|c pre'].
      - apply span_first. reflexivity.
      - apply span_first. cbn [no_char] in Hp. apply andb_prop in Hp as [Hp _]. exact Hp. }
    destruct (span (not_char ")") (pre ++ (link_text t' u' ++ render rest))) as [[|x u] [|y r4]];
      cbn [fst snd] in *; congruence.
Qed.

Lemma link_run_stable (g : string -> string) (rest : list token) :
  Forall (fun tk => wf_token tk = true) rest ->
  forall pre, no_char "]" pre = true ->
  link_match (String "[" (pre ++ render rest)) = None ->
  link_match (String "[" (pre ++ render (map (retarget g) rest))) = None.
Proof.
  induction 1 as [|tk rest Hw Hws IH]; intros pre Hp H.
  - exact H.
  - destruct tk as [d|t u].
    + cbn [map retarget render] in *.
      destruct (Ascii.eqb d "]") eqn:Ed.
      * apply Ascii.eqb_eq in Ed. subst d.
        cbn [link_match] in H |- *. rewrite Ascii.eqb_refl in H |- *.
        rewrite span_upto in H |- * by exact Hp.
        destruct pre as [|cp pre']; [reflexivity|].
        destruct rest as [|[c2|t2 u2] rest'].
        -- reflexivity.
        -- cbn [map retarget render] in *.
           destruct (Ascii.eqb c2 "("); [|reflexivity].
           exact (url_run_stable g rest' (String cp pre') "" eq_refl H).
        -- cbn [map retarget render] in *. rewrite link_text_app. reflexivity.
      * replace (pre ++ String d (render rest)) with ((pre ++ String d "") ++ render rest) in H
          by (rewrite str_app_assoc; reflexivity).
        replace (pre ++ String d (render (map (retarget g) rest)))
          with ((pre ++ String d "") ++ render (map (retarget g) rest))
          by (rewrite str_app_assoc; reflexivity).
        apply IH; [|exact H].
        rewrite no_char_app, Hp. cbn. unfold not_char. rewrite Ed. reflexivity.
    + exfalso. cbn [render] in H. cbn [wf_token] in Hw.
      apply andb_prop in Hw as [Hw Hu2]. apply andb_prop in Hw as [Hw Hu1].
      apply andb_prop in Hw as [_ Ht2].
      rewrite link_text_app in H.
      replace (pre ++ String "[" (t ++ String "]" (String "(" (u ++ String ")" (render rest)))))
        with ((pre ++ String "[" t) ++ String "]" (String "(" (u ++ String ")" (render rest)))) in H
        by (rewrite str_app_assoc; reflexivity).
      cbn [link_match] in H. rewrite Ascii.eqb_refl in H.
      rewrite span_upto in H
        by (rewrite no_char_app, Hp; cbn [no_char]; rewrite Ht2; reflexivity).
      rewrite (span_upto ")" u _ Hu2) in H.
      destruct u as [|cu u]; [discriminate|].
      destruct pre; discriminate.
Qed.

Lemma scan_retarget (g : string -> string) (toks : list token) :
  Forall (fun tk => wf_token tk = true /\ wf_token (retarget g tk) = true) toks ->
  scan_links (render toks) = toks ->
  scan_links (render (map (retarget g) toks)) = map (retarget g) toks.
Proof.
  induction toks as [|[c|t u] rest IH]; intros Hw Hs.
  - reflexivity.
  - inversion Hw as [|? ? _ Hws]; subst.
    cbn [render map retarget] in *. rewrite scan_links_cons in Hs |- *.
    destruct (link_match (String c (render rest))) as [[[t u] r]|] eqn:E; [discriminate|].
    injection Hs as Hs.
    assert (E' : link_match (String c (render (map (retarget g) rest))) = None).
    { destruct (Ascii.eqb c "[") eqn:Ec.
      - apply Ascii.eqb_eq in Ec. subst c.
        apply (link_run_stable g rest) with (pre := ""); [|reflexivity|exact E].
        revert Hws. apply Forall_impl. intros tk [H1 _]. exact H1.
      - cbn [link_match]. rewrite Ec. reflexivity. }
    rewrite E', IH; [reflexivity|exact Hws|exact Hs].
  - inversion Hw as [|? ? [Hw1 Hw2] Hws]; subst.
    cbn [render map retarget] in *.
    rewrite scan_links_link in Hs |- * by assumption. injection Hs as Hs.
    rewrite IH; [reflexivity|exact Hws|exact Hs].
Qed.

Lemma starts_with_app (p y : string) : Str.starts_with p (p ++ y) = true.
Proof.
  induction p as [|c p IH]; [reflexivity|]. cbn. rewrite Ascii.eqb_refl. exact IH.
Qed.

Lemma includes_mid (p x y : string) : Str.includes p (x ++ p ++ y) = true.
Proof.
  unfold Str.includes.
  assert (H : Str.index_of p (x ++ p ++ y) <> None).
  { induction x as [|c x IH].
    - cbn [String.append].
      replace (Str.index_of p (p ++ y)) with (Some 0); [discriminate|].
      destruct (p ++ y) eqn:E; cbn [Str.index_of]; rewrite <- E, starts_with_app; reflexivity.
    - cbn [String.append Str.index_of].
      destruct (Str.starts_with p (String c (x ++ p ++ y))); [discriminate|].
      destruct (Str.index_of p (x ++ p ++ y)); [discriminate|]. contradiction. }
  destruct (Str.index_of p (x ++ p ++ y)); [reflexivity|]. contradiction.
Qed.

Lemma fix_link_url (pm : page_map) (base : string) (skm : space_key_map) (cfg : config) (t u : string) :
  fix_link pm base skm cfg t u = link_text t (fix_url pm base skm cfg u).
Proof.
  unfold fix_link, fix_url. destruct (is_remote u); [reflexivity|].
  destruct (find_page pm (path_variations base u)) as [pid|]; [|reflexivity].
  destruct (truthy (Some pid)); reflexivity.
Qed.

Lemma confluence_url_remote (cfg : config) (sk : string) (pid : yval) :
  is_remote (confluence_url cfg sk pid) = true.
Proof. unfold is_remote, confluence_url. rewrite includes_mid. reflexivity. Qed.

Lemma fix_url_cases (pm : page_map) (base : string) (skm : space_key_map) (cfg : config) (u : string) :
  fix_url pm base skm cfg u = u \/
  exists sk pid, fix_url pm base skm cfg u = confluence_url cfg sk pid.
Proof.
  unfold fix_url. destruct (is_remote u); [auto|].
  destruct (find_page pm (path_variations base u)) as [pid|]; [|auto].
  destruct (truthy (Some pid)); eauto.
Qed.

Lemma fix_url_idem (pm : page_map) (base : string) (skm : space_key_map) (cfg : config) (u : string) :
  fix_url pm base skm cfg (fix_url pm base skm cfg u) = fix_url pm base skm cfg u.
Proof.
  destruct (fix_url_cases pm base skm cfg u) as [E|[sk [pid E]]]; rewrite E; [exact E|].
  unfold fix_url at 1. rewrite confluence_url_remote. reflexivity.
Qed.

Lemma fix_url_nonempty (pm : page_map) (base : string) (skm : space_key_map) (cfg : config) (u : string) :
  u <> "" -> fix_url pm base skm cfg u <> "".
Proof.
  intros Hu. destruct (fix_url_cases pm base skm cfg u) as [E|[sk [pid E]]]; rewrite E; [exact Hu|].
  unfold confluence_url. intros H. apply (f_equal String.length) in H.
  rewrite !length_app_str in H. cbn in H. lia.
Qed.

Lemma replace_links_render (f : string -> string -> string) (g : string -> string) (s : string) :
  (forall t u, f t u = link_text t (g u)) ->
  replace_links f s = render (map (retarget g) (scan_links s)).
Proof.
  intros Hf. rewrite replace_links_scan. induction (scan_links s) as [|[c|t u] l IH]; [reflexivity| |];
    rewrite map_cons, concat_empty_cons, IH; cbn [piece map retarget render].
  - reflexivity.
  - rewrite Hf. reflexivity.
Qed.

Lemma rev_str_app (a b : string) : Str.rev_str (a ++ b) = Str.rev_str b ++ Str.rev_str a.
Proof.
  induction a as [|c a IH]; cbn.
  - rewrite str_app_nil_r. reflexivity.
  - rewrite IH, str_app_assoc. reflexivity.
Qed.

Lemma rev_str_involutive (s : string) : Str.rev_str (Str.rev_str s) = s.
Proof.
  induction s as [|c s IH]; cbn; [reflexivity|].
  rewrite rev_str_app, IH. reflexivity.
Qed.

(** ** [fixReferences] on its own output *)

Lemma trim_start_app_nl (s : string) :
  Str.trim_start (s ++ String Str.nl "") =
  match Str.trim_start s with "" => "" | t => t ++ String Str.nl "" end.
Proof.
  induction s as [|c s IH]; [reflexivity|].
  cbn [String.append Str.trim_start]. destruct (Str.is_ws c); [exact IH|reflexivity].
Qed.

Lemma trim_end_app_nl (t : string) : Str.trim_end (t ++ String Str.nl "") = Str.trim_end t.
Proof. unfold Str.trim_end. rewrite rev_str_app. reflexivity. Qed.

Lemma trim_newline (s : string) : Str.trim (Str.newline s) = Str.trim s.
Proof.
  assert (Happ : Str.trim (s ++ String Str.nl "") = Str.trim s).
  { unfold Str.trim. rewrite trim_start_app_nl.
    destruct (Str.trim_start s); [reflexivity|apply trim_end_app_nl]. }
  unfold Str.newline. destruct (Str.last_char s) as [c|]; [destruct (Ascii.eqb c Str.nl)|];
    [reflexivity|exact Happ|exact Happ].
Qed.

Lemma last_char_cons (d : ascii) (s : string) : exists c, Str.last_char (String d s) = Some c.
Proof.
  revert d. induction s as [|e s IH]; intros d; [eexists; reflexivity|].
  destruct (IH e) as [c Hc]. exists c. exact Hc.
Qed.

Lemma last_char_cons_eq (d : ascii) (s : string) :
  Str.last_char (String d s) = match Str.last_char s with Some c => Some c | None => Some d end.
Proof.
  destruct s as [|e s]; [reflexivity|].
  destruct (last_char_cons e s) as [c Hc]. rewrite Hc. exact Hc.
Qed.

Lemma last_char_app (a b : string) :
  Str.last_char (a ++ b) = match Str.last_char b with Some c => Some c | None => Str.last_char a end.
Proof.
  induction a as [|d a IH]; cbn [String.append].
  - destruct (Str.last_char b); reflexivity.
  - rewrite last_char_cons_eq, IH. destruct (Str.last_char b); [reflexivity|].
    rewrite last_char_cons_eq. reflexivity.
Qed.

Lemma rev_str_last (s : string) (c : ascii) :
  Str.last_char s = Some c -> exists r, Str.rev_str s = String c r.
Proof.
  induction s as [|d s IH]; [discriminate|].
  intros H. change (Str.rev_str (String d s)) with (Str.rev_str s ++ String d "").
  rewrite last_char_cons_eq in H. destruct (Str.last_char s) as [c'|] eqn:E.
  - injection H as <-. destruct (IH eq_refl) as [r Hr]. rewrite Hr. eexists. reflexivity.
  - injection H as <-. destruct s as [|e s]; [eexists; reflexivity|].
    destruct (last_char_cons e s) as [c' Hc']. rewrite Hc' in E. discriminate.
Qed.

Lemma trim_start_snoc (u : string) (c : ascii) :
  Str.is_ws c = false -> Str.trim_start (u ++ String c "") = Str.trim_start u ++ String c "".
Proof.
  intros Hc. induction u as [|d u IH]; cbn [String.append Str.trim_start].
  - rewrite Hc. reflexivity.
  - destruct (Str.is_ws d); [exact IH|reflexivity].
Qed.

Lemma trim_end_cons (c : ascii) (r : string) :
  Str.is_ws c = false -> Str.trim_end (String c r) = String c (Str.trim_end r).
Proof.
  intros Hc. unfold Str.trim_end. cbn [Str.rev_str].
  rewrite trim_start_snoc by exact Hc. rewrite rev_str_app. reflexivity.
Qed.

Lemma trim_head (s : string) (c : ascii) (r : string) :
  Str.trim s = String c r -> Str.is_ws c = false.
Proof.
  unfold Str.trim. destruct (trim_start_head s) as [E|[c0 [r0 [E Hc0]]]]; rewrite E.
  - discriminate.
  - rewrite trim_end_cons by exact Hc0. intros H. injection H as <- _. exact Hc0.
Qed.

Lemma trim_last (s : string) (c : ascii) :
  Str.last_char (Str.trim s) = Some c -> Str.is_ws c = false.
Proof.
  destruct (trim_last_char s) as [E|[c0 [E Hc0]]]; rewrite E; [discriminate|].
  intros H. injection H as <-. exact Hc0.
Qed.

Lemma trim_fixed (s : string) :
  (forall c r, s = String c r -> Str.is_ws c = false) ->
  (forall c, Str.last_char s = Some c -> Str.is_ws c = false) ->
  Str.trim s = s.
Proof.
  intros Hh Hl. unfold Str.trim, Str.trim_end.
  assert (Hs : Str.trim_start s = s).
  { destruct s as [|c r]; [reflexivity|]. cbn. rewrite (Hh c r eq_refl). reflexivity. }
  rewrite Hs. destruct (Str.last_char s) as [c|] eqn:E.
  - destruct (rev_str_last s c E) as [r Hr]. rewrite Hr. cbn [Str.trim_start].
    rewrite (Hl c eq_refl), <- Hr. apply rev_str_involutive.
  - destruct s as [|d s]; [reflexivity|].
    destruct (last_char_cons d s) as [c Hc]. rewrite Hc in E. discriminate.
Qed.

Lemma trim_idem (s : string) : Str.trim (Str.trim s) = Str.trim s.
Proof. apply trim_fixed; [apply trim_head|apply trim_last]. Qed.

Lemma render_retarget_head (g : string -> string) (toks : list token) (c : ascii) (r : string) :
  render (map (retarget g) toks) = String c r -> exists r', render toks = String c r'.
Proof.
  destruct toks as [|[d|t u] rest]; cbn [map retarget render].
  - discriminate.
  - intros H. injection H as <- _. eexists. reflexivity.
  - unfold link_text. cbn [String.append]. intros H. injection H as <- _. eexists. reflexivity.
Qed.

Lemma last_char_link (t x : string) : Str.last_char (link_text t x) = Some ")"%char.
Proof. unfold link_text. rewrite !last_char_app. reflexivity. Qed.

Lemma render_retarget_last (g : string -> string) (toks : list token) :
  Str.last_char (render (map (retarget g) toks)) = Str.last_char (render toks).
Proof.
  induction toks as [|[d|t u] rest IH]; cbn [map retarget render]; [reflexivity| |].
  - rewrite !last_char_cons_eq, IH. reflexivity.
  - rewrite !last_char_app, IH, !last_char_link. reflexivity.
Qed.

(** The link rewrite keeps a trimmed text trimmed: it starts and ends
    with the characters the text starts and ends with. *)
Lemma replace_links_trim (pm : page_map) (base : string) (skm : space_key_map) (cfg : config) (s : string) :
  Str.trim s = s ->
  Str.trim (replace_links (fix_link pm base skm cfg) s) = replace_links (fix_link pm base skm cfg) s.
Proof.
  intros Ht.
  rewrite (replace_links_render _ (fix_url pm base skm cfg) s (fix_link_url pm base skm cfg)).
  apply trim_fixed.
  - intros c r H. apply render_retarget_head in H. destruct H as [r' H].
    rewrite render_scan, <- Ht in H. exact (trim_head s c r' H).
  - intros c H. rewrite render_retarget_last, render_scan, <- Ht in H. exact (trim_last s c H).
Qed.

(** The link rewrite applied to its own result changes nothing when every
    target it writes is free of [')']. *)
Lemma replace_links_stable (pm : page_map) (base : string) (skm : space_key_map) (cfg : config)
    (s : string) :
  (forall t u, In (TLink t u) (scan_links s) -> no_char ")" (fix_url pm base skm cfg u) = true) ->
  replace_links (fix_link pm base skm cfg) (replace_links (fix_link pm base skm cfg) s)
  = replace_links (fix_link pm base skm cfg) s.
Proof.
  intros Hc.
  set (g := fix_url pm base skm cfg) in *.
  assert (Hf : forall t u, fix_link pm base skm cfg t u = link_text t (g u)) by apply fix_link_url.
  rewrite !(replace_links_render _ g _ Hf).
  rewrite scan_retarget.
  - rewrite map_map. f_equal. apply map_ext. intros [c|t u]; cbn [retarget]; [reflexivity|].
    unfold g. rewrite fix_url_idem. reflexivity.
  - pose proof (scan_wf s) as Hw. rewrite Forall_forall in Hw |- *.
    intros [c|t u] Hin; [split; reflexivity|].
    specialize (Hw _ Hin). split; [exact Hw|].
    cbn [wf_token retarget] in *.
    apply andb_prop in Hw as [Hw _]. apply andb_prop in Hw as [Hw Hu1]. rewrite Hw. cbn [andb].
    rewrite (Hc t u Hin), andb_true_r.
    apply negb_true_iff, String.eqb_neq, fix_url_nonempty.
    apply negb_true_iff, String.eqb_neq in Hu1. exact Hu1.
  - rewrite render_scan. reflexivity.
Qed.

(** C9 (counterexample): with the base url ["a)b"] the first pass writes
    the target ["a)b/wiki/spaces/K/pages/7"]; the link pattern stops at its
    first [')'], so the second pass of [fixReferences] over the first
    pass's output reads the link [[t](a)] again, which still resolves, and
    rewrites it once more.  And a frontmatter whose dump is not read back
    ([" ---x: see [t](a)"], whose dump starts a line with ['---']) moves a
    link the first pass left in the frontmatter into the body, where the
    second pass rewrites it. *)
Lemma C9_counterexample :
  let pm := [("a", YStr "7")] in
  let cfg := [("confluenceBaseUrl", JStr "a)b"); ("confluenceSpaceKey", JStr "K")] in
  let once := replace_links (fix_link pm "." [] cfg) "[t](a)" in
  once = "[t](a)b/wiki/spaces/K/pages/7)" /\
  @fix_references MiniYaml.engine "[t](a)" pm "doc.md" [] cfg = Some (once ++ String Str.nl "") /\
  @fix_references MiniYaml.engine (once ++ String Str.nl "") pm "doc.md" [] cfg
    = Some ("[t](a)b/wiki/spaces/K/pages/7)b/wiki/spaces/K/pages/7)" ++ String Str.nl "") /\
  let cfg' := [("confluenceBaseUrl", JStr "https://w"); ("confluenceSpaceKey", JStr "K")] in
  @fix_references MiniYaml.engine (text ["---"; " ---x: see [t](a)"; "---"; "hi"]) pm "doc.md" [] cfg'
    = Some (text ["---"; "---x: see [t](a)"; "---"; "hi"; ""]) /\
  @fix_references MiniYaml.engine (text ["---"; "---x: see [t](a)"; "---"; "hi"; ""]) pm "doc.md" [] cfg'
    = Some (text ["x: see [t](https://w/wiki/spaces/K/pages/7)"; "---"; "hi"; ""]).
Proof. vm_compute. repeat split. Qed.

(** C9 (amended): let [f] be the frontmatter of a document and [b] its
    trimmed body, under the conditions of C7 that make [fixReferences] keep
    the frontmatter ([b] does not start with ["---"], [f] has no duplicate
    keys, and [f] reads back or is empty with the engine dumping an empty
    mapping as ["{}"]).  If every target the rewrite writes for a link of
    [b] is free of [')'] (for instance when the base url, the space keys and
    the page identifiers are), [fixReferences] applied to its own output,
    with the same map, path, space-key map and configuration, returns that
    output unchanged, so its link targets are byte-identical. *)
Theorem C9_fix_references_stable `{YamlEngine} (content : string) (pm : page_map)
    (file_path : string) (skm : space_key_map) (cfg : config) (f : fm) (clean out : string) :
  parse_frontmatter content = Some (f, clean) ->
  Str.starts_with "---" clean = false ->
  NoDup (map fst f) ->
  reads_back f = true \/ (f = [] /\ Str.trim (yaml_dump []) = "{}") ->
  (forall t u, In (TLink t u) (scan_links clean) ->
     no_char ")" (fix_url pm (dirname file_path) skm cfg u) = true) ->
  fix_references content pm file_path skm cfg = Some out ->
  fix_references out pm file_path skm cfg = Some out.
Proof.
  intros Hp Hc Hn Hf Hl Hfix.
  unfold fix_references in Hfix |- *. rewrite Hp in Hfix.
  set (R := replace_links (fix_link pm (dirname file_path) skm cfg)) in *.
  assert (Htc : Str.trim clean = clean).
  { unfold parse_frontmatter in Hp. destruct (gm_matter content) as [[d c]|]; [|discriminate].
    injection Hp as _ <-. apply trim_idem. }
  assert (Hx : Str.starts_with "---" (R clean) = false) by (apply replace_links_dashes; exact Hc).
  assert (Htx : Str.trim (R clean) = R clean) by (apply replace_links_trim; exact Htc).
  assert (HR : R (R clean) = R clean) by (apply replace_links_stable; exact Hl).
  set (x := R clean) in *.
  assert (Hout : out = gm_write (yaml_dump (spread [] f)) x).
  { unfold update_frontmatter in Hfix.
    rewrite (gm_matter_plain x Hx), gm_stringify_plain in Hfix by exact Hx.
    injection Hfix as <-. rewrite !(spread_nil_nodup f Hn). reflexivity. }
  assert (Hpo : parse_frontmatter out = Some (f, x)).
  { rewrite Hout, (spread_nil_nodup f Hn). unfold parse_frontmatter.
    destruct Hf as [Hr|[-> Hd]].
    - rewrite gm_matter_stringify_reads_back by exact Hr. rewrite trim_newline, Htx. reflexivity.
    - unfold gm_write. rewrite Hd. cbv zeta. cbn [String.eqb Ascii.eqb Bool.eqb andb String.append].
      rewrite (gm_matter_plain (Str.newline x) (newline_dashes x Hx)). rewrite trim_newline, Htx.
      reflexivity. }
  rewrite Hpo. rewrite HR. exact Hfix.
Qed.

Lemma C9_fix_references_stable_witness :
  let pm := [("b", YStr "7")] in
  let cfg := [("confluenceBaseUrl", JStr "https://w"); ("confluenceSpaceKey", JStr "S")] in
  exists out,
    @parse_frontmatter MiniYaml.engine (text ["---"; "a: 1"; "---"; "see [x](b.md) and [y](c.md)"])
      = Some ([("a", YNum 1)], "see [x](b.md) and [y](c.md)") /\
    @fix_references MiniYaml.engine (text ["---"; "a: 1"; "---"; "see [x](b.md) and [y](c.md)"])
      pm "a.md" [] cfg = Some out /\
    @fix_references MiniYaml.engine out pm "a.md" [] cfg = Some out.
Proof.
  intros pm cfg. eexists. split; [vm_compute; reflexivity|]. split; [vm_compute; reflexivity|].
  apply (@C9_fix_references_stable MiniYaml.engine
           (text ["---"; "a: 1"; "---"; "see [x](b.md) and [y](c.md)"]) pm "a.md" [] cfg
           [("a", YNum 1)] "see [x](b.md) and [y](c.md)").
  - vm_compute. reflexivity.
  - vm_compute. reflexivity.
  - repeat constructor. intros [].
  - left. vm_compute. reflexivity.
  - intros t u Hin. vm_compute in Hin.
    repeat destruct Hin as [Hin|Hin]; try discriminate; try contradiction;
      injection Hin as <- <-; vm_compute; reflexivity.
  - vm_compute. reflexivity.
Defined.

(* ------------------------------------------------------------------ *)
(** ** [copyDir] *)

Lemma find_entry_name (n : string) (es : list dirent) (e : dirent) :
  find_entry n es = Some e -> dirent_name e = n.
Proof.
  induction es as [|e' es IH]; cbn; [discriminate|].
  destruct (String.eqb (dirent_name e') n) eqn:E; [|exact IH].
  intros H. injection H as <-. apply String.eqb_eq. exact E.
Qed.

Lemma find_entry_notin (n : string) (es : list dirent) :
  ~ In n (map dirent_name es) -> find_entry n es = None.
Proof.
  induction es as [|e es IH]; cbn; intros H; [reflexivity|].
  destruct (String.eqb (dirent_name e) n) eqn:E.
  - apply String.eqb_eq in E. exfalso. apply H. left. exact E.
  - apply IH. intros Hin. apply H. right. exact Hin.
Qed.

Lemma find_entry_snoc (m : string) (es : list dirent) (e : dirent) :
  find_entry m (es ++ [e])%list =
  or_else (find_entry m es) (if String.eqb (dirent_name e) m then Some e else None).
Proof.
  induction es as [|e' es IH]; cbn; [reflexivity|].
  destruct (String.eqb (dirent_name e') m); [reflexivity|exact IH].
Qed.

Lemma find_entry_replace (n m : string) (e : dirent) (es : list dirent) :
  dirent_name e = n ->
  find_entry m (replace_entry n e es) =
  if String.eqb n m then option_map (fun _ => e) (find_entry n es) else find_entry m es.
Proof.
  intros He. induction es as [|e' es IH]; cbn.
  - destruct (String.eqb n m); reflexivity.
  - destruct (String.eqb (dirent_name e') n) eqn:E1.
    + apply String.eqb_eq in E1. cbn. rewrite He.
      destruct (String.eqb n m) eqn:E2; [reflexivity|]. rewrite E1, E2. reflexivity.
    + cbn. rewrite IH.
      destruct (String.eqb (dirent_name e') m) eqn:E2; destruct (String.eqb n m) eqn:E3; try reflexivity.
      apply String.eqb_eq in E2, E3. apply String.eqb_neq in E1. congruence.
Qed.

Lemma lookup_file_one (es : list dirent) (m : string) :
  lookup_file es [m] = match find_entry m es with Some (DFile _ c) => Some c | _ => None end.
Proof. reflexivity. Qed.

Lemma lookup_file_more (es : list dirent) (m m' : string) (q : list string) :
  lookup_file es (m :: m' :: q) =
  match find_entry m es with Some (DDir _ es') => lookup_file es' (m' :: q) | _ => None end.
Proof. reflexivity. Qed.

Lemma lookup_file_nil (p : list string) : lookup_file [] p = None.
Proof. destruct p as [|m [|m' q]]; reflexivity. Qed.

(** Two listings agree on every path below [m] when they list the same
    entry under [m]. *)
Lemma lookup_file_find (es es' : list dirent) (m : string) (q : list string) :
  find_entry m es = find_entry m es' -> lookup_file es (m :: q) = lookup_file es' (m :: q).
Proof.
  intros H. destruct q as [|m' q]; [rewrite !lookup_file_one|rewrite !lookup_file_more]; rewrite H; reflexivity.
Qed.

Lemma lookup_file_cons (e : dirent) (es : list dirent) (p : list string) :
  ~ In (dirent_name e) (map dirent_name es) ->
  lookup_file (e :: es) p = or_else (lookup_file [e] p) (lookup_file es p) /\
  (lookup_file [e] p = None \/ lookup_file es p = None).
Proof.
  intros Hn. destruct p as [|m q]; [split; [reflexivity|left; reflexivity]|].
  destruct (String.eqb (dirent_name e) m) eqn:E.
  - apply String.eqb_eq in E. subst m.
    assert (Hf : find_entry (dirent_name e) es = None) by (apply find_entry_notin; exact Hn).
    assert (Hl : lookup_file es (dirent_name e :: q) = None).
    { rewrite (lookup_file_find es [] _ q); [apply lookup_file_nil|]. rewrite Hf. reflexivity. }
    rewrite Hl. split; [|right; reflexivity].
    rewrite (lookup_file_find (e :: es) [e] _ q); [destruct (lookup_file [e] _); reflexivity|].
    cbn. rewrite String.eqb_refl. reflexivity.
  - assert (Hl : lookup_file [e] (m :: q) = None).
    { rewrite (lookup_file_find [e] [] m q); [apply lookup_file_nil|]. cbn. rewrite E. reflexivity. }
    rewrite Hl. split; [|left; reflexivity].
    apply lookup_file_find. cbn. rewrite E. reflexivity.
Qed.

Lemma or_else_swap {A} (a b c : option A) :
  a = None \/ b = None -> or_else a (or_else b c) = or_else b (or_else a c).
Proof. intros [H | H]; subst; [destruct b|destruct a]; reflexivity. Qed.

Lemma or_else_None_r {A} (a : option A) : or_else a None = a.
Proof. destruct a; reflexivity. Qed.

Lemma or_else_assoc {A} (a b c : option A) : or_else (or_else a b) c = or_else a (or_else b c).
Proof. destruct a; reflexivity. Qed.

Lemma path_join_nonempty (rel n : string) : n <> "" -> path_join rel n <> "".
Proof.
  unfold path_join. destruct (String.eqb rel "") eqn:E; [auto|].
  destruct rel; [discriminate|discriminate].
Qed.

(** Below the top level a source path holds a slash, the mirror's name
    does not: nothing below the top level is excluded. *)
Lemma path_join_not_mirror (rel n : string) : rel <> "" -> path_join rel n <> FIXED_REFS_DIR.
Proof.
  intros Hr. unfold path_join. destruct (String.eqb rel "") eqn:E.
  - apply String.eqb_eq in E. contradiction.
  - intros H. assert (Hc : no_char slash (rel ++ String slash n) = no_char slash FIXED_REFS_DIR)
      by (rewrite H; reflexivity).
    rewrite no_char_app in Hc. cbn [no_char] in Hc. rewrite not_char_self in Hc.
    rewrite andb_false_r in Hc. discriminate Hc.
Qed.

Lemma copy_loop_list (ex rel : string) (F : list dirent -> list dirent -> option (list dirent)) :
  (forall d, F [] d = Some d) ->
  (forall e es d, F (e :: es) d =
     if String.eqb (path_join rel (dirent_name e)) ex then F es d
     else match copy_entry ex rel e d with Some d' => F es d' | None => None end) ->
  forall es d, F es d = copy_list ex rel es d.
Proof.
  intros H0 H1 es. induction es as [|e es IH]; intros d; [apply H0|].
  rewrite H1. cbn [copy_list]. destruct (String.eqb _ ex); [apply IH|].
  destruct (copy_entry ex rel e d); [apply IH|reflexivity].
Qed.

Lemma all_wf_forall (F : list dirent -> Prop) :
  (F [] -> True) ->
  (forall e es, F (e :: es) -> wf_dirent e /\ F es) ->
  forall es, F es -> Forall wf_dirent es.
Proof.
  intros _ H1 es. induction es as [|e es IH]; intros H; constructor.
  - apply (H1 e es H).
  - apply IH, (H1 e es H).
Qed.

Lemma nodup_map_filter {A B} (f : A -> B) (g : A -> bool) (l : list A) :
  NoDup (map f l) -> NoDup (map f (filter g l)).
Proof.
  induction l as [|a l IH]; cbn; intros H; [constructor|].
  inversion H as [|? ? Hn Hd]; subst. destruct (g a); [|auto].
  cbn. constructor; [|auto]. intros Hin. apply Hn.
  apply in_map_iff in Hin as (x & Hx & Hin). apply filter_In in Hin as (Hin & _).
  rewrite <- Hx. apply in_map. exact Hin.
Qed.

Lemma filter_all_true {A} (g : A -> bool) (l : list A) :
  (forall x, In x l -> g x = true) -> filter g l = l.
Proof.
  induction l as [|a l IH]; cbn; intros H; [reflexivity|].
  rewrite (H a (or_introl eq_refl)). f_equal. apply IH. intros x Hx. apply H. right. exact Hx.
Qed.

(** The loop of [copyDir] over one listing: every path reads from the
    copied (not excluded) sources first, then from what the destination
    held. *)
Lemma copy_list_lookup (rel : string) (es : list dirent) :
  Forall (fun e => forall rel d d', copy_entry FIXED_REFS_DIR rel e d = Some d' ->
            forall p, lookup_file d' p = or_else (lookup_file [e] p) (lookup_file d p)) es ->
  NoDup (map dirent_name es) ->
  forall d d', copy_list FIXED_REFS_DIR rel es d = Some d' ->
  forall p, lookup_file d' p =
    or_else (lookup_file (filter (fun e => negb (String.eqb (path_join rel (dirent_name e)) FIXED_REFS_DIR)) es) p)
            (lookup_file d p).
Proof.
  induction es as [|e es IH]; intros Hall Hnd d d' H p.
  - cbn in H. injection H as <-. rewrite lookup_file_nil. reflexivity.
  - inversion Hall as [|? ? He Hes]; subst. inversion Hnd as [|? ? Hn Hnd']; subst.
    cbn [copy_list filter] in H |- *.
    destruct (String.eqb (path_join rel (dirent_name e)) FIXED_REFS_DIR); cbn [negb].
    + apply (IH Hes Hnd' d d' H).
    + destruct (copy_entry FIXED_REFS_DIR rel e d) as [d1|] eqn:H1; [|discriminate].
      rewrite (IH Hes Hnd' d1 d' H p), (He rel d d1 H1 p).
      assert (Hn' : ~ In (dirent_name e) (map dirent_name
                (filter (fun e => negb (String.eqb (path_join rel (dirent_name e)) FIXED_REFS_DIR)) es))).
      { intros Hin. apply Hn. apply in_map_iff in Hin as (x & Hx & Hin).
        apply filter_In in Hin as (Hin & _). rewrite <- Hx. apply in_map. exact Hin. }
      destruct (lookup_file_cons e _ p Hn') as [Hc Hd].
      rewrite Hc, or_else_assoc, or_else_swap by (destruct Hd; auto). reflexivity.
Qed.

(** One entry of [copyDir]: every path reads from the copied entry first,
    then from what the destination held. *)
Lemma copy_entry_lookup (e : dirent) :
  wf_dirent e ->
  forall rel d d', copy_entry FIXED_REFS_DIR rel e d = Some d' ->
  forall p, lookup_file d' p = or_else (lookup_file [e] p) (lookup_file d p).
Proof.
  induction e as [n c|n es IH] using dirent_ind'; intros Hwf rel d d' H p.
  - cbn [copy_entry] in H.
    destruct p as [|m q]; [reflexivity|].
    destruct (find_entry n d) as [[n0 c0|n0 d0]|] eqn:Hf; [| discriminate |].
    + injection H as <-. pose proof (find_entry_name _ _ _ Hf) as Hn0. cbn in Hn0. subst n0.
      destruct (String.eqb n m) eqn:E.
      * apply String.eqb_eq in E. subst m.
        destruct q as [|m' q]; rewrite ?lookup_file_one, ?lookup_file_more;
          rewrite find_entry_replace by reflexivity; rewrite String.eqb_refl, Hf; cbn;
          rewrite ?String.eqb_refl; reflexivity.
      * rewrite (lookup_file_find [DFile n c] [] m q) by (cbn; rewrite E; reflexivity).
        rewrite lookup_file_nil. apply lookup_file_find.
        rewrite find_entry_replace by reflexivity. rewrite E. reflexivity.
    + injection H as <-.
      destruct (String.eqb n m) eqn:E.
      * apply String.eqb_eq in E. subst m.
        rewrite (lookup_file_find d [] n q) by (rewrite Hf; reflexivity).
        rewrite lookup_file_nil, or_else_None_r. apply lookup_file_find.
        rewrite find_entry_snoc, Hf. cbn. rewrite String.eqb_refl. reflexivity.
      * rewrite (lookup_file_find [DFile n c] [] m q) by (cbn; rewrite E; reflexivity).
        rewrite lookup_file_nil. apply lookup_file_find.
        rewrite find_entry_snoc. cbn [dirent_name]. rewrite E. destruct (find_entry m d); reflexivity.
  - cbn [wf_dirent] in Hwf. destruct Hwf as (Hn & Hnd & Hall).
    match type of Hall with
    | ?F es => apply (all_wf_forall F (fun _ => I) (fun e es H => H)) in Hall
    end.
    assert (IH' : Forall (fun e => forall rel d d', copy_entry FIXED_REFS_DIR rel e d = Some d' ->
              forall p, lookup_file d' p = or_else (lookup_file [e] p) (lookup_file d p)) es).
    { rewrite Forall_forall in IH, Hall |- *. intros x Hx. apply IH; [exact Hx|]. apply Hall. exact Hx. }
    assert (Hrel : path_join rel n <> "") by (apply path_join_nonempty; exact Hn).
    assert (Hkeep : forall x, In x es ->
              negb (String.eqb (path_join (path_join rel n) (dirent_name x)) FIXED_REFS_DIR) = true).
    { intros x _. destruct (String.eqb _ FIXED_REFS_DIR) eqn:E; [|reflexivity].
      apply String.eqb_eq in E. exfalso. exact (path_join_not_mirror _ _ Hrel E). }
    assert (Hcl : forall d0 x, copy_list FIXED_REFS_DIR (path_join rel n) es d0 = Some x ->
              forall p, lookup_file x p = or_else (lookup_file es p) (lookup_file d0 p)).
    { intros d0 x Hx p0. rewrite (copy_list_lookup _ es IH' Hnd d0 x Hx p0).
      rewrite filter_all_true by exact Hkeep. reflexivity. }
    cbn [copy_entry] in H.
    destruct p as [|m q]; [reflexivity|].
    destruct (find_entry n d) as [[n0 c0|n0 d0]|] eqn:Hf.
    all: try match type of H with
      | context [option_map _ (?F ?l _)] =>
          rewrite (copy_loop_list FIXED_REFS_DIR (path_join rel n) F (fun _ => eq_refl)
                     (fun _ _ _ => eq_refl)) in H
      end.
    + destruct es as [|e es]; [|cbn in H; rewrite (Hkeep e (or_introl eq_refl)) in H; discriminate].
      injection H as <-.
      assert (H0 : lookup_file [DDir n []] (m :: q) = None).
      { destruct (String.eqb n m) eqn:E.
        - apply String.eqb_eq in E. subst m. destruct q as [|m' q];
            [rewrite lookup_file_one; cbn; rewrite String.eqb_refl; reflexivity|].
          rewrite lookup_file_more. cbn [find_entry dirent_name]. rewrite String.eqb_refl.
          apply lookup_file_nil.
        - rewrite (lookup_file_find _ [] m q) by (cbn; rewrite E; reflexivity). apply lookup_file_nil. }
      rewrite H0. reflexivity.
    + pose proof (find_entry_name _ _ _ Hf) as Hn0. cbn in Hn0. subst n0.
      destruct (copy_list FIXED_REFS_DIR (path_join rel n) es d0) as [x|] eqn:Hx; [|discriminate].
      injection H as <-.
      destruct (String.eqb n m) eqn:E.
      * apply String.eqb_eq in E. subst m. destruct q as [|m' q].
        -- rewrite !lookup_file_one, find_entry_replace, String.eqb_refl, Hf by reflexivity.
           cbn [option_map find_entry dirent_name]. rewrite String.eqb_refl. reflexivity.
        -- rewrite !lookup_file_more, find_entry_replace, String.eqb_refl, Hf by reflexivity.
           cbn [option_map find_entry dirent_name]. rewrite String.eqb_refl. apply (Hcl d0 x Hx).
      * rewrite (lookup_file_find [DDir n es] [] m q) by (cbn; rewrite E; reflexivity).
        rewrite lookup_file_nil. apply lookup_file_find.
        rewrite find_entry_replace by reflexivity. rewrite E. reflexivity.
    + destruct (copy_list FIXED_REFS_DIR (path_join rel n) es []) as [x|] eqn:Hx; [|discriminate].
      injection H as <-.
      destruct (String.eqb n m) eqn:E.
      * apply String.eqb_eq in E. subst m.
        rewrite (lookup_file_find d [] n q) by (rewrite Hf; reflexivity).
        rewrite lookup_file_nil, or_else_None_r. destruct q as [|m' q].
        -- rewrite !lookup_file_one, find_entry_snoc, Hf.
           cbn [or_else find_entry dirent_name]. rewrite String.eqb_refl. reflexivity.
        -- rewrite !lookup_file_more, find_entry_snoc, Hf.
           cbn [or_else find_entry dirent_name]. rewrite String.eqb_refl.
           rewrite (Hcl [] x Hx), lookup_file_nil, or_else_None_r. reflexivity.
      * rewrite (lookup_file_find [DDir n es] [] m q) by (cbn; rewrite E; reflexivity).
        rewrite lookup_file_nil. apply lookup_file_find.
        rewrite find_entry_snoc. cbn [dirent_name]. rewrite E. destruct (find_entry m d); reflexivity.
Qed.

Lemma find_entry_in (n : string) (es : list dirent) :
  In n (map dirent_name es) -> find_entry n es <> None.
Proof.
  induction es as [|e es IH]; cbn; [intros []|].
  intros [Hn | Hin]; destruct (String.eqb (dirent_name e) n) eqn:E; try discriminate.
  - subst n. rewrite String.eqb_refl in E. discriminate.
  - apply IH. exact Hin.
Qed.

Lemma existsb_find_entry (n : string) (es : list dirent) :
  existsb (fun e => String.eqb (dirent_name e) n) es =
  match find_entry n es with Some _ => true | None => false end.
Proof.
  induction es as [|e es IH]; cbn; [reflexivity|].
  destruct (String.eqb (dirent_name e) n); [reflexivity|exact IH].
Qed.

Lemma filter_replace_mirror (e : dirent) (es : list dirent) :
  dirent_name e = FIXED_REFS_DIR ->
  filter not_mirror (replace_entry FIXED_REFS_DIR e es) = filter not_mirror es.
Proof.
  intros He. induction es as [|e' es IH]; [reflexivity|]. cbn [replace_entry].
  destruct (String.eqb (dirent_name e') FIXED_REFS_DIR) eqn:E; cbn [filter]; unfold not_mirror.
  - rewrite He, E, String.eqb_refl. reflexivity.
  - rewrite E. cbn [negb]. f_equal. exact IH.
Qed.

Lemma existsb_false_filter {A} (g : A -> bool) (l : list A) :
  existsb g l = false -> filter g l = [].
Proof.
  induction l as [|a l IH]; cbn; [reflexivity|].
  destruct (g a); [discriminate|exact IH].
Qed.

(** [copyDir] into the mirror: nothing outside the mirror changes, and
    every path of the mirror afterwards reads the file of the source at
    that path when there is one, else what the mirror held before. *)
Theorem copy_dir_lookup (root root' : list dirent) :
  Forall wf_dirent root -> NoDup (map dirent_name root) ->
  copy_dir root = Some root' ->
  filter not_mirror root' = filter not_mirror root /\
  forall p, lookup_file (mirror_of root') p =
            or_else (lookup_file (filter not_mirror root) p) (lookup_file (mirror_of root) p).
Proof.
  intros Hwf Hnd H. unfold copy_dir in H.
  rewrite existsb_find_entry in H.
  set (root1 := if match find_entry FIXED_REFS_DIR root with Some _ => true | None => false end
                then root else (root ++ [DDir FIXED_REFS_DIR []])%list) in H.
  assert (Hf1 : filter not_mirror root1 = filter not_mirror root).
  { subst root1. destruct (find_entry FIXED_REFS_DIR root); [reflexivity|].
    rewrite filter_app. cbn. rewrite app_nil_r. reflexivity. }
  assert (Hm1 : find_entry FIXED_REFS_DIR root1 =
                or_else (find_entry FIXED_REFS_DIR root) (Some (DDir FIXED_REFS_DIR []))).
  { subst root1. destruct (find_entry FIXED_REFS_DIR root) eqn:E; [exact E|].
    rewrite find_entry_snoc, E. reflexivity. }
  assert (Hmo : mirror_of root1 = mirror_of root).
  { unfold mirror_of. rewrite Hm1. destruct (find_entry FIXED_REFS_DIR root); reflexivity. }
  assert (Hnd1 : NoDup (map dirent_name root1)).
  { subst root1. destruct (find_entry FIXED_REFS_DIR root) eqn:E; [exact Hnd|].
    rewrite map_app. apply NoDup_app; [exact Hnd|cbn; constructor; [intros []|constructor]|].
    intros x Hx [Hx' | []]. subst x. exact (find_entry_in _ _ Hx E). }
  assert (Hall1 : Forall (fun e => forall rel d d', copy_entry FIXED_REFS_DIR rel e d = Some d' ->
              forall p, lookup_file d' p = or_else (lookup_file [e] p) (lookup_file d p)) root1).
  { apply Forall_forall. intros e He. apply copy_entry_lookup.
    rewrite Forall_forall in Hwf. subst root1.
    destruct (find_entry FIXED_REFS_DIR root); [apply Hwf; exact He|].
    apply in_app_or in He as [He | [<- | []]]; [apply Hwf; exact He|].
    cbn. split; [discriminate|split; [constructor|exact I]]. }
  destruct (find_entry FIXED_REFS_DIR root1) as [[n0 c0|n0 m]|] eqn:Hf; [| |discriminate].
  - destruct (existsb _ root1) eqn:Ex; [discriminate|]. injection H as <-.
    apply existsb_false_filter in Ex.
    change (filter not_mirror root1 = []) in Ex.
    split; [exact Hf1|]. intros p.
    rewrite <- Hf1, Ex, <- Hmo. unfold mirror_of. rewrite Hf, lookup_file_nil. reflexivity.
  - pose proof (find_entry_name _ _ _ Hf) as Hn0. cbn in Hn0. subst n0.
    destruct (copy_list FIXED_REFS_DIR "" root1 m) as [m'|] eqn:Hc; [|discriminate].
    injection H as <-. split.
    + rewrite filter_replace_mirror by reflexivity. exact Hf1.
    + intros p. unfold mirror_of at 1.
      rewrite find_entry_replace, String.eqb_refl, Hf by reflexivity. cbn [option_map].
      rewrite (copy_list_lookup "" root1 Hall1 Hnd1 m m' Hc p).
      change (filter (fun e => negb (String.eqb (path_join "" (dirent_name e)) FIXED_REFS_DIR)) root1)
        with (filter not_mirror root1).
      rewrite Hf1, <- Hmo. unfold mirror_of. rewrite Hf. reflexivity.
Qed.

Lemma copy_dir_lookup_witness :
  Forall wf_dirent
    [DFile "a.md" "x"; DDir "sub" [DFile "b.md" "y"];
     DDir FIXED_REFS_DIR [DFile "a.md" "old"; DFile "stale.md" "s"]] /\
  NoDup (map dirent_name
    [DFile "a.md" "x"; DDir "sub" [DFile "b.md" "y"];
     DDir FIXED_REFS_DIR [DFile "a.md" "old"; DFile "stale.md" "s"]]) /\
  copy_dir
    [DFile "a.md" "x"; DDir "sub" [DFile "b.md" "y"];
     DDir FIXED_REFS_DIR [DFile "a.md" "old"; DFile "stale.md" "s"]] =
  Some [DFile "a.md" "x"; DDir "sub" [DFile "b.md" "y"];
        DDir FIXED_REFS_DIR [DFile "a.md" "x"; DFile "stale.md" "s"; DDir "sub" [DFile "b.md" "y"]]] /\
  (filter not_mirror
     [DFile "a.md" "x"; DDir "sub" [DFile "b.md" "y"];
      DDir FIXED_REFS_DIR [DFile "a.md" "x"; DFile "stale.md" "s"; DDir "sub" [DFile "b.md" "y"]]] =
   filter not_mirror
     [DFile "a.md" "x"; DDir "sub" [DFile "b.md" "y"];
      DDir FIXED_REFS_DIR [DFile "a.md" "old"; DFile "stale.md" "s"]] /\
   forall p, lookup_file (mirror_of
     [DFile "a.md" "x"; DDir "sub" [DFile "b.md" "y"];
      DDir FIXED_REFS_DIR [DFile "a.md" "x"; DFile "stale.md" "s"; DDir "sub" [DFile "b.md" "y"]]]) p =
   or_else (lookup_file (filter not_mirror
     [DFile "a.md" "x"; DDir "sub" [DFile "b.md" "y"];
      DDir FIXED_REFS_DIR [DFile "a.md" "old"; DFile "stale.md" "s"]]) p)
     (lookup_file (mirror_of
     [DFile "a.md" "x"; DDir "sub" [DFile "b.md" "y"];
      DDir FIXED_REFS_DIR [DFile "a.md" "old"; DFile "stale.md" "s"]]) p)).
Proof.
  assert (H1 : Forall wf_dirent
    [DFile "a.md" "x"; DDir "sub" [DFile "b.md" "y"];
     DDir FIXED_REFS_DIR [DFile "a.md" "old"; DFile "stale.md" "s"]]).
  { repeat constructor; cbn; repeat split; try discriminate; repeat constructor; cbn; intuition discriminate. }
  assert (H2 : NoDup (map dirent_name
    [DFile "a.md" "x"; DDir "sub" [DFile "b.md" "y"];
     DDir FIXED_REFS_DIR [DFile "a.md" "old"; DFile "stale.md" "s"]])).
  { cbn. repeat constructor; cbn; intuition discriminate. }
  assert (H3 : copy_dir
    [DFile "a.md" "x"; DDir "sub" [DFile "b.md" "y"];
     DDir FIXED_REFS_DIR [DFile "a.md" "old"; DFile "stale.md" "s"]] =
  Some [DFile "a.md" "x"; DDir "sub" [DFile "b.md" "y"];
        DDir FIXED_REFS_DIR [DFile "a.md" "x"; DFile "stale.md" "s"; DDir "sub" [DFile "b.md" "y"]]])
    by (vm_compute; reflexivity).
  split; [exact H1|]. split; [exact H2|]. split; [exact H3|].
  exact (copy_dir_lookup _ _ H1 H2 H3).
Defined.

(* ------------------------------------------------------------------ *)
(** ** [normalizePath] *)


Lemma has_char_app (c : ascii) (a b : string) :
  Str.has_char c (a ++ b) = Str.has_char c a || Str.has_char c b.
Proof.
  induction a as [|d a IH]; cbn; [reflexivity|]. rewrite IH, orb_assoc. reflexivity.
Qed.

Lemma has_char_rev (c : ascii) (s : string) : Str.has_char c (Str.rev_str s) = Str.has_char c s.
Proof.
  induction s as [|d s IH]; cbn; [reflexivity|].
  rewrite has_char_app, IH. cbn. rewrite orb_false_r, orb_comm. reflexivity.
Qed.

Lemma drop_slashes_suffix (s : string) : exists t, s = t ++ drop_slashes s.
Proof.
  induction s as [|c s IH]; cbn; [exists ""; reflexivity|].
  destruct (Ascii.eqb c slash).
  - destruct IH as [t Ht]. exists (String c t). cbn. rewrite <- Ht. reflexivity.
  - exists "". reflexivity.
Qed.

Lemma drop_slashes_head (s : string) : Str.starts_with "/" (drop_slashes s) = false.
Proof.
  induction s as [|c s IH]; [reflexivity|]. cbn [drop_slashes].
  destruct (Ascii.eqb c slash) eqn:E; [exact IH|].
  change (Ascii.eqb "/" c && true = false). rewrite Ascii.eqb_sym. unfold slash in E.
  rewrite E. reflexivity.
Qed.

Lemma drop_slashes_id (s : string) : Str.starts_with "/" s = false -> drop_slashes s = s.
Proof.
  destruct s as [|c s]; [reflexivity|]. intros H.
  change (Ascii.eqb "/" c && true = false) in H. rewrite andb_true_r, Ascii.eqb_sym in H.
  cbn [drop_slashes]. unfold slash. rewrite H. reflexivity.
Qed.

Lemma replace_char_none (c1 c2 : ascii) (s : string) :
  c1 <> c2 -> Str.has_char c1 (Str.replace_char c1 c2 s) = false.
Proof.
  intros Hne. induction s as [|c s IH]; cbn; [reflexivity|].
  rewrite IH, orb_false_r. destruct (Ascii.eqb c c1) eqn:E.
  - apply Ascii.eqb_neq. exact Hne.
  - rewrite Ascii.eqb_sym. exact E.
Qed.

Lemma replace_char_id (c1 c2 : ascii) (s : string) :
  Str.has_char c1 s = false -> Str.replace_char c1 c2 s = s.
Proof.
  induction s as [|c s IH]; cbn; [reflexivity|].
  intros H. apply orb_false_iff in H as [H1 H2].
  rewrite Ascii.eqb_sym, H1, IH by exact H2. reflexivity.
Qed.

Lemma drop_slashes_has_char (c : ascii) (s : string) :
  Str.has_char c s = false -> Str.has_char c (drop_slashes s) = false.
Proof.
  destruct (drop_slashes_suffix s) as [t Ht]. rewrite Ht at 1.
  rewrite has_char_app. intros H. apply orb_false_iff in H as [_ H]. exact H.
Qed.

(** [normalizePath] writes a path with forward slashes only, with no
    slash at its start or end, and a normalized path is its own
    normalization. *)
Theorem normalize_path_canonical (p : string) :
  Str.has_char backslash (normalize_path p) = false /\
  Str.starts_with "/" (normalize_path p) = false /\
  Str.last_char (normalize_path p) <> Some slash /\
  normalize_path (normalize_path p) = normalize_path p.
Proof.
  unfold normalize_path at 1 2 3 5.
  set (q := Str.replace_char backslash slash p).
  set (r1 := drop_slashes q). set (r2 := drop_slashes (Str.rev_str r1)).
  assert (Hq : Str.has_char backslash q = false) by (apply replace_char_none; discriminate).
  assert (Hb : Str.has_char backslash (Str.rev_str r2) = false).
  { rewrite has_char_rev. apply drop_slashes_has_char. rewrite has_char_rev.
    apply drop_slashes_has_char. exact Hq. }
  assert (Hr1 : Str.starts_with "/" r1 = false) by apply drop_slashes_head.
  assert (Hr2 : Str.starts_with "/" r2 = false) by apply drop_slashes_head.
  assert (Hs : Str.starts_with "/" (Str.rev_str r2) = false).
  { destruct (drop_slashes_suffix (Str.rev_str r1)) as [t Ht]. fold r2 in Ht.
    assert (He : r1 = Str.rev_str r2 ++ Str.rev_str t).
    { rewrite <- (rev_str_involutive r1), Ht, rev_str_app. reflexivity. }
    destruct (Str.rev_str r2) as [|c o]; [reflexivity|].
    rewrite He in Hr1. cbn in Hr1 |- *. exact Hr1. }
  assert (Hl : Str.last_char (Str.rev_str r2) <> Some slash).
  { destruct r2 as [|c r2']; [discriminate|].
    cbn [Str.rev_str]. rewrite last_char_snoc. intros Hc. injection Hc as ->.
    cbn in Hr2. discriminate. }
  split; [exact Hb|]. split; [exact Hs|]. split; [exact Hl|].
  unfold normalize_path. rewrite replace_char_id by exact Hb.
  rewrite (drop_slashes_id _ Hs), rev_str_involutive, (drop_slashes_id _ Hr2). reflexivity.
Qed.

(* ------------------------------------------------------------------ *)
(** ** The SUCCESS lines of the publisher's output *)

Lemma span_forall (p : ascii -> bool) (s : string) :
  forallb p (list_ascii_of_string (fst (span p s))) = true.
Proof.
  induction s as [|c s IH]; [reflexivity|]. cbn [span].
  destruct (p c) eqn:E; [|reflexivity].
  destruct (span p s) as [a b] eqn:Es. cbn in IH |- *. rewrite E, IH. reflexivity.
Qed.

Lemma lazy_plus_go_spec {A} (k : string -> string -> option A) (acc s : string) (r : A) :
  lazy_plus_go k acc s = Some r ->
  exists t s', t <> "" /\
    forallb (fun c => negb (is_line_terminator c)) (list_ascii_of_string t) = true /\
    k (acc ++ t) s' = Some r.
Proof.
  revert acc. induction s as [|c s IH]; intros acc H; cbn in H; [discriminate|].
  destruct (is_line_terminator c) eqn:Ec; [discriminate|].
  destruct (k (acc ++ String c "") s) as [r'|] eqn:Ek.
  - injection H as <-. exists (String c ""), s. split; [discriminate|].
    cbn. rewrite Ec. split; [reflexivity|exact Ek].
  - destruct (IH _ H) as (t & s' & Ht & Hf & Hk). exists (String c t), s'.
    split; [discriminate|]. cbn. rewrite Ec, Hf. split; [reflexivity|].
    rewrite str_app_assoc in Hk. exact Hk.
Qed.

Lemma success_at_shape (s p sk id rest : string) :
  success_at s = Some (p, sk, id, rest) -> success_shape (p, sk, id).
Proof.
  unfold success_at. destruct (Str.strip_prefix "SUCCESS: " s) as [s1|]; [|discriminate].
  unfold lazy_plus. intros H.
  destruct (lazy_plus_go_spec _ _ _ _ H) as (t & r1 & Ht & Hf & Hk). clear H. cbn [append] in Hk.
  destruct (Str.strip_prefix " Content: " r1) as [r2|]; [|discriminate].
  destruct (lazy_plus_go_spec _ _ _ _ Hk) as (t' & r3 & _ & _ & Hk'). clear Hk.
  destruct (Str.strip_prefix coreljira_spaces r3) as [r4|]; [|discriminate].
  pose proof (span_forall (not_char slash) r4) as Hsk.
  destruct (span (not_char slash) r4) as [sk0 r5]. cbn [fst] in Hsk.
  destruct sk0 as [|x sk0]; [discriminate|].
  destruct (Str.strip_prefix "/pages/" r5) as [r6|]; [|discriminate].
  pose proof (span_forall is_digit r6) as Hid.
  destruct (span is_digit r6) as [id0 r7]. cbn [fst] in Hid.
  destruct id0 as [|y id0]; [discriminate|].
  injection Hk' as <- <- <- _. cbn [success_shape].
  repeat split; try discriminate; assumption.
Qed.

Lemma success_matches_fuel_shape (n : nat) (s : string) (m : string * string * string) :
  In m (success_matches_fuel n s) -> success_shape m.
Proof.
  revert s. induction n as [|n IH]; intros s H; [destruct H|].
  cbn in H. destruct s as [|c s']; [destruct H|].
  destruct (success_at (String c s')) as [[[[p sk] id] rest]|] eqn:E.
  - destruct H as [<- | H]; [exact (success_at_shape _ _ _ _ _ E)|exact (IH _ H)].
  - exact (IH _ H).
Qed.

(** Every match [updatePageIds] reads from the publisher's output has a
    non-empty one-line path, a non-empty space key without ['/'] and a
    non-empty page id made of digits. *)
Theorem success_matches_shape (out p sk id : string) :
  In (p, sk, id) (success_matches out) ->
  p <> "" /\ forallb (fun c => negb (is_line_terminator c)) (list_ascii_of_string p) = true /\
  sk <> "" /\ forallb (not_char slash) (list_ascii_of_string sk) = true /\
  id <> "" /\ forallb is_digit (list_ascii_of_string id) = true.
Proof. apply success_matches_fuel_shape. Qed.

Lemma last_write_some {V} (k : string) (l : list (string * V)) (v : V) :
  last_write k l = Some v <->
  exists pre post, l = (pre ++ (k, v) :: post)%list /\ ~ In k (map fst post).
Proof.
  split.
  - induction l as [|[k' v'] l IH] using rev_ind; [discriminate|].
    rewrite last_write_app. cbn [last_write fold_left fst snd].
    destruct (String.eqb k k') eqn:E.
    + intros H. injection H as <-. apply String.eqb_eq in E. subst k'.
      exists l, []. split; [reflexivity|intros []].
    + intros H. destruct (IH H) as (pre & post & -> & Hn).
      exists pre, (post ++ [(k', v')])%list. split; [rewrite <- app_assoc; reflexivity|].
      rewrite map_app. intros Hin. apply in_app_or in Hin as [Hin | [Hk | []]]; [exact (Hn Hin)|].
      cbn in Hk. subst k'. rewrite String.eqb_refl in E. discriminate.
  - intros (pre & post & -> & Hn). rewrite last_write_app, last_write_cons, last_write_notin by exact Hn.
    rewrite String.eqb_refl. reflexivity.
Qed.

Lemma page_info_map_fold (l : list (string * string * string)) (m : list (string * (string * string))) :
  fold_left (fun m x => let '(p, sk, id) := x in assoc_set m p (id, sk)) l m =
  fold_left set_pair (map (fun x => let '(p, sk, id) := x in (p, (id, sk))) l) m.
Proof.
  revert m. induction l as [|[[p sk] id] l IH]; intros m; [reflexivity|]. apply IH.
Qed.

(** The page-id map of [updatePageIds] holds, for a path, the id and the
    space key of the last SUCCESS line for that path, and nothing for a
    path no SUCCESS line names. *)
Theorem page_info_map_lookup (out p id sk : string) :
  (assoc_get (page_info_map out) p = Some (id, sk) <->
   exists pre post, success_matches out = (pre ++ (p, sk, id) :: post)%list /\
                    forall sk' id', ~ In (p, sk', id') post) /\
  (assoc_get (page_info_map out) p = None <-> forall sk' id', ~ In (p, sk', id') (success_matches out)).
Proof.
  unfold page_info_map. rewrite page_info_map_fold, assoc_get_fold_set.
  set (f := fun x : string * string * string => let '(p, sk, id) := x in (p, (id, sk))).
  assert (Hin : forall l, In p (map fst (map f l)) <-> exists sk' id', In (p, sk', id') l).
  { intros l. rewrite map_map. rewrite in_map_iff. split.
    - intros ([[p' sk'] id'] & Hp & Hi). cbn in Hp. subst p'. exists sk', id'. exact Hi.
    - intros (sk' & id' & Hi). exists (p, sk', id'). split; [reflexivity|exact Hi]. }
  split.
  - destruct (last_write p (map f (success_matches out))) as [[id0 sk0]|] eqn:E.
    + rewrite last_write_some in E. destruct E as (pre & post & Hm & Hn).
      apply map_eq_app in Hm as (pre' & l2 & Hsm & _ & Hl2).
      destruct l2 as [|[[p2 sk2] id2] post']; [discriminate|].
      cbn in Hl2. injection Hl2 as -> -> -> Hpost.
      split.
      * intros H. injection H as -> ->. exists pre', post'. split; [exact Hsm|].
        intros sk' id' Hi. apply Hn. rewrite <- Hpost. apply Hin. exists sk', id'. exact Hi.
      * intros (pre1 & post0 & He & Hn0).
        assert (Hw : last_write p (map f (success_matches out)) = Some (id0, sk0)).
        { apply last_write_some. exists (map f pre'), (map f post'). split.
          - rewrite Hsm, map_app. reflexivity.
          - rewrite Hpost. exact Hn. }
        rewrite He, map_app in Hw. cbn [map] in Hw.
        change (f (p, sk, id)) with (p, (id, sk)) in Hw.
        rewrite last_write_app, last_write_cons, last_write_notin in Hw.
        -- rewrite String.eqb_refl in Hw. injection Hw as -> ->. reflexivity.
        -- intros Hi. apply Hin in Hi as (sk' & id' & Hi). exact (Hn0 sk' id' Hi).
    + cbn [assoc_get]. split; [discriminate|].
      intros (pre & post & He & Hn0).
      assert (Hv : last_write p (map f (success_matches out)) = Some (id, sk)).
      { apply last_write_some. exists (map f pre), (map f post). split.
        - rewrite He, map_app. reflexivity.
        - intros Hi. apply Hin in Hi as (sk' & id' & Hi). exact (Hn0 sk' id' Hi). }
      rewrite E in Hv. discriminate.
  - destruct (last_write p (map f (success_matches out))) as [[id0 sk0]|] eqn:E.
    + split; [discriminate|]. intros Hno.
      rewrite last_write_notin in E; [discriminate|].
      intros Hi. apply Hin in Hi as (sk' & id' & Hi). exact (Hno sk' id' Hi).
    + split; [|reflexivity]. intros _ sk' id' Hi.
      assert (Hs : In p (map fst (map f (success_matches out)))) by (apply Hin; eauto).
      clear Hi. induction (map f (success_matches out)) as [|[k v] l IH] using rev_ind; [destruct Hs|].
      rewrite last_write_app in E. cbn in E. destruct (String.eqb p k) eqn:Ek; [discriminate|].
      rewrite map_app in Hs. apply in_app_or in Hs as [Hs | [Hs | []]]; [exact (IH E Hs)|].
      cbn in Hs. subst k. rewrite String.eqb_refl in Ek. discriminate.
Qed.

(* ------------------------------------------------------------------ *)
(** ** [updatePageIds]: one file *)


(** A markdown file with page info is rewritten by [updatePageIds] with a
    frontmatter holding the page id and the space key of its SUCCESS
    line, [connie-publish: true] and [connie-dont-change-parent-page:
    false]; its title is the file's base name when it was missing or
    blank, else the title it had; every other key keeps the value the file
    had, or else the one of a frontmatter block the trimmed body still
    starts with ([updateFrontmatter]'s [matter]), or else the one of a
    block the rest starts with after that ([matter.stringify]'s [matter]). *)
Theorem upi_file_page_info {YE : YamlEngine} (pim : list (string * (string * string)))
    (rel name content pid sk : string) (b : bool) (c' : string) :
  assoc_get pim rel = Some (pid, sk) ->
  upi_file pim rel name content = Some (b, c') ->
  b = true /\
  exists ex rest d body m d2 c2,
    parse_frontmatter content = Some (ex, rest) /\ gm_matter rest = Some (d, body) /\
    gm_stringify body m = Some c' /\ gm_matter body = Some (d2, c2) /\
    let w := spread (spread [] d2) m in
    assoc_get w "connie-page-id" = Some (YStr pid) /\
    assoc_get w "connie-publish" = Some (YBool true) /\
    assoc_get w "connie-space-key" = Some (YStr sk) /\
    assoc_get w "connie-dont-change-parent-page" = Some (YBool false) /\
    (assoc_get w "connie-title" = Some (YStr (basename_md name)) \/
     exists t, last_write "connie-title" ex = Some (YStr t) /\
               assoc_get w "connie-title" = Some (YStr t) /\ Str.trim t <> "") /\
    forall k, ~ In k ["connie-page-id"; "connie-publish"; "connie-space-key";
                      "connie-dont-change-parent-page"; "connie-title"] ->
      assoc_get w k = or_else (last_write k ex) (or_else (last_write k d) (last_write k d2)).
Proof.
  intros Hp Hu. unfold upi_file in Hu.
  destruct (parse_frontmatter content) as [[ex rest]|] eqn:Hpf; [|discriminate].
  rewrite Hp in Hu.
  set (nf4 := assoc_set (assoc_set (assoc_set (assoc_set (spread [] ex) "connie-page-id" (YStr pid))
                "connie-publish" (YBool true)) "connie-space-key" (YStr sk))
                "connie-dont-change-parent-page" (YBool false)) in Hu.
  assert (Hnd4 : NoDup (map fst nf4)) by (repeat apply nodup_set; apply nodup_spread).
  assert (Hget4 : forall k, ~ In k ["connie-page-id"; "connie-publish"; "connie-space-key";
                      "connie-dont-change-parent-page"] -> assoc_get nf4 k = last_write k ex).
  { intros k Hk. subst nf4. rewrite !assoc_get_set_neq by (intros ->; apply Hk; cbn; tauto).
    apply assoc_get_spread_nil. }
  destruct (title_blank (assoc_get nf4 "connie-title")) as [blank|] eqn:Ht; [|discriminate].
  unfold update_frontmatter in Hu.
  destruct (gm_matter rest) as [[d body]|] eqn:Hg; [|discriminate].
  set (nf5 := if blank then assoc_set nf4 "connie-title" (YStr (basename_md name)) else nf4) in Hu.
  destruct (gm_stringify body (spread d nf5)) as [c0|] eqn:Hs; [|discriminate].
  cbn [option_map] in Hu. injection Hu as <- <-.
  destruct (gm_stringify_inv _ _ _ Hs) as (d2 & c2 & out & Hb & _ & _).
  assert (Hnd5 : NoDup (map fst nf5)) by (subst nf5; destruct blank; [apply nodup_set|]; exact Hnd4).
  assert (Hm : forall k, assoc_get (spread d nf5) k = or_else (assoc_get nf5 k) (last_write k d)).
  { intros k. rewrite spread_get by exact Hnd5. reflexivity. }
  assert (Hw : forall k, assoc_get (spread (spread [] d2) (spread d nf5)) k =
                         or_else (or_else (assoc_get nf5 k) (last_write k d)) (last_write k d2)).
  { intros k. rewrite assign_get by apply nodup_spread. rewrite Hm. reflexivity. }
  assert (H5 : forall k, k <> "connie-title" -> assoc_get nf5 k = assoc_get nf4 k).
  { intros k Hk. subst nf5. destruct blank; [|reflexivity]. apply assoc_get_set_neq. exact Hk. }
  split; [reflexivity|].
  exists ex, rest, d, body, (spread d nf5), d2, c2.
  split; [reflexivity|]. split; [exact Hg|]. split; [exact Hs|]. split; [exact Hb|].
  cbv zeta. rewrite !Hw, !H5 by discriminate. subst nf4.
  repeat split.
  - rewrite !assoc_get_set_neq by discriminate. rewrite assoc_get_set_eq. reflexivity.
  - rewrite !assoc_get_set_neq by discriminate. rewrite assoc_get_set_eq. reflexivity.
  - rewrite !assoc_get_set_neq by discriminate. rewrite assoc_get_set_eq. reflexivity.
  - rewrite assoc_get_set_eq. reflexivity.
  - subst nf5. destruct blank.
    + left. rewrite assoc_get_set_eq. reflexivity.
    + right. rewrite Hget4 in Ht |- * by (cbn; intuition discriminate).
      unfold title_blank in Ht.
      destruct (truthy (last_write "connie-title" ex)) eqn:Htr; [|discriminate].
      destruct (last_write "connie-title" ex) as [[]|]; try discriminate.
      injection Ht as Ht. exists s. split; [reflexivity|]. split; [reflexivity|].
      apply String.eqb_neq. exact Ht.
  - intros k Hk. rewrite Hw, H5 by (intros ->; apply Hk; cbn; tauto).
    rewrite Hget4 by (intros Hi; apply Hk; cbn in Hi |- *; tauto). apply or_else_assoc.
Qed.

Lemma upi_file_page_info_witness :
  let pim := [("a.md", ("123", "SP"))] in
  let content := text ["---"; "connie-title: Hello"; "x: 1"; "---"; "body"] in
  let c' := text ["---"; "connie-title: Hello"; "x: 1"; "connie-page-id: 123"; "connie-publish: true";
                  "connie-space-key: SP"; "connie-dont-change-parent-page: false"; "---"; "body"; ""] in
  assoc_get pim "a.md" = Some ("123", "SP") /\
  @upi_file MiniYaml.engine pim "a.md" "a.md" content = Some (true, c') /\
  (true = true /\
   exists ex rest d body m d2 c2,
    @parse_frontmatter MiniYaml.engine content = Some (ex, rest) /\
    @gm_matter MiniYaml.engine rest = Some (d, body) /\
    @gm_stringify MiniYaml.engine body m = Some c' /\
    @gm_matter MiniYaml.engine body = Some (d2, c2) /\
    let w := spread (spread [] d2) m in
    assoc_get w "connie-page-id" = Some (YStr "123") /\
    assoc_get w "connie-publish" = Some (YBool true) /\
    assoc_get w "connie-space-key" = Some (YStr "SP") /\
    assoc_get w "connie-dont-change-parent-page" = Some (YBool false) /\
    (assoc_get w "connie-title" = Some (YStr (basename_md "a.md")) \/
     exists t, last_write "connie-title" ex = Some (YStr t) /\
               assoc_get w "connie-title" = Some (YStr t) /\ Str.trim t <> "") /\
    forall k, ~ In k ["connie-page-id"; "connie-publish"; "connie-space-key";
                      "connie-dont-change-parent-page"; "connie-title"] ->
      assoc_get w k = or_else (last_write k ex) (or_else (last_write k d) (last_write k d2))).
Proof.
  intros pim content c'.
  assert (H1 : assoc_get pim "a.md" = Some ("123", "SP")) by (vm_compute; reflexivity).
  assert (H2 : @upi_file MiniYaml.engine pim "a.md" "a.md" content = Some (true, c'))
    by (vm_compute; reflexivity).
  split; [exact H1|]. split; [exact H2|].
  exact (@upi_file_page_info MiniYaml.engine pim "a.md" "a.md" content "123" "SP" true c' H1 H2).
Defined.

(* ------------------------------------------------------------------ *)
(** ** [updatePageIds]: the tree *)

Lemma find_entry_forall2 (P : dirent -> dirent -> Prop) (m : string) (es es' : list dirent) :
  Forall2 (fun e e' => dirent_name e' = dirent_name e /\ P e e') es es' ->
  match find_entry m es with
  | Some e => exists e', find_entry m es' = Some e' /\ P e e'
  | None => find_entry m es' = None
  end.
Proof.
  induction 1 as [|e e' es es' [Hn HP] _ IH]; cbn; [reflexivity|].
  rewrite Hn. destruct (String.eqb (dirent_name e) m); [|exact IH].
  exists e'. split; [reflexivity|exact HP].
Qed.

Lemma lookup_file_head (e : dirent) (es : list dirent) (m : string) (q : list string) :
  find_entry m es = Some e -> lookup_file es (m :: q) = lookup_file [e] (m :: q).
Proof.
  intros H. apply lookup_file_find. rewrite H. cbn.
  rewrite (find_entry_name _ _ _ H), String.eqb_refl. reflexivity.
Qed.


Lemma lookup_file_dir (n : string) (es : list dirent) (p : list string) (c : string) :
  lookup_file [DDir n es] p = Some c ->
  exists m q, p = n :: m :: q /\ lookup_file es (m :: q) = Some c.
Proof.
  destruct p as [|n' [|m q]]; [discriminate| |].
  - rewrite lookup_file_one. cbn. destruct (String.eqb n n'); discriminate.
  - rewrite lookup_file_more. cbn. destruct (String.eqb n n') eqn:E; [|discriminate].
    apply String.eqb_eq in E. subst n'. intros H. exists m, q. split; [reflexivity|exact H].
Qed.

Lemma lookup_file_dir_back (n : string) (es : list dirent) (m : string) (q : list string) :
  lookup_file [DDir n es] (n :: m :: q) = lookup_file es (m :: q).
Proof. rewrite lookup_file_more. cbn. rewrite String.eqb_refl. reflexivity. Qed.

Lemma upi_entry_keeps {YE : YamlEngine} (pim : list (string * (string * string))) (e : dirent) :
  forall rel b e', upi_entry pim rel e = Some (b, e') -> upi_keeps pim rel e e'.
Proof.
  induction e as [n c|n es IH] using dirent_ind'; intros rel b e' H.
  - cbn [upi_entry] in H. destruct (is_md n) eqn:Hmd.
    + destruct (upi_file pim (path_join rel n) n c) as [[b0 c0]|] eqn:Hu; [|discriminate].
      cbn in H. injection H as <- <-. split; [reflexivity|].
      intros p c1 Hl Hc.
      destruct p as [|n' [|m q]]; [discriminate| |].
      * rewrite lookup_file_one in Hl |- *. cbn in Hl |- *.
        destruct (String.eqb n n') eqn:E; [|discriminate]. injection Hl as <-.
        apply String.eqb_eq in E. subst n'. cbn in Hc. rewrite Hmd in Hc.
        destruct Hc as [Hc | Hc]; [discriminate|].
        unfold upi_file in Hu. rewrite Hc in Hu.
        destruct (parse_frontmatter c) as [[]|]; [|discriminate]. injection Hu as _ <-. reflexivity.
      * rewrite lookup_file_more in Hl. cbn in Hl. destruct (String.eqb n n'); discriminate.
    + injection H as <- <-. split; [reflexivity|]. intros p c1 Hl _. exact Hl.
  - cbn [upi_entry] in H.
    assert (Hgo : forall es0 b0 es1, Forall (fun e => forall rel b e', upi_entry pim rel e = Some (b, e') ->
                     upi_keeps pim rel e e') es0 ->
              (fix go (es : list dirent) : option (bool * list dirent) :=
                 match es with
                 | [] => Some (false, [])
                 | e' :: es' =>
                     match upi_entry pim (path_join rel n) e' with
                     | Some (b, e'') => option_map (fun p => (b || fst p, e'' :: snd p)) (go es')
                     | None => None
                     end
                 end) es0 = Some (b0, es1) ->
              Forall2 (fun e e' => dirent_name e' = dirent_name e /\ upi_keeps pim (path_join rel n) e e')
                es0 es1).
    { induction es0 as [|x es0 IHes]; intros b0 es1 Hall Hg.
      - injection Hg as _ <-. constructor.
      - inversion Hall as [|? ? Hx Hall']; subst.
        destruct (upi_entry pim (path_join rel n) x) as [[bx x']|] eqn:Hux; [|discriminate].
        destruct (_ es0) as [[b1 es2]|] eqn:Hrest in Hg; [|discriminate].
        cbn in Hg. injection Hg as _ <-.
        pose proof (Hx _ _ _ Hux) as Hk. constructor.
        + split; [|exact Hk]. destruct Hk as [Hs _].
          destruct x, x'; cbn in Hs |- *; congruence.
        + exact (IHes _ _ Hall' Hrest). }
    match type of H with
    | option_map _ (?F es) = _ =>
        destruct (F es) as [[b0 es1]|] eqn:Hf; [|discriminate]
    end.
    cbn in H. injection H as _ <-.
    pose proof (Hgo es b0 es1 IH Hf) as H2. clear Hgo Hf.
    split.
    + cbn. f_equal. clear IH. induction H2 as [|x x' xs xs' [_ [Hs _]] _ IHl]; [reflexivity|].
      cbn. rewrite Hs, IHl. reflexivity.
    + intros p c Hl Hc. apply lookup_file_dir in Hl as (m & q & -> & Hl).
      rewrite lookup_file_dir_back.
      pose proof (find_entry_forall2 _ m _ _ H2) as Hfe.
      destruct (find_entry m es) as [x|] eqn:Hx.
      * destruct Hfe as (x' & Hx' & _ & Hk).
        rewrite (lookup_file_head _ _ _ _ Hx') . rewrite (lookup_file_head _ _ _ _ Hx) in Hl.
        apply Hk; [exact Hl|]. exact Hc.
      * rewrite (lookup_file_find es [] m q) in Hl by (rewrite Hx; reflexivity).
        rewrite lookup_file_nil in Hl. discriminate.
Qed.

(** [updatePageIds] keeps the names and the shape of the docs tree, and
    every file that is not markdown or has no page info in the
    publisher's output keeps its content. *)
Theorem update_page_ids_keeps {YE : YamlEngine} (out : string) (root : list dirent) (b : bool)
    (root' : list dirent) :
  update_page_ids out root = Some (b, root') ->
  map dirent_shape root' = map dirent_shape root /\
  forall p c, lookup_file root p = Some c ->
    is_md (last p "") = false \/ assoc_get (page_info_map out) (rel_of "" p) = None ->
    lookup_file root' p = Some c.
Proof.
  unfold update_page_ids. intros H.
  destruct (upi_entry (page_info_map out) "" (DDir "" root)) as [[b0 [n0 c0|n0 es]]|] eqn:Hu;
    try discriminate.
  injection H as _ <-.
  destruct (upi_entry_keeps _ _ _ _ _ Hu) as [Hs Hl].
  cbn in Hs. injection Hs as -> Hs. split; [exact Hs|].
  intros p c Hp Hc. destruct p as [|m q]; [discriminate|].
  rewrite <- (lookup_file_dir_back "" es m q). apply Hl; [rewrite lookup_file_dir_back; exact Hp|].
  exact Hc.
Qed.

Lemma update_page_ids_keeps_witness :
  let out := "SUCCESS: a.md Content: x Page URL: https://coreljira.atlassian.net/wiki/spaces/SP/pages/123" in
  let root := [DFile "a.md" (text ["---"; "x: 1"; "---"; "body"]); DFile "b.md" "plain";
               DFile "img.png" "bin"] in
  let root' := [DFile "a.md" (text ["---"; "x: 1"; "connie-page-id: 123"; "connie-publish: true";
                                     "connie-space-key: SP"; "connie-dont-change-parent-page: false";
                                     "connie-title: a"; "---"; "body"; ""]);
                DFile "b.md" "plain"; DFile "img.png" "bin"] in
  @update_page_ids MiniYaml.engine out root = Some (true, root') /\
  (map dirent_shape root' = map dirent_shape root /\
   forall p c, lookup_file root p = Some c ->
     is_md (last p "") = false \/ assoc_get (page_info_map out) (rel_of "" p) = None ->
     lookup_file root' p = Some c).
Proof.
  intros out root root'.
  assert (H : @update_page_ids MiniYaml.engine out root = Some (true, root')) by (vm_compute; reflexivity).
  split; [exact H|]. exact (@update_page_ids_keeps MiniYaml.engine out root true root' H).
Defined.

Lemma success_matches_shape_witness :
  In ("a.md", "SP", "123")
    (success_matches "SUCCESS: a.md Content: x Page URL: https://coreljira.atlassian.net/wiki/spaces/SP/pages/123") /\
  ("a.md" <> "" /\ forallb (fun c => negb (is_line_terminator c)) (list_ascii_of_string "a.md") = true /\
   "SP" <> "" /\ forallb (not_char slash) (list_ascii_of_string "SP") = true /\
   "123" <> "" /\ forallb is_digit (list_ascii_of_string "123") = true).
Proof.
  assert (H : In ("a.md", "SP", "123")
    (success_matches "SUCCESS: a.md Content: x Page URL: https://coreljira.atlassian.net/wiki/spaces/SP/pages/123"))
    by (vm_compute; left; reflexivity).
  split; [exact H|]. exact (success_matches_shape _ _ _ _ H).
Defined.

(* ------------------------------------------------------------------ *)
(** ** [loadConfig] *)

Lemma fold_fill_none (env : env_t) (ms : list (string * list string)) :
  fold_left (fun acc m => match acc with Some c => fill_from_env env c m | None => None end) ms None = None.
Proof. induction ms as [|m ms IH]; [reflexivity|exact IH]. Qed.

Lemma fold_fill_obj (env : env_t) (ms : list (string * list string)) (o : config) :
  NoDup (map fst ms) ->
  debug_set env = false \/ (forall k, In k (map fst ms) -> json_opt_throws (assoc_get o k) = false) ->
  exists o',
    fold_left (fun acc m => match acc with Some c => fill_from_env env c m | None => None end)
      ms (Some (VObj o)) = Some (VObj o') /\
    (forall k eks, In (k, eks) ms ->
       assoc_get o' k = if json_falsy (assoc_get o k)
                        then or_else (option_map JStr (first_env env eks)) (assoc_get o k)
                        else assoc_get o k) /\
    (forall k, ~ In k (map fst ms) -> assoc_get o' k = assoc_get o k).
Proof.
  revert o. induction ms as [|[k eks] ms IH]; intros o Hnd Hd.
  - exists o. split; [reflexivity|]. split; [intros k eks []|reflexivity].
  - inversion Hnd as [|? ? Hk Hnd']; subst. cbn [fold_left].
    assert (Hd0 : debug_set env && json_opt_throws (assoc_get o k) = false).
    { destruct Hd as [-> | Hd]; [reflexivity|]. rewrite (Hd k (or_introl eq_refl)). apply andb_false_r. }
    set (o1 := if json_falsy (assoc_get o k)
               then match first_env env eks with Some s => assoc_set o k (JStr s) | None => o end
               else o).
    assert (Hstep : fill_from_env env (VObj o) (k, eks) = Some (VObj o1)).
    { subst o1. unfold fill_from_env. cbn [prop_get]. rewrite Hd0.
      destruct (json_falsy (assoc_get o k)); [|reflexivity].
      destruct (first_env env eks); reflexivity. }
    assert (Ho1 : forall k', k' <> k -> assoc_get o1 k' = assoc_get o k').
    { intros k' Hne. subst o1. destruct (json_falsy (assoc_get o k)); [|reflexivity].
      destruct (first_env env eks); [apply assoc_get_set_neq; exact Hne|reflexivity]. }
    assert (Hd1 : debug_set env = false \/
                  (forall k', In k' (map fst ms) -> json_opt_throws (assoc_get o1 k') = false)).
    { destruct Hd as [Hd|Hd]; [left; exact Hd|right]. intros k' Hk'.
      rewrite Ho1 by (intros ->; exact (Hk Hk')). apply Hd. right. exact Hk'. }
    rewrite Hstep. destruct (IH o1 Hnd' Hd1) as (o' & Hf & Hin & Hout).
    exists o'. split; [exact Hf|]. split.
    + intros k2 eks2 [He | Hi].
      * injection He as <- <-. rewrite Hout by exact Hk. subst o1.
        destruct (json_falsy (assoc_get o k)); [|reflexivity].
        destruct (first_env env eks); cbn; [apply assoc_get_set_eq|reflexivity].
      * rewrite (Hin k2 eks2 Hi).
        assert (Hne : k2 <> k).
        { intros ->. apply Hk. apply in_map_iff. exists (k, eks2). split; [reflexivity|exact Hi]. }
        rewrite !Ho1 by exact Hne. reflexivity.
    + intros k2 Hk2. rewrite Hout by (intros Hi; apply Hk2; right; exact Hi).
      apply Ho1. intros ->. apply Hk2. left. reflexivity.
Qed.

Lemma fold_fill_throw (env : env_t) (ms : list (string * list string)) (o : config) (k : string) :
  NoDup (map fst ms) -> debug_set env = true -> In k (map fst ms) ->
  json_opt_throws (assoc_get o k) = true ->
  fold_left (fun acc m => match acc with Some c => fill_from_env env c m | None => None end)
    ms (Some (VObj o)) = None.
Proof.
  revert o. induction ms as [|[k0 eks] ms IH]; intros o Hnd Hdbg Hin Ht; [destruct Hin|].
  inversion Hnd as [|? ? Hk Hnd']; subst. cbn [fold_left].
  unfold fill_from_env at 2. cbn [prop_get]. rewrite Hdbg. cbn [andb].
  destruct (json_opt_throws (assoc_get o k0)) eqn:E0; [apply fold_fill_none|].
  destruct Hin as [Heq|Hin]; [cbn in Heq; subst k0; rewrite Ht in E0; discriminate|].
  assert (Hne : k <> k0) by (intros ->; exact (Hk Hin)).
  destruct (json_falsy (assoc_get o k0)); [destruct (first_env env eks)|]; cbn [prop_set];
    apply IH; try assumption.
  rewrite assoc_get_set_neq by exact Hne. exact Ht.
Qed.

(** [loadConfig] on a configuration file holding an object (or missing,
    or not JSON: [{}]): with [DEBUG] set, it throws when the value of a key
    of [envMapping] has no string conversion (line 63 logs it).  Otherwise
    a key of [envMapping] whose value is falsy takes the value of the first
    of its environment variables that is set (and keeps its value when
    none is); a truthy value and every other key are kept. *)
Theorem load_config_object {JP : JsonParser} (file : option string) (env : env_t) (o : config) :
  initial_config file = VObj o ->
  ((debug_set env = true /\
    exists k, In k (map fst envMapping) /\ json_opt_throws (assoc_get o k) = true) ->
   load_config file env = None) /\
  ((debug_set env = false \/
    forall k, In k (map fst envMapping) -> json_opt_throws (assoc_get o k) = false) ->
   exists o', load_config file env = Some (VObj o') /\
    (forall k eks, In (k, eks) envMapping ->
       assoc_get o' k = if json_falsy (assoc_get o k)
                        then or_else (option_map JStr (first_env env eks)) (assoc_get o k)
                        else assoc_get o k) /\
    (forall k, ~ In k (map fst envMapping) -> assoc_get o' k = assoc_get o k)).
Proof.
  intros H. assert (Hnd : NoDup (map fst envMapping)).
  { cbn. repeat constructor; cbn; intuition discriminate. }
  unfold load_config. rewrite H. split.
  - intros [Hd (k & Hk & Ht)]. exact (fold_fill_throw env envMapping o k Hnd Hd Hk Ht).
  - intros Hd. exact (fold_fill_obj env envMapping o Hnd Hd).
Qed.

Lemma fold_fill_prim (env : env_t) (ms : list (string * list string)) (v : json) :
  fold_left (fun acc m => match acc with Some c => fill_from_env env c m | None => None end)
    ms (Some (VPrim v)) =
  if existsb (fun m => match first_env env (snd m) with Some _ => true | None => false end) ms
  then None else Some (VPrim v).
Proof.
  induction ms as [|[k eks] ms IH]; [reflexivity|]. cbn [fold_left existsb snd].
  unfold fill_from_env at 2. cbn [prop_get json_falsy json_opt_throws]. rewrite andb_false_r.
  destruct (first_env env eks); cbn [prop_set orb]; [apply fold_fill_none|exact IH].
Qed.

(** [loadConfig] when the file holds [null]: it throws (reading a
    property of [null]); when the file holds a string, a number or a
    boolean: it throws as soon as one of the variables of [envMapping] is
    set (assigning a property of a primitive in strict mode), and returns
    the primitive otherwise. *)
Theorem load_config_not_object {JP : JsonParser} (file : option string) (env : env_t) :
  match initial_config file with
  | VNull => load_config file env = None
  | VPrim v =>
      load_config file env =
      if existsb (fun m => match first_env env (snd m) with Some _ => true | None => false end) envMapping
      then None else Some (VPrim v)
  | _ => True
  end.
Proof.
  unfold load_config. destruct (initial_config file) as [o|l p|v|]; try exact I.
  - apply fold_fill_prim.
  - reflexivity.
Qed.

Lemma load_config_object_witness :
  let file := Some ("{" ++ String dquote "confluenceBaseUrl" ++ String dquote ": " ++
                    String dquote (String dquote ", ") ++ String dquote "x" ++ String dquote ": 1}") in
  let o := [("confluenceBaseUrl", JStr ""); ("x", JNum 1)] in
  let env := [("CONNIE_BASE_URL", "https://example.net"); ("DEBUG", "1")] in
  @initial_config MiniJson.parser file = VObj o /\
  ((debug_set env = true /\
    exists k, In k (map fst envMapping) /\ json_opt_throws (assoc_get o k) = true) ->
   @load_config MiniJson.parser file env = None) /\
  ((debug_set env = false \/
    forall k, In k (map fst envMapping) -> json_opt_throws (assoc_get o k) = false) ->
   exists o', @load_config MiniJson.parser file env = Some (VObj o') /\
    (forall k eks, In (k, eks) envMapping ->
       assoc_get o' k = if json_falsy (assoc_get o k)
                        then or_else (option_map JStr (first_env env eks)) (assoc_get o k)
                        else assoc_get o k) /\
    (forall k, ~ In k (map fst envMapping) -> assoc_get o' k = assoc_get o k)).
Proof.
  intros file o env.
  assert (H : @initial_config MiniJson.parser file = VObj o) by (vm_compute; reflexivity).
  split; [exact H|]. exact (@load_config_object MiniJson.parser file env o H).
Defined.

(** With [DEBUG] set, [loadConfig] throws on a mapped key whose value is
    an object with a [toString] property, and goes through without it. *)
Lemma load_config_debug_example :
  let file := Some ("{" ++ String dquote "confluenceBaseUrl" ++ String dquote ": {" ++
                    String dquote "toString" ++ String dquote ": 1}}") in
  @load_config MiniJson.parser file [("DEBUG", "1")] = None /\
  @load_config MiniJson.parser file [] <> None.
Proof. vm_compute. split; [reflexivity|discriminate]. Qed.

(* ------------------------------------------------------------------ *)
(** ** [ensureConfig] *)

Lemma fold_fill_inv (env : env_t) (ms : list (string * list string)) (c c' : jsval) :
  props_nodup c ->
  fold_left (fun acc m => match acc with Some c => fill_from_env env c m | None => None end)
    ms (Some c) = Some c' -> props_nodup c'.
Proof.
  revert c. induction ms as [|[k eks] ms IH]; intros c Hc H; cbn [fold_left] in H.
  - injection H as <-. exact Hc.
  - destruct (fill_from_env env c (k, eks)) as [c1|] eqn:E; [|rewrite fold_fill_none in H; discriminate].
    apply (IH c1); [|exact H]. unfold fill_from_env in E.
    destruct (prop_get c k) as [v|]; [|discriminate].
    destruct (debug_set env && json_opt_throws v); [discriminate|].
    destruct (json_falsy v); [|injection E as <-; exact Hc].
    destruct (first_env env eks) as [s|]; [|injection E as <-; exact Hc].
    destruct c as [o|l p|w|]; cbn in E; try discriminate; injection E as <-; cbn in *;
      apply nodup_set; exact Hc.
Qed.

Lemma load_config_nodup {JP : JsonParser} (file : option string) (env : env_t) (c : jsval) :
  (forall o, initial_config file = VObj o -> NoDup (map fst o)) ->
  load_config file env = Some c -> props_nodup c.
Proof.
  intros Hn H. unfold load_config in H. refine (fold_fill_inv _ _ _ _ _ H).
  destruct (initial_config file) as [o|l p|v|] eqn:E; cbn; [exact (Hn o eq_refl)| |exact I|exact I].
  unfold initial_config in E. destruct file as [txt|]; [|discriminate].
  destruct (json_parse txt) as [[]|]; cbn in E; try discriminate. injection E as _ <-. constructor.
Qed.

Lemma last_write_own (c : jsval) (k : string) (v : json) :
  props_nodup c -> prop_get c k = Some (Some v) -> last_write k (own_props c) = Some v.
Proof.
  destruct c as [o|l p|w|]; cbn [props_nodup prop_get own_props]; intros Hn H; try discriminate.
  - injection H as H. rewrite last_write_nodup by exact Hn. exact H.
  - injection H as H. rewrite last_write_app, (last_write_nodup k p Hn), H. reflexivity.
Qed.

Lemma assoc_get_answers (f : string -> json) (l : list string) (k : string) :
  assoc_get (map (fun k => (k, f k)) l) k = if existsb (String.eqb k) l then Some (f k) else None.
Proof.
  induction l as [|k' l IH]; cbn; [reflexivity|].
  destruct (String.eqb k k') eqn:E; [|exact IH].
  apply String.eqb_eq in E. subst k'. reflexivity.
Qed.

Lemma config_defaults_other (nc : config) (k : string) :
  NoDup (map fst nc) -> k <> "folderToPublish" -> k <> "mermaid" ->
  assoc_get (config_defaults nc) k = assoc_get nc k.
Proof.
  intros Hn H1 H2. unfold config_defaults.
  rewrite spread_get by (repeat constructor; cbn; intuition discriminate).
  cbn [assoc_get]. apply String.eqb_neq in H1, H2. rewrite H1, H2. apply last_write_nodup. exact Hn.
Qed.

Lemma config_defaults_folder (nc : config) :
  assoc_get (config_defaults nc) "folderToPublish" = Some (or_json (assoc_get nc "folderToPublish") (JStr ".")).
Proof.
  unfold config_defaults. rewrite spread_get by (repeat constructor; cbn; intuition discriminate). reflexivity.
Qed.

Lemma config_defaults_mermaid (nc : config) :
  assoc_get (config_defaults nc) "mermaid" =
  Some (or_json (assoc_get nc "mermaid") (JObj [("theme", JStr "default"); ("padding", JNum 5)])).
Proof.
  unfold config_defaults. rewrite spread_get by (repeat constructor; cbn; intuition discriminate). reflexivity.
Qed.

Lemma or_json_truthy (v : option json) (d : json) :
  json_falsy (Some d) = false -> json_falsy (Some (or_json v d)) = false.
Proof.
  intros Hd. destruct v as [x|]; cbn [or_json]; [|exact Hd].
  destruct (json_falsy (Some x)) eqn:E; [exact Hd|exact E].
Qed.

Lemma or_json_keep (x d : json) :
  json_falsy (Some x) = false -> or_json (Some x) d = x.
Proof. intros H. cbn [or_json]. rewrite H. reflexivity. Qed.

Lemma trim_nonblank (s : string) : Str.trim s <> "" -> s <> "".
Proof. intros H ->. apply H. reflexivity. Qed.

Lemma nodup_required : NoDup REQUIRED_CONFIG_KEYS.
Proof. repeat constructor; cbn; intuition discriminate. Qed.

Lemma existsb_eqb_filter (f : string -> bool) (l : list string) (k : string) :
  existsb (String.eqb k) (filter f l) = true -> In k l /\ f k = true.
Proof.
  intros H. apply existsb_exists in H as (k' & Hin & E). apply String.eqb_eq in E. subst k'.
  apply filter_In in Hin. exact Hin.
Qed.

Lemma existsb_eqb_filter_in (f : string -> bool) (l : list string) (k : string) :
  In k l -> f k = true -> existsb (String.eqb k) (filter f l) = true.
Proof.
  intros Hin Hf. apply existsb_exists. exists k. split.
  - apply filter_In. split; assumption.
  - apply String.eqb_refl.
Qed.

Lemma ensure_config_shape {JP : JsonParser} (file : option string) (env : env_t)
    (ask : string -> string) (confirm : bool) (saved : option config) (final : config) :
  ensure_config file env ask confirm = Some (saved, final) ->
  exists ex nc, load_config file env = Some ex /\ ex <> VNull /\ NoDup (map fst nc) /\
    final = config_defaults nc /\ (saved = None \/ saved = Some nc) /\
    forall k, assoc_get nc k =
      if existsb (String.eqb k)
           (filter (fun k => match prop_get ex k with Some v => json_falsy v | None => true end)
              REQUIRED_CONFIG_KEYS)
      then Some (JStr (ask k)) else last_write k (own_props ex).
Proof.
  intros H. unfold ensure_config in H.
  destruct (load_config file env) as [ex|]; [|discriminate].
  exists ex.
  assert (Hex : ex <> VNull) by (intros ->; discriminate).
  remember (filter (fun k => match prop_get ex k with Some v => json_falsy v | None => true end)
              REQUIRED_CONFIG_KEYS) as missing eqn:Hm.
  assert (H' : match missing with
               | [] => Some (None, config_defaults (spread [] (own_props ex)))
               | _ :: _ =>
                   Some (if confirm then Some (spread (own_props ex) (map (fun k => (k, JStr (ask k))) missing))
                         else None,
                         config_defaults (spread (own_props ex) (map (fun k => (k, JStr (ask k))) missing)))
               end = Some (saved, final))
    by (destruct ex; [subst missing; exact H..|contradiction]).
  clear H.
  destruct missing as [|m1 ms]; injection H' as Hs Hf; subst final; eexists;
  (split; [reflexivity|]); (split; [exact Hex|]);
  (split; [apply nodup_spread|]); (split; [reflexivity|]);
  (split; [destruct confirm; subst saved; auto|]); intros k.
  - apply assoc_get_spread_nil.
  - rewrite spread_get;
    [ change ((m1, JStr (ask m1)) :: map (fun k => (k, JStr (ask k))) ms) with (map (fun k => (k, JStr (ask k))) (m1 :: ms));
      rewrite (assoc_get_answers (fun k => JStr (ask k))); destruct (existsb (String.eqb k) (m1 :: ms)); reflexivity
    | cbn [map fst]; rewrite map_map; cbn [fst]; rewrite map_id; change (NoDup (m1 :: ms)); rewrite Hm;
      apply NoDup_filter; exact nodup_required ].
Qed.

Lemma ensure_kept (ex : jsval) (ask : string -> string) (k : string) (v : json) :
  props_nodup ex -> prop_get ex k = Some (Some v) -> json_falsy (Some v) = false ->
  (if existsb (String.eqb k)
        (filter (fun k => match prop_get ex k with Some v => json_falsy v | None => true end)
           REQUIRED_CONFIG_KEYS)
   then Some (JStr (ask k)) else last_write k (own_props ex)) = Some v.
Proof.
  intros Hn Hp Hv.
  destruct (existsb _ _) eqn:E.
  - apply existsb_eqb_filter in E as [_ E]. rewrite Hp, Hv in E. discriminate.
  - exact (last_write_own ex k v Hn Hp).
Qed.

(** [ensureConfig] with answers that pass the prompt's validation (not
    blank), on a configuration file whose object holds no key twice: the
    configuration it returns has a truthy value for every required key and
    for [folderToPublish] and [mermaid], it keeps every truthy value
    [loadConfig] gave (from the file or the environment), and the object
    it saves, when it saves one, has a truthy value for every required key. *)
Theorem ensure_config_complete {JP : JsonParser} (file : option string) (env : env_t)
    (ask : string -> string) (confirm : bool) (saved : option config) (final : config) :
  (forall o, initial_config file = VObj o -> NoDup (map fst o)) ->
  (forall k, Str.trim (ask k) <> "") ->
  ensure_config file env ask confirm = Some (saved, final) ->
  (forall k, In k ("folderToPublish" :: "mermaid" :: REQUIRED_CONFIG_KEYS) ->
     json_falsy (assoc_get final k) = false) /\
  (forall ex k v, load_config file env = Some ex -> prop_get ex k = Some (Some v) ->
     json_falsy (Some v) = false -> assoc_get final k = Some v) /\
  (forall s k, saved = Some s -> In k REQUIRED_CONFIG_KEYS -> json_falsy (assoc_get s k) = false).
Proof.
  intros Hn Hask H.
  destruct (ensure_config_shape file env ask confirm saved final H)
    as (ex & nc & Hl & Hex & Hnd & -> & Hs & Hget).
  pose proof (load_config_nodup file env ex Hn Hl) as Hnex.
  (* a required key has a truthy value in [nc] *)
  assert (Hreq : forall k, In k REQUIRED_CONFIG_KEYS -> json_falsy (assoc_get nc k) = false).
  { intros k Hk. rewrite Hget. destruct (existsb _ _) eqn:E.
    - cbn [json_falsy]. apply String.eqb_neq, trim_nonblank, Hask.
    - destruct (prop_get ex k) as [[x|]|] eqn:Ep.
      + destruct (json_falsy (Some x)) eqn:Ef.
        * exfalso. rewrite (existsb_eqb_filter_in _ _ k Hk) in E; [discriminate|]. rewrite Ep. exact Ef.
        * rewrite (last_write_own ex k x Hnex Ep). exact Ef.
      + exfalso. rewrite (existsb_eqb_filter_in _ _ k Hk) in E; [discriminate|]. rewrite Ep. reflexivity.
      + destruct ex; [discriminate..|contradiction]. }
  split; [|split].
  - intros k [<- | [<- | Hk]].
    + rewrite config_defaults_folder. apply or_json_truthy. reflexivity.
    + rewrite config_defaults_mermaid. apply or_json_truthy. reflexivity.
    + rewrite config_defaults_other by
        (exact Hnd || (intros ->; cbn in Hk; intuition discriminate)).
      exact (Hreq k Hk).
  - intros ex' k v Hl' Hp Hv. rewrite Hl in Hl'. injection Hl' as <-.
    pose proof (ensure_kept ex ask k v Hnex Hp Hv) as Hk. rewrite <- Hget in Hk.
    destruct (String.eqb k "folderToPublish") eqn:E1; [apply String.eqb_eq in E1; subst k|].
    { rewrite config_defaults_folder, Hk, or_json_keep by exact Hv. reflexivity. }
    destruct (String.eqb k "mermaid") eqn:E2; [apply String.eqb_eq in E2; subst k|].
    { rewrite config_defaults_mermaid, Hk, or_json_keep by exact Hv. reflexivity. }
    apply String.eqb_neq in E1, E2. rewrite config_defaults_other by assumption. exact Hk.
  - intros s k -> Hk. destruct Hs as [Hs|Hs]; [discriminate|]. injection Hs as ->. exact (Hreq k Hk).
Qed.

Lemma ensure_config_complete_witness :
  let file := Some ("{" ++ String dquote "confluenceBaseUrl" ++ String dquote ": " ++
                    String dquote (String dquote ", ") ++ String dquote "x" ++ String dquote ": 1}") in
  let env := [("CONNIE_BASE_URL", "https://example.net")] in
  let ask := fun _ : string => "answer" in
  (forall o, @initial_config MiniJson.parser file = VObj o -> NoDup (map fst o)) /\
  (forall k, Str.trim (ask k) <> "") /\
  match @ensure_config MiniJson.parser file env ask true with
  | Some (saved, final) =>
      (forall k, In k ("folderToPublish" :: "mermaid" :: REQUIRED_CONFIG_KEYS) ->
         json_falsy (assoc_get final k) = false) /\
      (forall ex k v, @load_config MiniJson.parser file env = Some ex -> prop_get ex k = Some (Some v) ->
         json_falsy (Some v) = false -> assoc_get final k = Some v) /\
      (forall s k, saved = Some s -> In k REQUIRED_CONFIG_KEYS -> json_falsy (assoc_get s k) = false)
  | None => False
  end.
Proof.
  intros file env ask.
  assert (H1 : forall o, @initial_config MiniJson.parser file = VObj o -> NoDup (map fst o)).
  { intros o H. vm_compute in H. injection H as <-. repeat constructor; cbn; intuition discriminate. }
  assert (H2 : forall k, Str.trim (ask k) <> "") by (intros k; vm_compute; discriminate).
  split; [exact H1|]. split; [exact H2|].
  destruct (@ensure_config MiniJson.parser file env ask true) as [[saved final]|] eqn:E.
  - exact (@ensure_config_complete MiniJson.parser file env ask true saved final H1 H2 E).
  - vm_compute in E. discriminate.
Defined.

(* ------------------------------------------------------------------ *)
(** ** The environment of the publisher *)

Lemma assoc_get_fold_const {V} (bs : list string) (v : V) (e : list (string * V)) (k : string) :
  assoc_get (fold_left (fun e b => assoc_set e b v) bs e) k =
  if existsb (String.eqb k) bs then Some v else assoc_get e k.
Proof.
  revert e. induction bs as [|b bs IH]; intros e; cbn [fold_left existsb]; [reflexivity|].
  rewrite IH. destruct (String.eqb k b) eqn:E; cbn [orb].
  - apply String.eqb_eq in E. subst b. rewrite assoc_get_set_eq. destruct (existsb _ _); reflexivity.
  - apply String.eqb_neq in E. rewrite assoc_get_set_neq by exact E. reflexivity.
Qed.

Lemma copy_if_set_get (a : string) (bs : list string) (e : env_t) (k : string) :
  assoc_get (copy_if_set a bs e) k =
  if existsb (String.eqb k) bs then or_else (env_value e a) (assoc_get e k) else assoc_get e k.
Proof.
  unfold copy_if_set. destruct (env_value e a) as [v|] eqn:E.
  - rewrite assoc_get_fold_const. reflexivity.
  - destruct (existsb _ _); reflexivity.
Qed.

Lemma copy_if_set_value (a : string) (bs : list string) (e : env_t) (k : string) :
  existsb (String.eqb k) bs = false -> env_value (copy_if_set a bs e) k = env_value e k.
Proof. intros H. unfold env_value at 1. rewrite copy_if_set_get, H. reflexivity. Qed.

(** The environment [cli-executor.js] passes on: each of the three token
    variables is [CONNIE_API_TOKEN] when that is set and not empty, else
    [CONFLUENCE_API_TOKEN] when that is, else left as it was; each of the two
    user name variables likewise from [CONNIE_USER] over
    [ATLASSIAN_USER_NAME]; every other variable is left as it was (the last
    value the process environment gives it). *)
Theorem executor_env_get (penv : env_t) (k : string) :
  let env := spread [] penv in
  assoc_get (executor_env penv) k =
  if existsb (String.eqb k) ["MARKDOWN_CONFLUENCE_TOKEN"; "CONFLUENCE_TOKEN"; "ATLASSIAN_API_TOKEN"] then
    or_else (env_value env "CONNIE_API_TOKEN")
      (or_else (env_value env "CONFLUENCE_API_TOKEN") (last_write k penv))
  else if existsb (String.eqb k) ["MARKDOWN_CONFLUENCE_USERNAME"; "CONFLUENCE_USERNAME"] then
    or_else (env_value env "CONNIE_USER")
      (or_else (env_value env "ATLASSIAN_USER_NAME") (last_write k penv))
  else last_write k penv.
Proof.
  intros env. unfold executor_env. fold env.
  rewrite <- (assoc_get_spread_nil penv k). fold env.
  rewrite !copy_if_set_get.
  rewrite !copy_if_set_value by reflexivity.
  destruct (existsb (String.eqb k) ["MARKDOWN_CONFLUENCE_TOKEN"; "CONFLUENCE_TOKEN"; "ATLASSIAN_API_TOKEN"]) eqn:Et;
  destruct (existsb (String.eqb k) ["MARKDOWN_CONFLUENCE_USERNAME"; "CONFLUENCE_USERNAME"]) eqn:Eu;
  try reflexivity.
  exfalso. cbn in Et, Eu.
  destruct (String.eqb k "MARKDOWN_CONFLUENCE_TOKEN") eqn:E1;
  [apply String.eqb_eq in E1; subst k; discriminate|].
  destruct (String.eqb k "CONFLUENCE_TOKEN") eqn:E2;
  [apply String.eqb_eq in E2; subst k; discriminate|].
  destruct (String.eqb k "ATLASSIAN_API_TOKEN") eqn:E3;
  [apply String.eqb_eq in E3; subst k; discriminate|discriminate].
Qed.

(* ------------------------------------------------------------------ *)
(** ** [processReferences] *)

Lemma dirent_name_shape (e : dirent) : dirent_name (dirent_shape e) = dirent_name e.
Proof. destruct e; reflexivity. Qed.

Lemma lookup_file_single_file (n c : string) (p : list string) :
  lookup_file [DFile n c] p = match p with [m] => if String.eqb n m then Some c else None | _ => None end.
Proof.
  destruct p as [|m [|m' q]]; [reflexivity| |].
  - rewrite lookup_file_one. cbn. destruct (String.eqb n m); reflexivity.
  - rewrite lookup_file_more. cbn. destruct (String.eqb n m); reflexivity.
Qed.

(** A walk that rewrites some markdown files in place and fails or keeps
    everything else keeps the layout and the other files. *)
Lemma walker_keeps (W : string -> dirent -> option dirent) :
  (forall rel n c e', W rel (DFile n c) = Some e' ->
     e' = DFile n c \/ (is_md n = true /\ exists c', e' = DFile n c')) ->
  (forall rel n es e', W rel (DDir n es) = Some e' ->
     exists es', e' = DDir n es' /\ Forall2 (fun x y => exists r, W r x = Some y) es es') ->
  forall e rel e', W rel e = Some e' -> md_keeps e e'.
Proof.
  intros HF HD e. induction e as [n c|n es IH] using dirent_ind'; intros rel e' H.
  - destruct (HF _ _ _ _ H) as [-> | [Hmd [c' ->]]]; [split; reflexivity|].
    split; [reflexivity|]. intros p Hp. rewrite !lookup_file_single_file.
    destruct p as [|m [|m' q]]; try reflexivity.
    cbn in Hp. destruct (String.eqb n m) eqn:E; [|reflexivity].
    apply String.eqb_eq in E. subst m. congruence.
  - destruct (HD _ _ _ _ H) as (es' & -> & H2).
    assert (H3 : Forall2 (fun x y => dirent_name y = dirent_name x /\ md_keeps x y) es es').
    { clear H. induction H2 as [|x y xs ys [r Hr] _ IHl]; [constructor|].
      inversion IH as [|? ? Hx IH']; subst.
      pose proof (Hx _ _ Hr) as Hk. constructor.
      - split; [|exact Hk]. destruct Hk as [Hs _].
        rewrite <- (dirent_name_shape y), <- (dirent_name_shape x), Hs. reflexivity.
      - exact (IHl IH'). }
    clear H H2 IH. split.
    + cbn. f_equal. induction H3 as [|x y xs ys [_ [Hs _]] _ IHl]; [reflexivity|].
      cbn. rewrite Hs, IHl. reflexivity.
    + intros p Hp. destruct p as [|n' [|m q]]; [reflexivity| |].
      * rewrite !lookup_file_one. cbn [find_entry dirent_name]. destruct (String.eqb n n'); reflexivity.
      * rewrite !lookup_file_more. cbn [find_entry dirent_name]. destruct (String.eqb n n'); [|reflexivity].
        pose proof (find_entry_forall2 _ m _ _ H3) as Hfe.
        destruct (find_entry m es) as [x|] eqn:Hx.
        -- destruct Hfe as (y & Hy & Hk).
           rewrite (lookup_file_head _ _ _ _ Hy), (lookup_file_head _ _ _ _ Hx).
           apply (proj2 Hk). exact Hp.
        -- rewrite (lookup_file_find es' [] m q) by (rewrite Hfe; reflexivity).
           rewrite (lookup_file_find es [] m q) by (rewrite Hx; reflexivity). reflexivity.
Qed.

(** The loop over a listing that maps each entry with [W] and fails as
    soon as one fails. *)
Lemma map_loop_forall2 (W : dirent -> option dirent) (es es' : list dirent) :
  (fix go (es : list dirent) : option (list dirent) :=
     match es with
     | [] => Some []
     | e' :: es' => match W e' with Some e'' => option_map (cons e'') (go es') | None => None end
     end) es = Some es' ->
  Forall2 (fun x y => W x = Some y) es es'.
Proof.
  revert es'. induction es as [|x es IH]; intros es' H.
  - injection H as <-. constructor.
  - destruct (W x) as [y|] eqn:Hx; [|discriminate].
    destruct (_ es) as [ys|] eqn:Hr in H; [|discriminate].
    injection H as <-. constructor; [exact Hx|exact (IH _ Hr)].
Qed.

Lemma uof_entry_keeps {YE : YamlEngine} (pim skm : list (string * string)) (e : dirent) (rel : string)
    (e' : dirent) :
  uof_entry pim skm rel e = Some e' -> md_keeps e e'.
Proof.
  apply (walker_keeps (uof_entry pim skm)).
  - intros rel0 n c e0 H. cbn [uof_entry] in H. destruct (is_md n) eqn:Hmd.
    + right. split; [reflexivity|].
      destruct (uof_file _ _ _ _ _) as [c'|]; [|discriminate]. injection H as <-. exists c'. reflexivity.
    + left. injection H as <-. reflexivity.
  - intros rel0 n es e0 H. cbn [uof_entry] in H.
    match type of H with
    | option_map _ ?X = _ => destruct X as [es'|] eqn:Hg; [|discriminate]
    end.
    injection H as <-. exists es'. split; [reflexivity|].
    apply map_loop_forall2 in Hg. clear -Hg.
    induction Hg as [|x y xs ys Hxy _ IHl]; constructor; [eexists; exact Hxy|exact IHl].
Qed.

Lemma pmf_entry_keeps {YE : YamlEngine} (pm : page_map) (skm : space_key_map) (cfg : config)
    (e : dirent) (rel : string) (e' : dirent) :
  pmf_entry pm skm cfg rel e = Some e' -> md_keeps e e'.
Proof.
  apply (walker_keeps (pmf_entry pm skm cfg)).
  - intros rel0 n c e0 H. cbn [pmf_entry] in H. destruct (is_md n) eqn:Hmd.
    + right. split; [reflexivity|].
      destruct (fix_references _ _ _ _ _) as [c'|]; [|discriminate]. injection H as <-. exists c'. reflexivity.
    + left. injection H as <-. reflexivity.
  - intros rel0 n es e0 H. cbn [pmf_entry] in H.
    match type of H with
    | option_map _ ?X = _ => destruct X as [es'|] eqn:Hg; [|discriminate]
    end.
    injection H as <-. exists es'. split; [reflexivity|].
    apply map_loop_forall2 in Hg. clear -Hg.
    induction Hg as [|x y xs ys Hxy _ IHl]; constructor; [eexists; exact Hxy|exact IHl].
Qed.

Lemma md_keeps_dir (n n' : string) (es es' : list dirent) :
  md_keeps (DDir n es) (DDir n' es') ->
  forall p, is_md (last p "") = false -> lookup_file es' p = lookup_file es p.
Proof.
  intros [Hs Hk] p Hp. cbn in Hs. injection Hs as -> _.
  destruct p as [|x q]; [reflexivity|].
  rewrite <- (lookup_file_dir_back n es' x q), <- (lookup_file_dir_back n es x q).
  apply Hk. exact Hp.
Qed.

Lemma update_original_files_entry {YE : YamlEngine} (out : option string) (m m1 : list dirent)
    (pim skm : list (string * string)) :
  update_original_files out m = Some (m1, pim, skm) -> uof_entry pim skm "" (DDir "" m) = Some (DDir "" m1).
Proof.
  unfold update_original_files. destruct (uof_maps out) as [pim0 skm0].
  destruct (uof_entry pim0 skm0 "" (DDir "" m)) as [[n0 c0|n0 es]|] eqn:Hu; try discriminate.
  injection 1 as <- <- <-. rewrite Hu.
  cbn [uof_entry] in Hu. destruct (_ m) in Hu; [|discriminate]. cbn in Hu. injection Hu as <- _. reflexivity.
Qed.

(** The map [processReferences] fixes the links with: an identifier
    [buildPageIdMap] found for a path wins over the one the publisher's
    output gives. *)
Theorem merge_page_ids_get (pm : page_map) (pim : list (string * string)) (p : string) :
  assoc_get (merge_page_ids pm pim) p = or_else (assoc_get pm p) (option_map YStr (assoc_get pim p)).
Proof.
  unfold merge_page_ids. revert pm. induction pim as [|[p' id] pim IH]; intros pm.
  - cbn. symmetry. apply or_else_None_r.
  - cbn [fold_left fst snd]. rewrite IH. cbn [assoc_get].
    unfold assoc_has. destruct (String.eqb p p') eqn:E.
    + apply String.eqb_eq in E. subst p'.
      destruct (assoc_get pm p) as [v|] eqn:Hg.
      * rewrite Hg. reflexivity.
      * rewrite assoc_get_set_eq. reflexivity.
    + apply String.eqb_neq in E.
      destruct (assoc_get pm p') as [v|]; [reflexivity|].
      rewrite assoc_get_set_neq by exact E. reflexivity.
Qed.

(** [processReferences] on a folder whose listing is a file system's
    leaves every entry other than [docs-fixed-references] as it was, and
    in the mirror every file whose name is not a markdown name is the
    source's file at the same path, else the one the mirror held. *)
Theorem process_references_keeps {YE : YamlEngine} (cfg : config) (out : option string)
    (root root' : list dirent) :
  Forall wf_dirent root -> NoDup (map dirent_name root) ->
  process_references_dir cfg out root = Some root' ->
  filter not_mirror root' = filter not_mirror root /\
  forall p, is_md (last p "") = false ->
    lookup_file (mirror_of root') p =
    or_else (lookup_file (filter not_mirror root) p) (lookup_file (mirror_of root) p).
Proof.
  intros Hwf Hnd H. unfold process_references_dir in H.
  destruct (copy_dir root) as [root1|] eqn:Hc; [|discriminate].
  destruct (copy_dir_lookup root root1 Hwf Hnd Hc) as [Hf1 Hl1].
  destruct (find_entry FIXED_REFS_DIR root1) as [[n0 c0|n0 m]|] eqn:Hm; try discriminate.
  destruct (build_page_id_map m) as [pm|]; [|discriminate].
  destruct (update_original_files out m) as [[[m1 pim] skm]|] eqn:Hu; [|discriminate].
  destruct (pmf_entry (merge_page_ids pm pim) skm cfg "" (DDir "" m1)) as [[n2 c2|n2 m2]|] eqn:Hp;
    try discriminate.
  injection H as <-.
  assert (Hm1 : mirror_of root1 = m) by (unfold mirror_of; rewrite Hm; reflexivity).
  assert (Hm2 : mirror_of (replace_entry FIXED_REFS_DIR (DDir FIXED_REFS_DIR m2) root1) = m2).
  { unfold mirror_of. rewrite find_entry_replace by reflexivity.
    rewrite String.eqb_refl, Hm. reflexivity. }
  split.
  - rewrite filter_replace_mirror by reflexivity. exact Hf1.
  - intros p Hp'. rewrite Hm2, <- Hl1, Hm1.
    pose proof (uof_entry_keeps _ _ _ _ _ (update_original_files_entry _ _ _ _ _ Hu)) as K1.
    pose proof (pmf_entry_keeps _ _ _ _ _ _ Hp) as K2.
    rewrite (md_keeps_dir _ _ _ _ K2 p Hp'). exact (md_keeps_dir _ _ _ _ K1 p Hp').
Qed.

Lemma process_references_keeps_witness :
  let cfg := [("confluenceBaseUrl", JStr "https://example.net"); ("confluenceSpaceKey", JStr "SP")] in
  let root := [DFile "a.md" (text ["---"; "connie-page-id: 12"; "---"; "See [b](b.md)"]);
               DDir "img" [DFile "logo.png" "bin"];
               DFile "b.md" (text ["---"; "connie-page-id: 34"; "---"; "Back to [a](a.md)"])] in
  Forall wf_dirent root /\ NoDup (map dirent_name root) /\
  match @process_references_dir MiniYaml.engine cfg None root with
  | Some root' =>
      filter not_mirror root' = filter not_mirror root /\
      forall p, is_md (last p "") = false ->
        lookup_file (mirror_of root') p =
        or_else (lookup_file (filter not_mirror root) p) (lookup_file (mirror_of root) p)
  | None => False
  end.
Proof.
  intros cfg root.
  assert (H1 : Forall wf_dirent root)
    by (repeat constructor; cbn; repeat split; try discriminate; repeat constructor; cbn; intuition discriminate).
  assert (H2 : NoDup (map dirent_name root)) by (repeat constructor; cbn; intuition discriminate).
  split; [exact H1|]. split; [exact H2|].
  destruct (@process_references_dir MiniYaml.engine cfg None root) as [root'|] eqn:E.
  - exact (@process_references_keeps MiniYaml.engine cfg None root root' H1 H2 E).
  - vm_compute in E. discriminate.
Defined.

(* ------------------------------------------------------------------ *)
(** ** The configuration check of the publisher *)

Lemma check_configuration_some (jc : jsval) (penv : env_t) (st : list (string * config_status)) :
  check_configuration jc penv = Some st ->
  Forall2 (fun k ks => fst ks = k /\ key_status jc penv k = Some (snd ks) /\
             (json_falsy (json_value (snd ks)) &&
              match first_set penv (env_vars_of k) with Some _ => false | None => true end) = false)
    REQUIRED_KEYS st.
Proof.
  intros H. unfold check_configuration, REQUIRED_KEYS in H. cbn [fold_left] in H.
  repeat (first
    [ discriminate H
    | match type of H with
      | context [key_status jc penv ?k] =>
          let E := fresh "E" in destruct (key_status jc penv k) eqn:E; cbn -[key_status first_set json_falsy env_vars_of status_logs] in H
      end
    | match type of H with
      | context [json_falsy (json_value ?s) && ?r] =>
          let E := fresh "C" in destruct (json_falsy (json_value s) && r) eqn:E; cbn -[key_status first_set json_falsy env_vars_of status_logs] in H
      end
    | match type of H with
      | context [negb (status_logs ?x)] =>
          destruct (negb (status_logs x)); cbn -[key_status first_set json_falsy env_vars_of status_logs] in H
      end ]).
  injection H as <-.
  repeat constructor; assumption.
Qed.


Lemma assoc_get_map_str (l : list (string * string)) (k : string) :
  assoc_get (map (fun kv => (fst kv, JStr (snd kv))) l) k = option_map JStr (assoc_get l k).
Proof.
  induction l as [|[k' x] l IH]; cbn; [reflexivity|]. destruct (String.eqb k k'); [reflexivity|exact IH].
Qed.

Lemma map_status_get (env : list (string * json)) (ks : string * config_status) (v : string) :
  assoc_get (map_status env ks) v =
  if existsb (String.eqb v) (env_vars_of (fst ks)) && negb (json_falsy (status_value (snd ks)))
  then status_value (snd ks) else assoc_get env v.
Proof.
  unfold map_status. destruct (status_value (snd ks)) as [x|] eqn:Ev.
  - destruct (json_falsy (Some x)) eqn:Ef.
    + rewrite andb_false_r. reflexivity.
    + rewrite assoc_get_fold_const, andb_true_r. reflexivity.
  - rewrite andb_false_r. reflexivity.
Qed.

Lemma checked_fold_get (st : list (string * config_status)) (env : list (string * json)) (v : string) :
  assoc_get (fold_left map_status st env) v =
  fold_left (fun acc ks =>
    if existsb (String.eqb v) (env_vars_of (fst ks)) && negb (json_falsy (status_value (snd ks)))
    then status_value (snd ks) else acc) st (assoc_get env v).
Proof.
  revert env. induction st as [|ks st IH]; intros env; [reflexivity|].
  cbn [fold_left]. rewrite IH, map_status_get. reflexivity.
Qed.

Lemma fold_status_skip (st : list (string * config_status)) (v : string) (acc : option json) :
  (forall ks, In ks st -> existsb (String.eqb v) (env_vars_of (fst ks)) = false) ->
  fold_left (fun acc ks =>
    if existsb (String.eqb v) (env_vars_of (fst ks)) && negb (json_falsy (status_value (snd ks)))
    then status_value (snd ks) else acc) st acc = acc.
Proof.
  revert acc. induction st as [|ks st IH]; intros acc H; [reflexivity|].
  cbn [fold_left]. rewrite (H ks (or_introl eq_refl)). cbn [andb].
  apply IH. intros ks' Hin. apply H. right. exact Hin.
Qed.

Lemma first_env_nonempty (penv : env_t) (vs : list string) (x : string) :
  first_env penv vs = Some x -> x <> "".
Proof.
  induction vs as [|v vs IH]; cbn; [discriminate|].
  unfold env_value. destruct (assoc_get penv v) as [y|]; [|exact IH].
  destruct (String.eqb y "") eqn:E; [exact IH|].
  intros H. injection H as <-. apply String.eqb_neq. exact E.
Qed.

Lemma first_set_first_env (penv : env_t) (vs : list string) :
  match first_set penv vs with Some n => assoc_get penv n | None => None end = first_env penv vs.
Proof.
  unfold first_set. induction vs as [|v vs IH]; cbn; [reflexivity|].
  destruct (env_value penv v) as [y|] eqn:E; [|exact IH].
  unfold env_value in E. destruct (assoc_get penv v) as [z|]; [|discriminate].
  destruct (String.eqb z ""); [discriminate|]. exact E.
Qed.

Lemma first_set_none (penv : env_t) (vs : list string) :
  first_set penv vs = None <-> first_env penv vs = None.
Proof.
  unfold first_set. induction vs as [|v vs IH]; cbn; [tauto|].
  destruct (env_value penv v); [split; discriminate|exact IH].
Qed.

Lemma key_status_value (jc : jsval) (penv : env_t) (k : string) (s : config_status) :
  key_status jc penv k = Some s ->
  json_value s = match prop_get jc k with Some jv => jv | None => None end /\
  status_value s = or_else (option_map JStr (first_env penv (env_vars_of k))) (json_value s).
Proof.
  unfold key_status. destruct (prop_get jc k) as [jv|]; [|discriminate].
  intros H. injection H as <-. cbn [json_value status_env_value]. split; [reflexivity|].
  unfold status_value. cbn [json_value status_env_value]. rewrite first_set_first_env.
  destruct (first_env penv (env_vars_of k)) as [x|] eqn:E; [|reflexivity].
  cbn. apply first_env_nonempty in E. apply String.eqb_neq in E. rewrite E. reflexivity.
Qed.

Lemma key_status_truthy (jc : jsval) (penv : env_t) (k : string) (s : config_status) :
  key_status jc penv k = Some s ->
  (json_falsy (json_value s) &&
   match first_set penv (env_vars_of k) with Some _ => false | None => true end) = false ->
  json_falsy (status_value s) = false.
Proof.
  intros H Hc. destruct (key_status_value _ _ _ _ H) as [_ ->].
  destruct (first_env penv (env_vars_of k)) as [x|] eqn:E.
  - cbn. apply first_env_nonempty in E. apply String.eqb_neq. exact E.
  - apply first_set_none in E. rewrite E, andb_true_r in Hc. exact Hc.
Qed.

Lemma env_vars_of_mapped (k : string) (x : string) :
  In k REQUIRED_KEYS -> In x (env_vars_of k) -> In x (flat_map snd ENV_MAPPING).
Proof.
  intros Hk Hx. cbn in Hk.
  destruct Hk as [<-|[<-|[<-|[<-|[<-|[]]]]]]; cbn in Hx |- *; tauto.
Qed.

(** When the publisher variant of [src/unnamed/part_004] gets past its
    configuration check, every variable [ENV_MAPPING] lists for a key in
    the environment it passes on holds a truthy value: the first of the
    key's variables that is set and not empty, else the key's value in
    the configuration file; every other variable keeps the value of the
    process environment. *)
Theorem checked_publisher_env_vars {JP : JsonParser} (file : option string) (penv : env_t)
    (env : list (string * json)) :
  checked_publisher_env file penv = Some env ->
  (forall k vars v, In (k, vars) ENV_MAPPING -> In v vars ->
     assoc_get env v =
       or_else (option_map JStr (first_env penv vars))
         (match prop_get (initial_config file) k with Some jv => jv | None => None end) /\
     json_falsy (assoc_get env v) = false) /\
  (forall v, ~ In v (flat_map snd ENV_MAPPING) -> assoc_get env v = option_map JStr (last_write v penv)).
Proof.
  unfold checked_publisher_env. intros H.
  destruct (check_configuration (initial_config file) penv) as [st|] eqn:Hc; [|discriminate].
  injection H as <-. apply check_configuration_some in Hc.
  unfold checked_env. split.
  - intros k vars v Hkv Hv. rewrite checked_fold_get.
    unfold REQUIRED_KEYS in Hc.
    repeat match goal with
           | H : Forall2 _ (_ :: _) _ |- _ =>
               let ks := fresh "ks" in let Hks := fresh "Hks" in let H' := fresh "HF" in
               inversion H as [|? ks ? ? Hks H']; subst; clear H
           | H : Forall2 _ [] _ |- _ => inversion H; subst; clear H
           end.
    repeat match goal with
           | ks : string * config_status |- _ =>
               let k0 := fresh "k" in let s0 := fresh "s" in destruct ks as [k0 s0]
           end.
    cbn [fst snd] in *.
    repeat match goal with
           | H : _ = _ /\ _ |- _ =>
               let E := fresh "Eq" in let S := fresh "S" in let C := fresh "Cd" in
               destruct H as (E & S & C); subst
           end.
    repeat match goal with
           | S : key_status ?j ?p ?k = Some ?s, C : (json_falsy (json_value ?s) && _) = false |- _ =>
               let T := fresh "T" in pose proof (key_status_truthy _ _ _ _ S C) as T; clear C
           end.
    cbn in Hkv.
    destruct Hkv as [Hkv|[Hkv|[Hkv|[Hkv|[Hkv|[]]]]]]; injection Hkv as <- <-;
    cbn in Hv; repeat destruct Hv as [<-|Hv]; try contradiction;
    cbn [fold_left fst snd];
    repeat match goal with
           | |- context [existsb (String.eqb ?a) (env_vars_of ?b)] =>
               let r := eval vm_compute in (existsb (String.eqb a) (env_vars_of b)) in
               change (existsb (String.eqb a) (env_vars_of b)) with r
           end;
    repeat match goal with
           | T : json_falsy (status_value ?s) = false |- context [json_falsy (status_value ?s)] => rewrite T
           end;
    cbn [andb negb];
    match goal with
    | S : key_status _ _ _ = Some ?s, T : json_falsy (status_value ?s) = false
      |- status_value ?s = _ /\ _ =>
        destruct (key_status_value _ _ _ _ S) as [Hj Hs];
        split; [rewrite Hs, Hj; reflexivity|exact T]
    end.
  - intros v Hv. rewrite checked_fold_get, fold_status_skip.
    + rewrite assoc_get_map_str, assoc_get_spread_nil. reflexivity.
    + intros ks Hin. destruct (existsb (String.eqb v) (env_vars_of (fst ks))) eqn:E; [|reflexivity].
      exfalso. apply Hv. apply existsb_exists in E as (x & Hx & Ex). apply String.eqb_eq in Ex. subst x.
      apply (env_vars_of_mapped (fst ks)); [|exact Hx].
      clear -Hc Hin. induction Hc as [|k ks' ks0 st0 [Hk _] _ IH]; [contradiction|].
      destruct Hin as [<-|Hin]; [left; symmetry; exact Hk|right; exact (IH Hin)].
Qed.






(** The status log of that publisher throws on a required key whose
    value is an object with a [toString] property, even when every key is
    set, and lets the same file through without that property. *)
Lemma checked_publisher_env_log_example :
  let q := fun s => String dquote (s ++ String dquote "") in
  let penv := [("CONFLUENCE_BASE_URL", "u"); ("CONNIE_SPACE", "SP"); ("CONNIE_PARENT", "1");
               ("CONNIE_USER", "me"); ("CONNIE_API_TOKEN", "t")] in
  @checked_publisher_env MiniJson.parser (Some ("{" ++ q "confluenceBaseUrl" ++ ": {" ++ q "toString" ++ ": 1}}")) penv
    = None /\
  @checked_publisher_env MiniJson.parser (Some ("{" ++ q "confluenceBaseUrl" ++ ": {" ++ q "x" ++ ": 1}}")) penv
    <> None.
Proof. vm_compute. split; [reflexivity|discriminate]. Qed.

Lemma checked_publisher_env_vars_witness :
  let q := fun s => String dquote (s ++ String dquote "") in
  let file := Some ("{" ++ q "confluenceBaseUrl" ++ ": " ++ q "https://example.net" ++ ", " ++
                    q "confluenceParentId" ++ ": 7}") in
  let penv := [("CONNIE_SPACE", "SP"); ("ATLASSIAN_USER_NAME", "me"); ("CONFLUENCE_API_TOKEN", "t0k");
               ("HOME", "/home/me")] in
  match @checked_publisher_env MiniJson.parser file penv with
  | Some env =>
      (forall k vars v, In (k, vars) ENV_MAPPING -> In v vars ->
         assoc_get env v =
           or_else (option_map JStr (first_env penv vars))
             (match prop_get (@initial_config MiniJson.parser file) k with Some jv => jv | None => None end) /\
         json_falsy (assoc_get env v) = false) /\
      (forall v, ~ In v (flat_map snd ENV_MAPPING) -> assoc_get env v = option_map JStr (last_write v penv))
  | None => False
  end.
Proof.
  intros q file penv.
  destruct (@checked_publisher_env MiniJson.parser file penv) as [env|] eqn:E.
  - exact (@checked_publisher_env_vars MiniJson.parser file penv env E).
  - vm_compute in E. discriminate.
Defined.
